(** * ChipChat: structural extractor, synthesis linter and FPGA estimator

    A shallow embedding of three JavaScript classes of the dashboard:
    - [VerilogParser]           (components/utils/verilogParser.js),
    - [VerilogSynthesisLinter]  (the best-practices linter), and
    - [FPGACalculations]        (components/utils/fpgaCalculations.js),
    followed by the properties of the specification that concern them.

    Conventions of the embedding.
    - A JavaScript string is a [string]: a sequence of code units below 256.
    - A JavaScript Number is a binary64 [float], also what [parseInt]
      returns; quantities that the code only ever obtains by counting
      (lengths, indices, line numbers) are integers ([nat], [Z]).
    - An object literal used as a table is the association list of its
      own entries; a member access also finds what every object inherits
      from [Object.prototype].
    - A method that can [throw] returns a [result]. *)

From Stdlib Require Import Bool Arith Lia ZArith List String Ascii Floats.
From Stdlib Require Uint63.
Import ListNotations.

Set Warnings "-inexact-float".
Open Scope string_scope.
Open Scope list_scope.
Open Scope nat_scope.

(* ================================================================== *)
(** ** JavaScript strings *)

Module JsString.

Definition code (c : ascii) : nat := nat_of_ascii c.

Definition in_range (lo hi : nat) (c : ascii) : bool :=
  (lo <=? code c) && (code c <=? hi).

(** [\d] *)
Definition is_digit (c : ascii) : bool := in_range 48 57 c.

(** [\w]: [A-Za-z0-9_] *)
Definition is_word (c : ascii) : bool :=
  in_range 97 122 c || in_range 65 90 c || is_digit c || (code c =? 95).

(** [\s], and the characters [trim] removes: TAB, LF, VT, FF, CR, SP, NBSP. *)
Definition is_space (c : ascii) : bool :=
  in_range 9 13 c || (code c =? 32) || (code c =? 160).

(** Line terminators: LF and CR. *)
Definition is_newline (c : ascii) : bool := (code c =? 10) || (code c =? 13).

Definition LF : ascii := ascii_of_nat 10.

Fixpoint trimStart (s : string) : string :=
  match s with
  | String c t => if is_space c then trimStart t else s
  | EmptyString => EmptyString
  end.

Fixpoint trimEnd (s : string) : string :=
  match s with
  | EmptyString => EmptyString
  | String c t =>
      match trimEnd t with
      | EmptyString => if is_space c then EmptyString else String c EmptyString
      | t' => String c t'
      end
  end.

Definition trim (s : string) : string := trimEnd (trimStart s).

Definition startsWith (s pat : string) : bool := prefix pat s.

Fixpoint includes (s pat : string) : bool :=
  prefix pat s ||
  match s with
  | EmptyString => false
  | String _ t => includes t pat
  end.

Fixpoint endsWith (s pat : string) : bool :=
  String.eqb s pat ||
  match s with
  | EmptyString => false
  | String _ t => endsWith t pat
  end.

(** [indexOf] and [lastIndexOf] return [-1] when there is no occurrence. *)
Fixpoint indexOf_from (i : Z) (s pat : string) : Z :=
  if prefix pat s then i
  else match s with
       | EmptyString => (-1)%Z
       | String _ t => indexOf_from (i + 1) t pat
       end.

Definition indexOf (s pat : string) : Z := indexOf_from 0 s pat.

Fixpoint lastIndexOf_from (i : Z) (s pat : string) : Z :=
  let later :=
    match s with
    | EmptyString => (-1)%Z
    | String _ t => lastIndexOf_from (i + 1) t pat
    end in
  if (0 <=? later)%Z then later
  else if prefix pat s then i else (-1)%Z.

Definition lastIndexOf (s pat : string) : Z := lastIndexOf_from 0 s pat.

(** [s.split(sep)] for a one-character separator. *)
Fixpoint split (sep : ascii) (s : string) : list string :=
  match s with
  | EmptyString => [EmptyString]
  | String c t =>
      if Ascii.eqb c sep then EmptyString :: split sep t
      else match split sep t with
           | x :: xs => String c x :: xs
           | [] => [String c EmptyString]
           end
  end.

(** Decimal rendering of a natural number, as a template string does. *)
Definition digit_char (n : nat) : ascii := ascii_of_nat (48 + n).

Fixpoint decimal_from (fuel n : nat) (acc : string) : string :=
  match fuel with
  | O => acc
  | S f =>
      let acc' := String (digit_char (n mod 10)) acc in
      if n <? 10 then acc' else decimal_from f (n / 10) acc'
  end.

Definition decimal (n : nat) : string := decimal_from (S n) n EmptyString.

End JsString.

(* ================================================================== *)
(** ** JavaScript numbers *)

Module JsNumber.
Import JsString.
Local Open Scope float_scope.

(** An integer below 2^63 as a Number (exact below 2^53). *)
Definition of_Z (z : Z) : float :=
  if (z <? 0)%Z then - of_uint63 (Uint63.of_Z (- z)) else of_uint63 (Uint63.of_Z z).

Definition of_nat (n : nat) : float := of_Z (Z.of_nat n).

(** ToBoolean of a Number: false for 0, -0 and NaN. *)
Definition truthy (x : float) : bool := negb (x =? 0) && negb (is_nan x).

Definition Math_sqrt (x : float) : float := PrimFloat.sqrt x.
Definition Math_abs (x : float) : float := PrimFloat.abs x.

Definition Math_min (x y : float) : float :=
  if is_nan x || is_nan y then nan
  else if x <? y then x
  else if y <? x then y
  else if is_zero x && get_sign x then x   (* -0 is below +0 *)
  else y.

(** [Math.ceil]: the value of a finite float is [m * 2^e]. *)
Definition Math_ceil (x : float) : float :=
  match Prim2SF x with
  | S754_finite sign m e =>
      if (0 <=? e)%Z then x
      else
        let d := (2 ^ (- e))%Z in
        let q := (Z.pos m / d)%Z in
        if sign then (if (q =? 0)%Z then neg_zero else of_Z (- q))
        else of_Z (if (Z.pos m mod d =? 0)%Z then q else q + 1)
  | _ => x
  end.

(** The binary64 nearest to [p / q] (ties to even), for [0 <= p], [0 < q];
    [neg] gives the sign. This is how a decimal literal is read back. *)
Definition nearest (neg : bool) (p q : Z) : float :=
  if (p =? 0)%Z then (if neg then neg_zero else 0)
  else
    let quot (e : Z) : Z :=
      if (0 <=? e)%Z then (p / (q * 2 ^ e))%Z else ((p * 2 ^ (- e)) / q)%Z in
    let e1 := (Z.log2 p - Z.log2 q - 52)%Z in
    let e2 := if (quot e1 <? 2 ^ 52)%Z then (e1 - 1)%Z else e1 in
    let e := Z.max e2 (-1074) in
    let num := if (0 <=? e)%Z then p else (p * 2 ^ (- e))%Z in
    let den := if (0 <=? e)%Z then (q * 2 ^ e)%Z else q in
    let m := (num / den)%Z in
    let r := (num mod den)%Z in
    let up := (den <? 2 * r)%Z || ((den =? 2 * r)%Z && Z.odd m) in
    let v := Z.ldexp (of_Z (if up then m + 1 else m)) e in
    if neg then - v else v.

(** [parseFloat(x.toFixed(digits))]: [toFixed] rounds the exact value of
    [x] to [digits] decimals, halves away from zero; beyond 1e21, and for
    NaN and the infinities, it prints [x] itself. *)
Definition toFixed (digits : nat) (x : float) : float :=
  match Prim2SF x with
  | S754_finite sign m e =>
      if Math_abs x <? 1e21 then
        let scale := (10 ^ Z.of_nat digits)%Z in
        let n :=
          if (0 <=? e)%Z then (Z.pos m * scale * 2 ^ e)%Z
          else ((2 * Z.pos m * scale + 2 ^ (- e)) / 2 ^ (- e + 1))%Z in
        nearest sign n scale
      else x
  | S754_zero _ => 0
  | _ => x
  end.

(** The value of a digit of a radix up to 16, letters in either case. *)
Definition digit_value (c : ascii) : option Z :=
  if is_digit c then Some (Z.of_nat (code c - 48))
  else if in_range 97 102 c then Some (Z.of_nat (code c - 87))
  else if in_range 65 70 c then Some (Z.of_nat (code c - 55))
  else None.

(** The digits of the radix at the start of [s], read as an integer;
    [None] when [s] starts with none. *)
Fixpoint digits_from (radix : Z) (acc : option Z) (s : string) : option Z :=
  match s with
  | String c t =>
      match digit_value c with
      | Some v =>
          if (v <? radix)%Z then
            digits_from radix
              (Some (radix * match acc with Some a => a | None => 0 end + v)%Z) t
          else acc
      | None => acc
      end
  | EmptyString => acc
  end.

(** [parseInt(s)], no radix given: leading blanks are skipped, then a
    sign; [0x] or [0X] announces hexadecimal digits; the digits up to the
    first character that is none are read, all of them, and the result
    is the Number nearest to their value, NaN when there is no digit. *)
Definition parseInt (s : string) : float :=
  let s := trimStart s in
  let '(negative, s) :=
    match s with
    | String c t =>
        if Ascii.eqb c "-"%char then (true, t)
        else if Ascii.eqb c "+"%char then (false, t)
        else (false, s)
    | EmptyString => (false, s)
    end in
  let '(radix, s) :=
    match s with
    | String c (String x t) =>
        if Ascii.eqb c "0"%char && (Ascii.eqb x "x"%char || Ascii.eqb x "X"%char)
        then (16%Z, t)
        else (10%Z, s)
    | _ => (10%Z, s)
    end in
  match digits_from radix None s with
  | Some z => nearest negative z 1
  | None => nan
  end.

End JsNumber.

(* ================================================================== *)
(** ** Regular expressions, with the backtracking order of [RegExp] *)

Module Regex.
Import JsString.

Inductive regex : Type :=
| Empty                               (* the empty pattern *)
| Char (p : ascii -> bool)            (* one character of a class *)
| Seq (r1 r2 : regex)
| Alt (r1 r2 : regex)                 (* r1|r2, r1 tried first *)
| Star (greedy : bool) (r : regex)    (* r* and r*? *)
| Group (n : nat) (r : regex)         (* the n-th capturing group *)
| Bol (multiline : bool)              (* ^ *)
| Eol (multiline : bool)              (* $ *)
| WordBoundary.                       (* \b *)

Definition Plus (r : regex) : regex := Seq r (Star true r).
Definition Opt (r : regex) : regex := Alt r Empty.
Definition Chr (c : ascii) : regex := Char (Ascii.eqb c).

Fixpoint Lit (s : string) : regex :=
  match s with
  | EmptyString => Empty
  | String c EmptyString => Chr c
  | String c t => Seq (Chr c) (Lit t)
  end.

Fixpoint Seqs (rs : list regex) : regex :=
  match rs with
  | [] => Empty
  | [r] => r
  | r :: rs' => Seq r (Seqs rs')
  end.

Fixpoint Alts (rs : list regex) : regex :=
  match rs with
  | [] => Empty
  | [r] => r
  | r :: rs' => Alt r (Alts rs')
  end.

Definition one_of (cs : string) (c : ascii) : bool :=
  existsb (Ascii.eqb c) (list_ascii_of_string cs).
Definition none_of (cs : string) (c : ascii) : bool := negb (one_of cs c).
Definition any_char (c : ascii) : bool := true.          (* [\s\S] *)
Definition dot (c : ascii) : bool := negb (is_newline c).  (* . *)

(** A position of the matcher in the subject: the character before it,
    its offset, the text from it on, and the groups captured so far
    (the most recent first). *)
Record mstate : Type := MState {
  prev : option ascii;
  pos : nat;
  rest : string;
  caps : list (nat * string)
}.

Definition peek (s : mstate) : option ascii :=
  match rest s with
  | String c _ => Some c
  | EmptyString => None
  end.

Definition opt_test (p : ascii -> bool) (o : option ascii) : bool :=
  match o with
  | Some c => p c
  | None => false
  end.

Definition at_bol (multiline : bool) (s : mstate) : bool :=
  match prev s with
  | None => true
  | Some c => multiline && is_newline c
  end.

Definition at_eol (multiline : bool) (s : mstate) : bool :=
  match peek s with
  | None => true
  | Some c => multiline && is_newline c
  end.

Definition at_word_boundary (s : mstate) : bool :=
  xorb (opt_test is_word (prev s)) (opt_test is_word (peek s)).

Definition capture (n : nat) (from to : mstate) : mstate :=
  MState (prev to) (pos to) (rest to)
         ((n, substring 0 (pos to - pos from) (rest from)) :: caps to).

Definition cont : Type := mstate -> option mstate.

(** The iterations of a quantifier; an iteration that consumes nothing is
    rejected. [fuel] exceeds the length of the remaining text, so the loop
    never stops for want of it. *)
Fixpoint star_loop (greedy : bool) (body : cont -> cont) (k : cont)
         (fuel : nat) (s : mstate) : option mstate :=
  match fuel with
  | O => k s
  | S fuel' =>
      let again (_ : unit) :=
        body (fun s' => if pos s <? pos s'
                        then star_loop greedy body k fuel' s'
                        else None) s in
      if greedy then
        match again tt with
        | Some r => Some r
        | None => k s
        end
      else
        match k s with
        | Some r => Some r
        | None => again tt
        end
  end.

(** [run r k s]: match [r] at [s], then continue with [k]; the first
    success in backtracking order. *)
Fixpoint run (r : regex) (k : cont) (s : mstate) : option mstate :=
  match r with
  | Empty => k s
  | Char p =>
      match rest s with
      | String c t => if p c then k (MState (Some c) (S (pos s)) t (caps s)) else None
      | EmptyString => None
      end
  | Seq r1 r2 => run r1 (run r2 k) s
  | Alt r1 r2 =>
      match run r1 k s with
      | Some x => Some x
      | None => run r2 k s
      end
  | Star greedy r1 => star_loop greedy (run r1) k (S (String.length (rest s))) s
  | Group n r1 => run r1 (fun s' => k (capture n s s')) s
  | Bol m => if at_bol m s then k s else None
  | Eol m => if at_eol m s then k s else None
  | WordBoundary => if at_word_boundary s then k s else None
  end.

(** The result of a successful match, as [exec] returns it. *)
Record MatchResult : Type := Match {
  index : nat;                    (* match.index *)
  matched : string;               (* match[0] *)
  groups : list (nat * string);   (* match[1], match[2], ... *)
  lastIndex : nat                 (* the offset just after the match *)
}.

Fixpoint assoc_nat (n : nat) (l : list (nat * string)) : option string :=
  match l with
  | [] => None
  | (m, v) :: l' => if n =? m then Some v else assoc_nat n l'
  end.

(** [match[n]]; [None] is [undefined]. *)
Definition group (n : nat) (m : MatchResult) : option string := assoc_nat n (groups m).

(** [match[n]] of a group that took part in the match. *)
Definition group_text (n : nat) (m : MatchResult) : string :=
  match group n m with
  | Some v => v
  | None => EmptyString
  end.

Definition match_at (r : regex) (p : option ascii) (i : nat) (text : string)
  : option MatchResult :=
  match run r (fun s => Some s) (MState p i text []) with
  | Some s' => Some (Match i (substring 0 (pos s' - i) text) (caps s') (pos s'))
  | None => None
  end.

(** The leftmost match at or after the current position. *)
Fixpoint search_from (r : regex) (p : option ascii) (i : nat) (text : string)
  : option MatchResult :=
  match match_at r p i text with
  | Some m => Some m
  | None =>
      match text with
      | EmptyString => None
      | String c t => search_from r (Some c) (S i) t
      end
  end.

(** [str.match(re)] and [re.exec(str)] without the [g] flag. *)
Definition exec (r : regex) (text : string) : option MatchResult :=
  search_from r None 0 text.

(** [re.test(str)] *)
Definition test (r : regex) (text : string) : bool :=
  match exec r text with
  | Some _ => true
  | None => false
  end.

(** All matches of a [g] regular expression, left to right: what the loop
    [while ((m = re.exec(str)) !== null)] visits, and [str.match(re)]
    collects. [skip] counts the characters of the last match still to be
    stepped over. *)
Fixpoint exec_all_from (r : regex) (p : option ascii) (i : nat) (text : string)
         (skip : nat) : list MatchResult :=
  match skip with
  | S skip' =>
      match text with
      | EmptyString => []
      | String c t => exec_all_from r (Some c) (S i) t skip'
      end
  | O =>
      match match_at r p i text with
      | Some m =>
          m :: match text with
               | EmptyString => []
               | String c t => exec_all_from r (Some c) (S i) t (lastIndex m - i - 1)
               end
      | None =>
          match text with
          | EmptyString => []
          | String c t => exec_all_from r (Some c) (S i) t 0
          end
      end
  end.

Definition exec_all (r : regex) (text : string) : list MatchResult :=
  exec_all_from r None 0 text 0.

(** [(str.match(re) || []).length] for a [g] regular expression. *)
Definition count_matches (r : regex) (text : string) : nat :=
  List.length (exec_all r text).

(** [str.replace(re, '')] for a [g] regular expression. *)
Fixpoint remove_all_from (r : regex) (p : option ascii) (i : nat) (text : string)
         (skip : nat) : string :=
  match skip with
  | S skip' =>
      match text with
      | EmptyString => EmptyString
      | String c t => remove_all_from r (Some c) (S i) t skip'
      end
  | O =>
      match match_at r p i text with
      | Some m =>
          match text with
          | EmptyString => EmptyString
          | String c t =>
              if lastIndex m =? i
              then String c (remove_all_from r (Some c) (S i) t 0)
              else remove_all_from r (Some c) (S i) t (lastIndex m - i - 1)
          end
      | None =>
          match text with
          | EmptyString => EmptyString
          | String c t => String c (remove_all_from r (Some c) (S i) t 0)
          end
      end
  end.

Definition remove_all (r : regex) (text : string) : string :=
  remove_all_from r None 0 text 0.

End Regex.


(* ================================================================== *)
(** ** The structural extractor: [class VerilogParser] *)

Module VerilogParser.
Import JsString JsNumber Regex.

Definition ws : regex := Char is_space.
Definition wd : regex := Char is_word.
Definition dg : regex := Char is_digit.
Definition star : regex -> regex := Star true.
Definition lazy_star : regex -> regex := Star false.
Definition DQUOTE : ascii := ascii_of_nat 34.
Definition SQUOTE : ascii := ascii_of_nat 39.
Definition COMMA : ascii := ascii_of_nat 44.
Definition EQUALS : ascii := ascii_of_nat 61.
Definition not_char (c x : ascii) : bool := negb (Ascii.eqb x c).

Definition array_includes (l : list string) (x : string) : bool :=
  existsb (String.eqb x) l.

(** The fields the constructor sets on [this]. *)
Record VerilogParser : Type := {
  keywords : list string;
  operators : list string;
  systemTasks : list string
}.

Definition constructor : VerilogParser := {|
  keywords :=
    ["module"; "endmodule"; "input"; "output"; "inout"; "wire"; "reg";
     "always"; "initial"; "assign"; "begin"; "end"; "if"; "else";
     "case"; "endcase"; "for"; "while"; "generate"; "endgenerate";
     "function"; "endfunction"; "task"; "endtask"; "parameter";
     "localparam"; "genvar"; "integer"; "real"; "time"; "realtime"];
  operators :=
    ["&&"; "||"; "=="; "!="; "<="; ">="; "<"; ">"; "!"; "&"; "|"; "^"; "~";
     "+"; "-"; "*"; "/"; "%"; "<<"; ">>"; "?"; ":"; "="; "@"; "#"];
  systemTasks :=
    ["$display"; "$monitor"; "$write"; "$finish"; "$stop"; "$time";
     "$realtime"; "$dumpfile"; "$dumpvars"; "$random"; "$urandom"]
|}.

(** *** Comments and tokens *)

(** [/\/\/.*$/gm] *)
Definition lineCommentRegex : regex :=
  Seqs [Lit "//"; star (Char dot); Eol true].

(** [/\/\*[\s\S]*?\*\//g] *)
Definition blockCommentRegex : regex :=
  Seqs [Lit "/*"; lazy_star (Char any_char); Lit "*/"].

Definition removeComments (code : string) : string :=
  let code := remove_all lineCommentRegex code in
  let code := remove_all blockCommentRegex code in
  code.

Definition tokenRegex : regex :=
  Group 1 (Alts [
    Plus wd;
    Seq (Lit "$") (Plus wd);
    Seq (Lit "//") (star (Char dot));
    Seqs [Lit "/*"; lazy_star (Char any_char); Lit "*/"];
    Seqs [Chr DQUOTE; star (Char (not_char DQUOTE)); Chr DQUOTE];
    Seqs [Chr SQUOTE; star (Char (not_char SQUOTE)); Chr SQUOTE];
    Char (one_of "{}();,[]@#=<>!&|^~+-*/%?:");
    Seq (Plus dg) (Opt (Seq (Lit ".") (Plus dg)))
  ]).

Definition is_hex_or_underscore (c : ascii) : bool :=
  is_digit c || in_range 97 102 c || in_range 65 70 c || (code c =? 95).

Definition is_ident_start (c : ascii) : bool :=
  in_range 97 122 c || in_range 65 90 c || (code c =? 95).

Definition getTokenType (this : VerilogParser) (token : string) : string :=
  if array_includes (keywords this) token then "keyword"
  else if array_includes (operators this) token then "operator"
  else if array_includes (systemTasks this) token then "system_task"
  else if test (Seqs [Bol false; Plus dg; Eol false]) token then "number"
  else if test (Seqs [Bol false; Plus dg; Chr SQUOTE; Char (one_of "bhdoB");
                      Plus (Char is_hex_or_underscore); Eol false]) token
       then "number_literal"
  else if test (Seqs [Bol false; Chr DQUOTE; star (Char dot); Chr DQUOTE; Eol false]) token
       then "string"
  else if test (Seqs [Bol false; Char is_ident_start; star wd; Eol false]) token
       then "identifier"
  else if test (Seqs [Bol false; Char (one_of "{}();,[]"); Eol false]) token
       then "punctuation"
  else "unknown".

Record Token : Type := { token_value : string; token_type : string }.

Definition tokenize (this : VerilogParser) (code : string) : list Token :=
  let code := removeComments code in
  let tokens := map matched (exec_all tokenRegex code) in
  filter (fun t => 0 <? String.length (token_value t))
         (map (fun token => {| token_value := trim token;
                               token_type := getTokenType this (trim token) |})
              tokens).

(** *** Line numbers *)

Definition findLineNumber (code : string) (position : nat) : nat :=
  List.length (split LF (substring 0 position code)).

(** *** Modules *)

Record ModuleParameter : Type := {
  mparam_name : string;
  mparam_value : option string      (* [None] is [null] *)
}.

Record ModuleDecl : Type := {
  module_name : string;
  module_ports : list string;
  module_body : string;
  module_line_start : nat;
  module_line_end : nat;
  module_parameters : list ModuleParameter
}.

Definition parsePortList (portList : string) : list string :=
  if String.eqb portList EmptyString then []
  else filter (fun port => 0 <? String.length port)
              (map trim (split COMMA portList)).

(** The first [#( ... )] of the declaration; group 1 is the text between
    the parentheses. *)
Definition moduleParametersRegex : regex :=
  Seqs [Lit "#"; star ws; Lit "("; Group 1 (star (Char (none_of ")"))); Lit ")"].

Definition extractModuleParameters (moduleDeclaration : string) : list ModuleParameter :=
  match exec moduleParametersRegex moduleDeclaration with
  | None => []
  | Some paramMatch =>
      map (fun param =>
             let parts := map trim (split EQUALS param) in
             {| mparam_name := nth 0 parts EmptyString;
                mparam_value :=
                  match nth_error parts 1 with
                  | Some value => if String.eqb value EmptyString then None else Some value
                  | None => None
                  end |})
          (split COMMA (group_text 1 paramMatch))
  end.

(** [module NAME #(...) (PORTS) ; BODY endmodule]: groups 1, 2 and 3 are
    NAME, PORTS and BODY; the body is matched lazily. *)
Definition moduleRegex : regex :=
  Seqs [Lit "module"; Plus ws; Group 1 (Plus wd); star ws;
        Opt (Seqs [Lit "#"; star ws; Lit "("; star (Char (none_of ")")); Lit ")"]);
        star ws; Lit "("; Group 2 (star (Char (none_of ")"))); Lit ")";
        star ws; Lit ";"; Group 3 (lazy_star (Char any_char)); Lit "endmodule"].

Definition extractModules (code : string) : list ModuleDecl :=
  map (fun m =>
         {| module_name := group_text 1 m;
            module_ports := parsePortList (group_text 2 m);
            module_body := trim (group_text 3 m);
            module_line_start := findLineNumber code (index m);
            module_line_end := findLineNumber code (index m + String.length (matched m));
            module_parameters := extractModuleParameters (matched m) |})
      (exec_all moduleRegex code).

(** *** Ports and signals *)

Record Port : Type := {
  port_name : string;
  port_direction : string;
  port_width : float;
  port_msb : float;
  port_lsb : float;
  port_line : nat
}.

(** The optional range [[msb:lsb]], blanks allowed around the numbers:
    groups 2 and 3 are the two digit strings. *)
Definition rangeRegex : regex :=
  Opt (Seqs [Lit "["; star ws; Group 2 (Plus dg); star ws; Lit ":"; star ws;
             Group 3 (Plus dg); star ws; Lit "]"]).

(** A word followed by further words, each after a comma with optional
    blanks around it; the whole list is group 4. *)
Definition namesRegex : regex :=
  Group 4 (Seq (Plus wd) (star (Seqs [star ws; Lit ","; star ws; Plus wd]))).

(** [input], [output] or [inout] (group 1), optional blanks, the optional
    range, optional blanks, the list of names. No word boundary is asked
    for before the keyword. *)
Definition portRegex : regex :=
  Seqs [Group 1 (Alts [Lit "input"; Lit "output"; Lit "inout"]);
        star ws; rangeRegex; star ws; namesRegex].

(** [msb && lsb ? parseInt(msb) - parseInt(lsb) + 1 : 1]; a group that
    matched is a non-empty digit string, hence truthy. *)
Definition range_width (msb lsb : option string) : float :=
  match msb, lsb with
  | Some m, Some l => (parseInt m - parseInt l + 1)%float
  | _, _ => 1%float
  end.

Definition range_bound (b : option string) : float :=
  match b with
  | Some d => parseInt d
  | None => 0%float
  end.

Definition extractPorts (code : string) : list Port :=
  flat_map (fun m =>
              map (fun portName =>
                     {| port_name := trim portName;
                        port_direction := group_text 1 m;
                        port_width := range_width (group 2 m) (group 3 m);
                        port_msb := range_bound (group 2 m);
                        port_lsb := range_bound (group 3 m);
                        port_line := findLineNumber code (index m) |})
                  (split COMMA (group_text 4 m)))
           (exec_all portRegex code).

Record Signal : Type := {
  signal_name : string;
  signal_type : string;
  signal_width : float;
  signal_msb : float;
  signal_lsb : float;
  signal_line : nat
}.

(** [wire] or [reg] (group 1), then as for ports. *)
Definition signalRegex : regex :=
  Seqs [Group 1 (Alts [Lit "wire"; Lit "reg"]);
        star ws; rangeRegex; star ws; namesRegex].

Definition extractSignals (code : string) : list Signal :=
  flat_map (fun m =>
              map (fun signalName =>
                     {| signal_name := trim signalName;
                        signal_type := group_text 1 m;
                        signal_width := range_width (group 2 m) (group 3 m);
                        signal_msb := range_bound (group 2 m);
                        signal_lsb := range_bound (group 3 m);
                        signal_line := findLineNumber code (index m) |})
                  (split COMMA (group_text 4 m)))
           (exec_all signalRegex code).

(** *** Instances *)

Record Connection : Type := {
  connection_port : string;
  connection_signal : string
}.

Record Instance : Type := {
  instance_module_name : string;
  instance_name : string;
  instance_connections : list Connection;
  instance_line : nat
}.

(** A named connection [.PORT ( SIGNAL )]: groups 1 and 2. *)
Definition namedConnRegex : regex :=
  Seqs [Lit "."; Group 1 (Plus wd); star ws; Lit "(";
        Group 2 (star (Char (none_of ")"))); Lit ")"].

Definition parseConnections (connections : string) : list Connection :=
  map (fun m => {| connection_port := group_text 1 m;
                   connection_signal := trim (group_text 2 m) |})
      (exec_all namedConnRegex connections).

(** [MODULE #(...) NAME ( CONNECTIONS ) ;]: groups 1, 2 and 3 are MODULE,
    NAME and CONNECTIONS; the connections hold no semicolon. *)
Definition instanceRegex : regex :=
  Seqs [Group 1 (Plus wd); Plus ws;
        Opt (Seqs [Lit "#"; star ws; Lit "("; star (Char (none_of ")")); Lit ")"; star ws]);
        Group 2 (Plus wd); star ws; Lit "(";
        Group 3 (star (Char (none_of ";"))); Lit ")"; star ws; Lit ";"].

Definition extractInstances (this : VerilogParser) (code : string) : list Instance :=
  map (fun m =>
         {| instance_module_name := group_text 1 m;
            instance_name := group_text 2 m;
            instance_connections := parseConnections (group_text 3 m);
            instance_line := findLineNumber code (index m) |})
      (filter (fun m => negb (array_includes (keywords this) (group_text 1 m)))
              (exec_all instanceRegex code)).

(** *** Always blocks *)

Record AlwaysBlock : Type := {
  always_sensitivity_list : string;
  always_body : string;
  always_type : string;
  always_line : nat;
  always_signals_read : list string;
  always_signals_written : list string
}.

Definition classifyAlwaysBlock (sensitivity body : string) : string :=
  if includes sensitivity "posedge" || includes sensitivity "negedge" then
    "sequential"
  else if includes sensitivity "*" || includes sensitivity "or" then
    "combinational"
  else "unknown".

(** [[...new Set(signals)]]: the first occurrence of each element, in order. *)
Fixpoint unique_from (seen signals : list string) : list string :=
  match signals with
  | [] => []
  | x :: rest =>
      if array_includes seen x then unique_from seen rest
      else x :: unique_from (x :: seen) rest
  end.

Definition unique (signals : list string) : list string := unique_from [] signals.

(** [/=\s*([^;]+)/g] *)
Definition readRegex : regex :=
  Seqs [Lit "="; star ws; Group 1 (Plus (Char (none_of ";")))].

(** [/\b[a-zA-Z_]\w*\b/g] *)
Definition identifierRegex : regex :=
  Seqs [WordBoundary; Char is_ident_start; star wd; WordBoundary].

(** [/(\w+)\s*[<]?=/g] *)
Definition writeRegex : regex :=
  Seqs [Group 1 (Plus wd); star ws; Opt (Lit "<"); Lit "="].

Definition extractSignalsFromBlock (block operation : string) : list string :=
  let signals :=
    if String.eqb operation "read" then
      flat_map (fun m => map matched (exec_all identifierRegex (group_text 1 m)))
               (exec_all readRegex block)
    else if String.eqb operation "write" then
      map (group_text 1) (exec_all writeRegex block)
    else [] in
  unique signals.

(** [always @( SENSITIVITY ) BODY] where BODY is [begin ... end] up to the
    first [end], or else the text up to the first semicolon. *)
Definition alwaysRegex : regex :=
  Seqs [Lit "always"; star ws; Lit "@"; star ws; Lit "(";
        Group 1 (star (Char (none_of ")"))); Lit ")"; star ws;
        Group 2 (Alt (Seqs [Lit "begin"; star ws; lazy_star (Char any_char); Lit "end"])
                     (Seq (star (Char (none_of ";"))) (Lit ";")))].

Definition extractAlwaysBlocks (code : string) : list AlwaysBlock :=
  map (fun m =>
         let sensitivity := group_text 1 m in
         let body := group_text 2 m in
         {| always_sensitivity_list := trim sensitivity;
            always_body := trim body;
            always_type := classifyAlwaysBlock sensitivity body;
            always_line := findLineNumber code (index m);
            always_signals_read := extractSignalsFromBlock body "read";
            always_signals_written := extractSignalsFromBlock body "write" |})
      (exec_all alwaysRegex code).

(** *** Continuous assignments *)

Record Assignment : Type := {
  assign_lhs : string;
  assign_rhs : string;
  assign_line : nat;
  assign_complexity : float
}.

Definition calculateExpressionComplexity (expression : string) : float :=
  let operators := of_nat (count_matches (Char (one_of "&|^~+-*/%<>=!")) expression) in
  let parentheses := (of_nat (count_matches (Char (one_of "()")) expression) / 2)%float in
  let conditionals := of_nat (count_matches (Lit "?") expression) in
  (operators + parentheses + conditionals * 2)%float.

(** [/assign\s+([^=]+)\s*=\s*([^;]+)\s*;/g] *)
Definition assignRegex : regex :=
  Seqs [Lit "assign"; Plus ws; Group 1 (Plus (Char (none_of "="))); star ws;
        Lit "="; star ws; Group 2 (Plus (Char (none_of ";"))); star ws; Lit ";"].

Definition extractAssignments (code : string) : list Assignment :=
  map (fun m =>
         {| assign_lhs := trim (group_text 1 m);
            assign_rhs := trim (group_text 2 m);
            assign_line := findLineNumber code (index m);
            assign_complexity := calculateExpressionComplexity (group_text 2 m) |})
      (exec_all assignRegex code).

(** *** Parameters *)

Record ParameterDecl : Type := {
  param_name : string;
  param_type : string;
  param_value : string;
  param_line : nat
}.

(** [parameter] or [localparam] (group 1), blanks, an optional range, the
    name (group 2), [=], and the value up to a semicolon or comma (group 3). *)
Definition paramRegex : regex :=
  Seqs [Group 1 (Alt (Lit "parameter") (Lit "localparam")); Plus ws;
        Opt (Seqs [Lit "["; star ws; Plus dg; star ws; Lit ":"; star ws;
                   Plus dg; star ws; Lit "]"]);
        star ws; Group 2 (Plus wd); star ws; Lit "="; star ws;
        Group 3 (Plus (Char (none_of ";,")))].

Definition extractParameters (code : string) : list ParameterDecl :=
  map (fun m =>
         {| param_name := trim (group_text 2 m);
            param_type := group_text 1 m;
            param_value := trim (group_text 3 m);
            param_line := findLineNumber code (index m) |})
      (exec_all paramRegex code).

(** *** Statistics *)

Record Statistics : Type := {
  total_lines : nat;
  code_lines : Z;
  comment_lines : nat;
  blank_lines : nat;
  total_tokens : nat;
  token_distribution : list (string * nat);
  avg_line_length : float
}.

(** [counts[type] = (counts[type] || 0) + 1]; keys keep their insertion order. *)
Fixpoint bump (type : string) (counts : list (string * nat)) : list (string * nat) :=
  match counts with
  | [] => [(type, 1)]
  | (k, n) :: rest =>
      if String.eqb k type then (k, S n) :: rest else (k, n) :: bump type rest
  end.

Definition generateStatistics (lines : list string) (tokens : list Token) : Statistics :=
  let nonEmptyLines :=
    List.length (filter (fun line => 0 <? String.length (trim line)) lines) in
  let commentLines :=
    List.length (filter (fun line => startsWith (trim line) "//") lines) in
  let tokenCounts :=
    fold_left (fun counts token => bump (token_type token) counts) tokens [] in
  {| total_lines := List.length lines;
     code_lines := (Z.of_nat nonEmptyLines - Z.of_nat commentLines)%Z;
     comment_lines := commentLines;
     blank_lines := List.length lines - nonEmptyLines;
     total_tokens := List.length tokens;
     token_distribution := tokenCounts;
     avg_line_length :=
       let total := fold_left (fun sum line => sum + String.length line) lines 0 in
       (of_nat total / of_nat (List.length lines))%float |}.

(** *** Syntax findings *)

Record SyntaxError : Type := {
  error_type : string;
  error_line : option nat;        (* [None] is [null] *)
  error_message : string
}.

(** The running counts of [checkSyntax]. *)
Record Balance : Type := {
  parenCount : Z;
  bracketCount : Z;
  beginCount : Z
}.

Definition count_of (r : regex) (line : string) : Z := Z.of_nat (count_matches r line).

(** [/\bbegin\b/g] and [/\bend\b/g] *)
Definition beginRegex : regex := Seqs [WordBoundary; Lit "begin"; WordBoundary].
Definition endRegex : regex := Seqs [WordBoundary; Lit "end"; WordBoundary].

Definition count_delimiters (b : Balance) (line : string) : Balance :=
  {| parenCount := (parenCount b + count_of (Lit "(") line - count_of (Lit ")") line)%Z;
     bracketCount := (bracketCount b + count_of (Lit "[") line - count_of (Lit "]") line)%Z;
     beginCount := (beginCount b + count_of beginRegex line - count_of endRegex line)%Z |}.

(** [/^\s*(assign|wire|reg|input|output)/] *)
Definition statementRegex : regex :=
  Seqs [Bol false; star ws;
        Group 1 (Alts [Lit "assign"; Lit "wire"; Lit "reg"; Lit "input"; Lit "output"])].

Definition missing_semicolon (line : string) : bool :=
  test statementRegex line && negb (includes line ";") && negb (includes line "(").

(** [next] is [lines[index + 1]], [None] when there is no such line. *)
Definition incomplete_if (line : string) (next : option string) : bool :=
  includes line "if" && negb (includes line "begin") &&
  negb (match next with
        | Some l => startsWith (trim l) "begin"
        | None => false
        end) &&
  match next with
  | Some nextLine =>
      (0 <? String.length nextLine) && negb (includes nextLine "else") &&
      negb (endsWith (trim nextLine) ";")
  | None => false
  end.

Definition line_errors (lineNum : nat) (line : string) (next : option string)
  : list SyntaxError :=
  (if missing_semicolon line then
     [{| error_type := "missing_semicolon";
         error_line := Some lineNum;
         error_message := "Missing semicolon at end of statement" |}]
   else []) ++
  (if incomplete_if line next then
     [{| error_type := "incomplete_if";
         error_line := Some lineNum;
         error_message := "Incomplete if statement may infer latch" |}]
   else []).

(** The [forEach] over the lines: [index] is the 0-based index of the head. *)
Fixpoint check_lines (lines : list string) (index : nat) (b : Balance)
         (errors : list SyntaxError) : Balance * list SyntaxError :=
  match lines with
  | [] => (b, errors)
  | line :: rest =>
      let lineNum := index + 1 in
      check_lines rest (S index) (count_delimiters b line)
                  (errors ++ line_errors lineNum line (hd_error rest))
  end.

Definition imbalance (count : Z) : string :=
  ((if (0 <? count)%Z then "missing" else "extra") ++ " "
   ++ decimal (Z.abs_nat count))%string.

Definition balance_errors (b : Balance) : list SyntaxError :=
  (if negb (parenCount b =? 0)%Z then
     [{| error_type := "unbalanced_parentheses";
         error_line := None;
         error_message := ("Unbalanced parentheses: " ++ imbalance (parenCount b)
                           ++ " closing parentheses")%string |}]
   else []) ++
  (if negb (bracketCount b =? 0)%Z then
     [{| error_type := "unbalanced_brackets";
         error_line := None;
         error_message := ("Unbalanced brackets: " ++ imbalance (bracketCount b)
                           ++ " closing brackets")%string |}]
   else []) ++
  (if negb (beginCount b =? 0)%Z then
     [{| error_type := "unbalanced_begin_end";
         error_line := None;
         error_message := ("Unbalanced begin/end: " ++ imbalance (beginCount b)
                           ++ " end statements")%string |}]
   else []).

Definition checkSyntax (code : string) : list SyntaxError :=
  let lines := split LF code in
  let '(b, errors) := check_lines lines 0 {| parenCount := 0; bracketCount := 0; beginCount := 0 |} [] in
  errors ++ balance_errors b.

(** *** Complexity *)

Record Complexity : Type := {
  complexity_total : float;
  complexity_per_module : float;
  complexity_category : string
}.

Definition classifyComplexity (complexity : float) : string :=
  if (complexity <? 10)%float then "simple"
  else if (complexity <? 25)%float then "moderate"
  else if (complexity <? 50)%float then "complex"
  else "very_complex".

Definition keyword_count (word body : string) : float :=
  of_nat (count_matches (Seqs [WordBoundary; Lit word; WordBoundary]) body).

Definition calculateComplexity (code : string) : Complexity :=
  let modules := extractModules code in
  let alwaysBlocks := extractAlwaysBlocks code in
  let assignments := extractAssignments code in
  let totalComplexity := (0 + of_nat (List.length modules) * 2)%float in
  let totalComplexity :=
    fold_left (fun total block =>
                 (total + 3
                  + keyword_count "if" (always_body block) * 2
                  + keyword_count "case" (always_body block) * 3
                  + keyword_count "for" (always_body block) * 4)%float)
              alwaysBlocks totalComplexity in
  let totalComplexity :=
    fold_left (fun total assign => (total + assign_complexity assign)%float)
              assignments totalComplexity in
  {| complexity_total := totalComplexity;
     complexity_per_module :=
       if 0 <? List.length modules
       then (totalComplexity / of_nat (List.length modules))%float
       else 0%float;
     complexity_category := classifyComplexity totalComplexity |}.

(** *** The main function *)

Record ParsedDesign : Type := {
  modules : list ModuleDecl;
  ports : list Port;
  signals : list Signal;
  instances : list Instance;
  always_blocks : list AlwaysBlock;
  assignments : list Assignment;
  parameters : list ParameterDecl;
  statistics : Statistics;
  syntax_errors : list SyntaxError;
  complexity : Complexity
}.

(** What [parseVerilogCode] returns: [{success: true, ...}] from the [try]
    block, [{success: false, error, line}] from the [catch] block. *)
Inductive ParseResult : Type :=
| Parsed (design : ParsedDesign)
| ParseFailed (error : string) (line : option nat).

Definition success (r : ParseResult) : bool :=
  match r with
  | Parsed _ => true
  | ParseFailed _ _ => false
  end.

(** No operation of the [try] block raises on a string argument: a
    method is called on a group only where the group takes part in every
    match of its pattern, so the [catch] block is not entered. *)
Definition parseVerilogCode (this : VerilogParser) (verilogCode : string) : ParseResult :=
  let lines := split LF verilogCode in
  let tokens := tokenize this verilogCode in
  Parsed {| modules := extractModules verilogCode;
            ports := extractPorts verilogCode;
            signals := extractSignals verilogCode;
            instances := extractInstances this verilogCode;
            always_blocks := extractAlwaysBlocks verilogCode;
            assignments := extractAssignments verilogCode;
            parameters := extractParameters verilogCode;
            statistics := generateStatistics lines tokens;
            syntax_errors := checkSyntax verilogCode;
            complexity := calculateComplexity verilogCode |}.

(** *** Validation of one module *)

Record Validation : Type := {
  isValid : bool;
  errors : list string;
  warnings : list string
}.

(** [module NAME ( PORTS )], the port list up to the first closing
    parenthesis. *)
Definition moduleHeaderRegex : regex :=
  Seqs [Lit "module"; Plus ws; Plus wd; star ws; Lit "(";
        Group 1 (star (Char (none_of ")"))); Lit ")"].

Definition validateModule (moduleCode : string) : Validation :=
  let validation := {| isValid := true; errors := []; warnings := [] |} in
  (* Check for module declaration *)
  let validation :=
    if negb (includes moduleCode "module") then
      {| isValid := false;
         errors := errors validation ++ ["Missing module declaration"];
         warnings := warnings validation |}
    else validation in
  (* Check for endmodule *)
  let validation :=
    if negb (includes moduleCode "endmodule") then
      {| isValid := false;
         errors := errors validation ++ ["Missing endmodule statement"];
         warnings := warnings validation |}
    else validation in
  (* Check for port list *)
  let noPorts :=
    match exec moduleHeaderRegex moduleCode with
    | None => true
    | Some moduleMatch => String.length (trim (group_text 1 moduleMatch)) =? 0
    end in
  if noPorts then
    {| isValid := isValid validation;
       errors := errors validation;
       warnings := warnings validation ++ ["Module has no ports"] |}
  else validation.

End VerilogParser.


(* ================================================================== *)
(** ** JavaScript arrays *)

Module JsArray.

(** [l.slice(from, to)] for [0 <= from]. *)
Definition slice {A : Type} (l : list A) (from to : nat) : list A :=
  firstn (to - from) (skipn from l).

(** [l.some(p)] *)
Definition some {A : Type} (p : A -> bool) (l : list A) : bool := existsb p l.

(** [l.forEach((x, index) => ...)], the variables the callback assigns
    threaded as a state. *)
Fixpoint forEach_from {A St : Type} (f : St -> A -> nat -> St) (l : list A)
         (index : nat) (s : St) : St :=
  match l with
  | [] => s
  | x :: rest => forEach_from f rest (S index) (f s x index)
  end.

Definition forEach {A St : Type} (f : St -> A -> nat -> St) (l : list A) (s : St) : St :=
  forEach_from f l 0 s.

End JsArray.

(* ================================================================== *)
(** ** The rule checker: [class VerilogSynthesisLinter] *)

Module VerilogSynthesisLinter.
Import JsString JsNumber Regex JsArray.

Definition ws : regex := Char is_space.
Definition wd : regex := Char is_word.
Definition dg : regex := Char is_digit.
Definition star : regex -> regex := Star true.
Definition QUOTE : string := String (ascii_of_nat 34) EmptyString.

Record Issue : Type := {
  line : nat;
  severity : string;
  rule : string;
  message : string;
  suggestion : string
}.

(** *** checkClockDomainCrossing *)

(** [always @( ... negedge NAME ... )] anywhere in the line. *)
Definition asyncResetRegex : regex :=
  Seqs [Lit "always"; star ws; Lit "@"; star ws; Lit "("; star (Char dot);
        Lit "negedge"; Plus ws; Plus wd; star (Char dot); Lit ")"].

(** [/assign.*=.*\w+_clk\w*/] *)
Definition cdcRegex : regex :=
  Seqs [Lit "assign"; star (Char dot); Lit "="; star (Char dot);
        Plus wd; Lit "_clk"; star wd].

Definition checkClockDomainCrossing (lines : list string) : list Issue :=
  forEach (fun issues line index =>
    let issues :=
      if test asyncResetRegex line then
        let hasAsyncReset := includes line "negedge" in
        let hasSyncLogic :=
          some (fun l => includes l "posedge") (slice lines index (index + 10)) in
        if hasAsyncReset && negb hasSyncLogic then
          issues ++ [{| line := index + 1;
                        severity := "warning";
                        rule := "async_reset_sync_deassert";
                        message := "Consider synchronous deassertion for reset";
                        suggestion := "Use: always @(posedge clk or negedge rst_n)" |}]
        else issues
      else issues in
    if test cdcRegex line then
      issues ++ [{| line := index + 1;
                    severity := "warning";
                    rule := "potential_cdc";
                    message := "Potential clock domain crossing detected";
                    suggestion := "Use proper synchronizers for CDC signals" |}]
    else issues) lines [].

(** *** checkCombinationalLogic *)

(** [always @(] directly followed by a star, blanks allowed before the
    at-sign and the parenthesis. *)
Definition combAlwaysRegex : regex :=
  Seqs [Lit "always"; star ws; Lit "@"; star ws; Lit "("; Lit "*"].

(** [/assign\s+(\w+)\s*=/] *)
Definition assignLhsRegex : regex :=
  Seqs [Lit "assign"; Plus ws; Group 1 (Plus wd); star ws; Lit "="].

(** The variables of [checkCombinationalLogic]. *)
Record CombState : Type := {
  issues : list Issue;
  inAlwaysBlock : bool;
  hasElse : bool;
  hasDefault : bool
}.

Definition inferred_latch (index : nat) : Issue :=
  {| line := index + 1;
     severity := "error";
     rule := "inferred_latch";
     message := "Incomplete if/case statement may infer latch";
     suggestion := "Add else clause or default assignment" |}.

Definition combinational_loop (index : nat) (lhs : string) : Issue :=
  {| line := index + 1;
     severity := "error";
     rule := "combinational_loop";
     message := ("Potential combinational loop with signal " ++ lhs)%string;
     suggestion := "Break the feedback path or use registers" |}.

(** One turn of the [forEach] callback. *)
Definition comb_step (lines : list string) (st : CombState) (line : string)
           (index : nat) : CombState :=
  let trimmed := trim line in
  (* Track always blocks *)
  let st :=
    if test combAlwaysRegex trimmed then
      {| issues := issues st; inAlwaysBlock := true;
         hasElse := false; hasDefault := false |}
    else st in
  let st :=
    if String.eqb trimmed "end" && inAlwaysBlock st then
      let found :=
        if inAlwaysBlock st && negb (hasElse st) && negb (hasDefault st) then
          let blockLines := slice lines (Nat.max 0 (index - 20)) index in
          let hasIf := some (fun l => includes l "if") blockLines in
          let hasCase := some (fun l => includes l "case") blockLines in
          if hasIf || hasCase then [inferred_latch index] else []
        else [] in
      {| issues := issues st ++ found; inAlwaysBlock := false;
         hasElse := hasElse st; hasDefault := hasDefault st |}
    else st in
  (* Track else and default statements *)
  let st :=
    {| issues := issues st; inAlwaysBlock := inAlwaysBlock st;
       hasElse := if includes trimmed "else" then true else hasElse st;
       hasDefault := if includes trimmed "default" then true else hasDefault st |} in
  (* Check for combinational loops *)
  match exec assignLhsRegex trimmed with
  | Some assignMatch =>
      let lhs := group_text 1 assignMatch in
      if includes line lhs && negb (indexOf line lhs =? lastIndexOf line lhs)%Z then
        {| issues := issues st ++ [combinational_loop index lhs];
           inAlwaysBlock := inAlwaysBlock st;
           hasElse := hasElse st; hasDefault := hasDefault st |}
      else st
  | None => st
  end.

Definition comb_init : CombState :=
  {| issues := []; inAlwaysBlock := false; hasElse := false; hasDefault := false |}.

Definition checkCombinationalLogic (lines : list string) : list Issue :=
  issues (forEach (comb_step lines) lines comb_init).

(** *** checkCodingStyle *)

(** [/always\s*@\s*\(.*posedge|negedge/]: the alternation is outermost. *)
Definition seqAlwaysRegex : regex :=
  Alt (Seqs [Lit "always"; star ws; Lit "@"; star ws; Lit "("; star (Char dot);
             Lit "posedge"])
      (Lit "negedge").

(** [always @( )] with nothing but blanks between the parentheses. *)
Definition emptySensitivityRegex : regex :=
  Seqs [Lit "always"; star ws; Lit "@"; star ws; Lit "("; star ws; Lit ")"].

Record StyleState : Type := {
  style_issues : list Issue;
  inSequentialBlock : bool;
  inCombinationalBlock : bool
}.

Definition style_step (st : StyleState) (line : string) (index : nat) : StyleState :=
  let trimmed := trim line in
  (* Detect sequential vs combinational blocks *)
  let st :=
    if test seqAlwaysRegex trimmed then
      {| style_issues := style_issues st;
         inSequentialBlock := true; inCombinationalBlock := false |}
    else if test combAlwaysRegex trimmed then
      {| style_issues := style_issues st;
         inSequentialBlock := false; inCombinationalBlock := true |}
    else st in
  let st :=
    if String.eqb trimmed "end" then
      {| style_issues := style_issues st;
         inSequentialBlock := false; inCombinationalBlock := false |}
    else st in
  (* Check assignment types *)
  let found :=
    if includes trimmed "=" && negb (includes trimmed "assign") then
      let hasBlocking := includes trimmed " = " in
      let hasNonBlocking := includes trimmed " <= " in
      (if inSequentialBlock st && hasBlocking then
         [{| line := index + 1;
             severity := "warning";
             rule := "blocking_in_sequential";
             message := "Use non-blocking assignments (<=) in sequential logic";
             suggestion := "Change = to <= for sequential assignments" |}]
       else []) ++
      (if inCombinationalBlock st && hasNonBlocking then
         [{| line := index + 1;
             severity := "warning";
             rule := "nonblocking_in_combinational";
             message := "Use blocking assignments (=) in combinational logic";
             suggestion := "Change <= to = for combinational assignments" |}]
       else [])
    else [] in
  (* Check for missing sensitivity lists *)
  let found :=
    found ++
    (if test emptySensitivityRegex trimmed then
       [{| line := index + 1;
           severity := "error";
           rule := "empty_sensitivity";
           message := "Empty sensitivity list";
           suggestion := "Add appropriate signals to sensitivity list" |}]
     else []) in
  {| style_issues := style_issues st ++ found;
     inSequentialBlock := inSequentialBlock st;
     inCombinationalBlock := inCombinationalBlock st |}.

Definition checkCodingStyle (lines : list string) : list Issue :=
  style_issues
    (forEach style_step lines
             {| style_issues := []; inSequentialBlock := false;
                inCombinationalBlock := false |}).

(** *** checkResourceOptimization *)

(** [/case\s*\(\s*(\w+)\s*\)/] *)
Definition caseRegex : regex :=
  Seqs [Lit "case"; star ws; Lit "("; star ws; Group 1 (Plus wd); star ws; Lit ")"].

(** [/^\s*\d+\s*:/] *)
Definition caseItemRegex : regex :=
  Seqs [Bol false; star ws; Plus dg; star ws; Lit ":"].

(** [reg [N:N] NAME [N:N]], blanks allowed between the parts. *)
Definition memoryArrayRegex : regex :=
  let range := Seqs [Lit "["; Plus dg; Lit ":"; Plus dg; Lit "]"] in
  Seqs [Lit "reg"; star ws; range; star ws; Plus wd; star ws; range].

(** The counting loop over the lines after a [case], left at [endcase]. *)
Fixpoint count_case_items (window : list string) (caseCount : nat) : nat :=
  match window with
  | [] => caseCount
  | l :: rest =>
      if includes l "endcase" then caseCount
      else count_case_items rest (if test caseItemRegex l then S caseCount else caseCount)
  end.

Definition checkResourceOptimization (lines : list string) : list Issue :=
  forEach (fun issues line index =>
    let trimmed := trim line in
    (* Check for wide multiplexers *)
    let issues :=
      match exec caseRegex trimmed with
      | Some caseMatch =>
          let caseCount :=
            count_case_items
              (slice lines (index + 1) (Nat.min (List.length lines) (index + 50))) 0 in
          if 8 <? caseCount then
            issues ++ [{| line := index + 1;
                          severity := "info";
                          rule := "wide_mux";
                          message := ("Large multiplexer (" ++ decimal caseCount
                                      ++ " inputs) may impact timing")%string;
                          suggestion := "Consider pipeline stages or hierarchical muxing" |}]
          else issues
      | None => issues
      end in
    (* Check for DSP inference opportunities *)
    let issues :=
      if includes trimmed "*" && includes trimmed "+" then
        issues ++ [{| line := index + 1;
                      severity := "info";
                      rule := "dsp_inference";
                      message := "Potential DSP block inference opportunity";
                      suggestion := "Structure as: (A * B) + C for DSP inference" |}]
      else issues in
    (* Check for BRAM inference *)
    if test memoryArrayRegex trimmed then
      issues ++ [{| line := index + 1;
                    severity := "info";
                    rule := "bram_inference";
                    message := "Memory array detected - ensure BRAM inference";
                    suggestion := "Use synchronous read for BRAM inference" |}]
    else issues) lines [].

(** *** checkSynthesisAttributes *)

(** The attribute openers the code looks for: a parenthesis, a star, a
    blank and the attribute name. *)
Definition attribute (name : string) : string := ("(" ++ "* " ++ name)%string.

Definition checkSynthesisAttributes (lines : list string) : list Issue :=
  forEach (fun issues line index =>
    let trimmed := trim line in
    (* Check for missing timing constraints *)
    let issues :=
      if includes trimmed "input" && includes trimmed "clk" then
        let hasConstraint :=
          some (fun l => includes l (attribute "PERIOD") || includes l "create_clock")
               lines in
        if negb hasConstraint then
          issues ++ [{| line := index + 1;
                        severity := "warning";
                        rule := "missing_timing_constraint";
                        message := "Clock signal without timing constraint";
                        suggestion := ("Add " ++ attribute "PERIOD = " ++ QUOTE ++ "10ns"
                                       ++ QUOTE ++ " *" ++ ") attribute or SDC constraint")%string |}]
        else issues
      else issues in
    (* Check for synthesis attributes *)
    if includes trimmed "reg" && includes trimmed "[" then
      let hasKeepAttribute :=
        some (fun l => includes l (attribute "keep"))
             (slice lines (Nat.max 0 (index - 2)) (index + 1)) in
      if includes trimmed "debug" && negb hasKeepAttribute then
        issues ++ [{| line := index + 1;
                      severity := "info";
                      rule := "debug_signal";
                      message := "Debug signal may be optimized away";
                      suggestion := ("Add " ++ attribute "keep = " ++ QUOTE ++ "true"
                                     ++ QUOTE ++ " *" ++ ") attribute")%string |}]
      else issues
    else issues) lines [].

(** *** The main linting function *)

Record Summary : Type := {
  summary_total : nat;
  summary_errors : nat;
  summary_warnings : nat;
  summary_info : nat;
  summary_score : Z
}.

Definition count_severity (s : string) (l : list Issue) : nat :=
  List.length (filter (fun i => String.eqb (severity i) s) l).

Definition generateSummary (l : list Issue) : Summary :=
  let errors := count_severity "error" l in
  let warnings := count_severity "warning" l in
  let info := count_severity "info" l in
  {| summary_total := List.length l;
     summary_errors := errors;
     summary_warnings := warnings;
     summary_info := info;
     summary_score :=
       Z.max 0 (100 - (Z.of_nat errors * 10 + Z.of_nat warnings * 5 + Z.of_nat info * 1)) |}.

Record LintResult : Type := {
  lint_issues : list Issue;
  lint_summary : Summary
}.

(** The issues of the five checks, in the order the code runs them, and
    their summary. *)
Definition lintVerilogCode (verilogCode : string) : LintResult :=
  let lines := split LF verilogCode in
  let all :=
    checkClockDomainCrossing lines ++
    checkCombinationalLogic lines ++
    checkCodingStyle lines ++
    checkResourceOptimization lines ++
    checkSynthesisAttributes lines in
  {| lint_issues := all; lint_summary := generateSummary all |}.

(** *** The rule table the constructor sets on [this] *)

Record RuleInfo : Type := {
  rule_severity : string;
  rule_description : string
}.

Record VerilogSynthesisLinter : Type := {
  rules : list (string * list (string * RuleInfo))
}.

Definition constructor : VerilogSynthesisLinter := {|
  rules :=
    [("cdc_rules",
      [("async_reset_sync_deassert",
        {| rule_severity := "warning";
           rule_description := "Use synchronous deassertion for reset signals" |});
       ("missing_synchronizer",
        {| rule_severity := "error";
           rule_description := "Signals crossing clock domains need synchronizers" |})]);
     ("combinational_rules",
      [("inferred_latch",
        {| rule_severity := "error";
           rule_description := "Incomplete case/if statements create latches" |});
       ("combinational_loop",
        {| rule_severity := "error";
           rule_description := "Combinational feedback loops detected" |})]);
     ("style_rules",
      [("blocking_in_sequential",
        {| rule_severity := "warning";
           rule_description := "Use non-blocking assignments in sequential logic" |});
       ("nonblocking_in_combinational",
        {| rule_severity := "warning";
           rule_description := "Use blocking assignments in combinational logic" |})]);
     ("resource_rules",
      [("wide_mux",
        {| rule_severity := "info";
           rule_description := "Consider pipeline stages for wide multiplexers" |});
       ("dsp_inference",
        {| rule_severity := "info";
           rule_description := "Structure code to infer DSP blocks" |})])]
|}.

End VerilogSynthesisLinter.


(* ================================================================== *)
(** ** The estimation engine: [class FPGACalculations] *)

Module FPGACalculations.
Import JsString JsNumber.
Local Open Scope float_scope.

(** A method either returns or throws an [Error] with a message.
    [Rethrow prefix member] is the [Error] a [catch] block makes of a
    TypeError: its message is [prefix] followed by the host's message
    for the call of [member], which is no function. *)
Inductive result (A : Type) : Type :=
| Return (value : A)
| Throw (message : string)
| Rethrow (prefix member : string).
Arguments Return {A} value.
Arguments Throw {A} message.
Arguments Rethrow {A} prefix member.

(** The own entry of an object literal for a key: the first entry with
    that key, [None] when the literal has none. *)
Fixpoint lookup {A : Type} (table : list (string * A)) (key : string) : option A :=
  match table with
  | [] => None
  | (k, v) :: rest => if String.eqb k key then Some v else lookup rest key
  end.

(** The members an object literal inherits from [Object.prototype]. *)
Definition prototype_names : list string :=
  ["constructor"; "hasOwnProperty"; "isPrototypeOf"; "propertyIsEnumerable";
   "toLocaleString"; "toString"; "valueOf"; "__proto__";
   "__defineGetter__"; "__defineSetter__"; "__lookupGetter__"; "__lookupSetter__"].

(** What [table[key]] evaluates to: an own entry; or an inherited
    member, which is a function, or for [__proto__] the prototype: a
    truthy value that has none of the fields of an entry; or
    [undefined]. *)
Inductive member (A : Type) : Type :=
| Own (value : A)
| Inherited
| Undefined.
Arguments Own {A} value.
Arguments Inherited {A}.
Arguments Undefined {A}.

Definition get {A : Type} (table : list (string * A)) (key : string) : member A :=
  match lookup table key with
  | Some v => Own v
  | None => if existsb (String.eqb key) prototype_names then Inherited else Undefined
  end.

Record DeviceSpec : Type := {
  family : string;
  lut_delay : float;               (* ns *)
  ff_delay : float;                (* ns *)
  carry_delay : float;             (* ns per bit *)
  routing_delay_factor : float;
  power_base : float;              (* mW static *)
  power_per_lut : float;
  power_per_ff : float;
  max_frequency : float;           (* MHz *)
  temperature_factor : float;      (* per 10 degrees *)
  voltage_factor : float
}.

(** The fields of an inherited member read as [undefined], which
    arithmetic and [Math.pow], [Math.min] read as NaN. *)
Definition undefined_spec : DeviceSpec := {|
  family := EmptyString; lut_delay := nan; ff_delay := nan; carry_delay := nan;
  routing_delay_factor := nan; power_base := nan; power_per_lut := nan;
  power_per_ff := nan; max_frequency := nan; temperature_factor := nan;
  voltage_factor := nan
|}.

(** [const deviceSpec = table[device]; if (!deviceSpec) ...]: the value
    the code goes on with, [None] when it is falsy. *)
Definition truthy_spec (m : member DeviceSpec) : option DeviceSpec :=
  match m with
  | Own deviceSpec => Some deviceSpec
  | Inherited => Some undefined_spec
  | Undefined => None
  end.

(** A formula is called with one or two arguments; an argument that is
    not passed is [undefined], which arithmetic reads as NaN. The delay
    formulas read the global [Math.log2], which they are handed here. *)
Record DesignPattern : Type := {
  delay_formula : (float -> float) -> float -> float -> float;
  lut_usage : float -> float -> float;
  ff_usage : float -> float -> float;
  description : string
}.

Record FPGACalculations : Type := {
  deviceSpecs : list (string * DeviceSpec);
  designPatterns : list (string * list (string * DesignPattern))
}.

(** The fields of a [designConfig] object; [None] is a field that is
    absent (for [depth] and [logic_levels], absent or [null]). *)
Record Utilization : Type := {
  util_luts : option float;
  util_ffs : option float;
  util_ios : option float
}.

Record DesignConfig : Type := {
  device : option string;
  component : option string;
  architecture : option string;
  width : option float;
  depth : option float;
  logic_levels : option float;
  fanout : option float;
  temperature : option float;
  voltage : option float;
  speed_grade : option float;
  instances : option float;
  frequency : option float;
  toggle_rate : option float;
  utilization : option Utilization
}.

(** [const { field = dflt } = designConfig] *)
Definition default {A : Type} (field : option A) (dflt : A) : A :=
  match field with
  | Some v => v
  | None => dflt
  end.

(** [x || y] on Numbers, [x] possibly [null] or absent. *)
Definition or_else (x : option float) (y : float) : float :=
  match x with
  | Some v => if truthy v then v else y
  | None => y
  end.

Record CriticalPath : Type := {
  levels : float;
  cp_fanout : float;
  bottleneck : string
}.

Record Timing : Type := {
  logic_delay : float;
  routing_delay : float;
  total_delay : float;
  timing_max_frequency : float;
  setup_slack : float;
  hold_slack : float;
  critical_path : CriticalPath
}.

Record Resources : Type := {
  luts : float;
  ffs : float;
  brams : float;
  dsps : float;
  ios : float;
  total_equivalent_luts : float
}.

Record PowerBreakdown : Type := {
  logic_power : float;
  ff_power : float;
  clock_power : float;
  io_power : float
}.

Record Power : Type := {
  static_power : float;
  dynamic_power : float;
  total_power : float;
  breakdown : PowerBreakdown;
  efficiency : float;
  thermal_design_power : float
}.

(** [factors[speedGrade.toString()] || 1.0]: the keys are the decimal
    forms of -1, -2 and -3. *)
Definition getSpeedGradeFactor (speedGrade : float) : float :=
  if speedGrade =? -1 then 1.0
  else if speedGrade =? -2 then 0.85
  else if speedGrade =? -3 then 0.75
  else 1.0.

Definition constructor : FPGACalculations := {|
  deviceSpecs :=
    [("Artix-7",
      {| family := "Xilinx 7-Series"; lut_delay := 0.124; ff_delay := 0.058;
         carry_delay := 0.035; routing_delay_factor := 0.6; power_base := 150;
         power_per_lut := 0.05; power_per_ff := 0.02; max_frequency := 450;
         temperature_factor := 1.1; voltage_factor := 1.8 |});
     ("Kintex-7",
      {| family := "Xilinx 7-Series"; lut_delay := 0.112; ff_delay := 0.052;
         carry_delay := 0.032; routing_delay_factor := 0.55; power_base := 800;
         power_per_lut := 0.045; power_per_ff := 0.018; max_frequency := 500;
         temperature_factor := 1.1; voltage_factor := 1.8 |});
     ("Zynq-7020",
      {| family := "Xilinx Zynq"; lut_delay := 0.118; ff_delay := 0.055;
         carry_delay := 0.033; routing_delay_factor := 0.58; power_base := 400;
         power_per_lut := 0.048; power_per_ff := 0.019; max_frequency := 450;
         temperature_factor := 1.1; voltage_factor := 1.8 |});
     ("Cyclone-V",
      {| family := "Intel/Altera"; lut_delay := 0.134; ff_delay := 0.062;
         carry_delay := 0.038; routing_delay_factor := 0.65; power_base := 200;
         power_per_lut := 0.052; power_per_ff := 0.021; max_frequency := 400;
         temperature_factor := 1.12; voltage_factor := 1.9 |});
     ("Stratix-10",
      {| family := "Intel/Altera"; lut_delay := 0.089; ff_delay := 0.042;
         carry_delay := 0.025; routing_delay_factor := 0.45; power_base := 2000;
         power_per_lut := 0.035; power_per_ff := 0.015; max_frequency := 600;
         temperature_factor := 1.08; voltage_factor := 1.7 |})];
  designPatterns :=
    [("adder",
      [("ripple_carry",
        {| delay_formula := fun Math_log2 width _ => width * 0.125;
           lut_usage := fun width _ => width;
           ff_usage := fun width _ => width + 1;
           description := "Linear delay with bit width" |});
       ("carry_lookahead",
        {| delay_formula := fun Math_log2 width _ => Math_log2 width * 0.3 + 0.5;
           lut_usage := fun width _ => width * 1.5;
           ff_usage := fun width _ => width + 1;
           description := "Logarithmic delay, more LUTs" |});
       ("carry_select",
        {| delay_formula := fun Math_log2 width _ => Math_sqrt width * 0.4 + 0.8;
           lut_usage := fun width _ => width * 2.2;
           ff_usage := fun width _ => width + 1;
           description := "Square root delay scaling" |})]);
     ("multiplier",
      [("array",
        {| delay_formula := fun Math_log2 width _ => width * 0.2;
           lut_usage := fun width _ => width * width * 0.8;
           ff_usage := fun width _ => width * 2;
           description := "Linear delay, quadratic area" |});
       ("booth",
        {| delay_formula := fun Math_log2 width _ => width * 0.15 + 1.0;
           lut_usage := fun width _ => width * width * 0.6;
           ff_usage := fun width _ => width * 1.5;
           description := "Optimized for signed multiplication" |});
       ("wallace_tree",
        {| delay_formula := fun Math_log2 width _ => Math_log2 width * 1.2 + 2.5;
           lut_usage := fun width _ => width * width * 1.1;
           ff_usage := fun width _ => width * 2.5;
           description := "Fast but resource intensive" |})]);
     ("memory",
      [("distributed",
        {| delay_formula := fun Math_log2 depth width => 0.8 + Math_log2 depth * 0.1;
           lut_usage := fun depth width => depth * width / 32;
           ff_usage := fun depth width => 0;
           description := "Uses LUT RAM" |});
       ("block_ram",
        {| delay_formula := fun Math_log2 depth width => 2.5;
           lut_usage := fun depth width => Math_ceil (width / 8) * 2;
           ff_usage := fun depth width => width * 2;
           description := "Dedicated BRAM blocks" |})])]
|}.

(** *** Device capacities *)

Record Capacity : Type := {
  cap_luts : float;
  cap_ffs : float;
  cap_brams : float;
  cap_dsps : float
}.

(** The table [deviceCapacity] that [checkResourceFeasibility] and
    [findResourceBottleneck] each declare. *)
Definition deviceCapacity : list (string * Capacity) :=
  [("Artix-7", {| cap_luts := 20800; cap_ffs := 41600; cap_brams := 50; cap_dsps := 90 |});
   ("Kintex-7", {| cap_luts := 101440; cap_ffs := 202800; cap_brams := 445; cap_dsps := 240 |});
   ("Zynq-7020", {| cap_luts := 53200; cap_ffs := 106400; cap_brams := 140; cap_dsps := 220 |});
   ("Cyclone-V", {| cap_luts := 32070; cap_ffs := 32070; cap_brams := 557; cap_dsps := 87 |});
   ("Stratix-10",
    {| cap_luts := 933120; cap_ffs := 933120; cap_brams := 11721; cap_dsps := 5760 |})].

Definition undefined_capacity : Capacity :=
  {| cap_luts := nan; cap_ffs := nan; cap_brams := nan; cap_dsps := nan |}.

(** [const capacity = deviceCapacity[device]; if (!capacity) ...] *)
Definition truthy_capacity (m : member Capacity) : option Capacity :=
  match m with
  | Own capacity => Some capacity
  | Inherited => Some undefined_capacity
  | Undefined => None
  end.

Definition checkResourceFeasibility (resources : Resources) (device : string) : bool :=
  match truthy_capacity (get deviceCapacity device) with
  | None => false
  | Some capacity =>
      (luts resources <=? cap_luts capacity) &&
      (ffs resources <=? cap_ffs capacity) &&
      (brams resources <=? cap_brams capacity) &&
      (dsps resources <=? cap_dsps capacity)
  end.

(** [keys.reduce((a, b) => utilizations[a] > utilizations[b] ? a : b)],
    no initial value given: the first key starts the fold. *)
Definition reduce_keys (utilizations : list (string * float)) : string :=
  let value key := default (lookup utilizations key) nan in
  match map fst utilizations with
  | [] => EmptyString
  | first :: keys =>
      fold_left (fun a b => if value b <? value a then a else b) keys first
  end.

Definition findResourceBottleneck (resources : Resources) (device : string) : string :=
  match truthy_capacity (get deviceCapacity device) with
  | None => "unknown"
  | Some capacity =>
      let utilizations :=
        [("luts", luts resources / cap_luts capacity);
         ("ffs", ffs resources / cap_ffs capacity);
         ("brams", brams resources / cap_brams capacity);
         ("dsps", dsps resources / cap_dsps capacity)] in
      reduce_keys utilizations
  end.

(** [powerMW] in milliwatts. *)
Definition calculateCoolingRequirements (powerMW : float) : string :=
  if powerMW <? 1000 then "natural_convection"
  else if powerMW <? 5000 then "forced_air_cooling"
  else if powerMW <? 15000 then "heat_sink_fan"
  else "liquid_cooling".

Section Host.

(** [Math.log2] and [Math.pow] are the host's; ECMAScript fixes the result
    of [Math.pow] for an exponent that is NaN or zero and leaves the
    general case to the implementation. [inherited_has name key] tells
    whether the member [name] of [Object.prototype] has, on the host, a
    truthy property [key]. *)
Variable Math_log2 : float -> float.
Variable host_pow : float -> float -> float.
Variable inherited_has : string -> string -> bool.

Definition Math_pow (base exponent : float) : float :=
  if is_nan exponent then nan
  else if exponent =? 0 then 1
  else host_pow base exponent.

(** The entry of the pattern catalog for a component and an
    architecture, when both are own keys. *)
Definition find_pattern (this : FPGACalculations) (component architecture : string)
  : option DesignPattern :=
  match lookup (designPatterns this) component with
  | Some patterns => lookup patterns architecture
  | None => None
  end.

(** [this.designPatterns[component] && this.designPatterns[component][architecture]]:
    an entry of the catalog, a truthy value that is none, or a falsy
    value. *)
Definition get_pattern (this : FPGACalculations) (component architecture : string)
  : member DesignPattern :=
  match get (designPatterns this) component with
  | Own patterns => get patterns architecture
  | Inherited => if inherited_has component architecture then Inherited else Undefined
  | Undefined => Undefined
  end.

(** [component === 'memory' && depth] *)
Definition memory_with_depth (component : string) (depth : option float) : bool :=
  String.eqb component "memory" &&
  match depth with
  | Some d => truthy d
  | None => false
  end.

(** Calculate timing for a given design *)
Definition calculateTiming (this : FPGACalculations) (designConfig : DesignConfig)
  : result Timing :=
  let device := default (device designConfig) "Artix-7" in
  let component := default (component designConfig) "adder" in
  let architecture := default (architecture designConfig) "ripple_carry" in
  let width := default (width designConfig) 8 in
  let depth := depth designConfig in
  let logic_levels := logic_levels designConfig in
  let fanout := default (fanout designConfig) 4 in
  let temperature := default (temperature designConfig) 25 in
  let speed_grade := default (speed_grade designConfig) (-1) in
  match truthy_spec (get (deviceSpecs this) device) with
  | None =>
      Throw ("Timing calculation failed: " ++ ("Unsupported device: " ++ device))%string
  | Some deviceSpec =>
      (* Get pattern-specific delay *)
      match
        match get_pattern this component architecture with
        | Own pattern =>
            Some (if memory_with_depth component depth
                  then delay_formula pattern Math_log2 (default depth nan) width
                  else delay_formula pattern Math_log2 width nan)
        | Inherited => None      (* [pattern.delay_formula] is no function *)
        | Undefined =>
            (* Generic calculation based on logic levels *)
            let levels := or_else logic_levels (Math_ceil (Math_log2 width)) in
            Some (levels * lut_delay deviceSpec)
        end
      with
      | None => Rethrow "Timing calculation failed: " "pattern.delay_formula"
      | Some logicDelay =>
      (* Calculate routing delay *)
      let routingDelay := logicDelay * routing_delay_factor deviceSpec * Math_sqrt fanout in
      (* Apply environmental factors *)
      let tempFactor := Math_pow (temperature_factor deviceSpec) ((temperature - 25) / 10) in
      let speedFactor := getSpeedGradeFactor speed_grade in
      let totalDelay := (logicDelay + routingDelay) * tempFactor * speedFactor in
      let maxFrequency := Math_min (1000 / totalDelay) (max_frequency deviceSpec) in
      (* Calculate slack assuming 100MHz target *)
      let targetPeriod := 10.0 in
      let setupSlack := targetPeriod - totalDelay in
      let holdSlack := 0.5 in
      Return {| logic_delay := toFixed 3 logicDelay;
                routing_delay := toFixed 3 routingDelay;
                total_delay := toFixed 3 totalDelay;
                timing_max_frequency := toFixed 1 maxFrequency;
                setup_slack := toFixed 3 setupSlack;
                hold_slack := toFixed 3 holdSlack;
                critical_path :=
                  {| levels := or_else logic_levels (Math_ceil (Math_log2 width));
                     cp_fanout := fanout;
                     bottleneck := if routingDelay <? logicDelay then "logic" else "routing" |} |}
      end
  end.

(** Calculate resource utilization *)
Definition calculateResources (this : FPGACalculations) (designConfig : DesignConfig)
  : result Resources :=
  let component := default (component designConfig) "adder" in
  let architecture := default (architecture designConfig) "ripple_carry" in
  let width := default (width designConfig) 8 in
  let depth := depth designConfig in
  let instances := default (instances designConfig) 1 in
  match
    (* Get pattern-specific resource usage *)
    match get_pattern this component architecture with
    | Own pattern =>
        let '(lutUsage, ffUsage, bramUsage) :=
          if memory_with_depth component depth then
            let d := default depth nan in
            (lut_usage pattern d width, ff_usage pattern d width,
             if String.eqb architecture "block_ram"
             then Math_ceil ((d * width) / (512 * 36))    (* Typical BRAM size *)
             else 0)
          else (lut_usage pattern width nan, ff_usage pattern width nan, 0) in
        (* Special handling for multipliers and DSP usage *)
        Some (if String.eqb component "multiplier" && (8 <=? width)
              then (lutUsage * 0.3, ffUsage, bramUsage, Math_ceil (width / 18))
              else (lutUsage, ffUsage, bramUsage, 0))
    | Inherited => None      (* [pattern.lut_usage] is no function *)
    | Undefined =>
        (* Generic estimation *)
        Some (width * 2, width, 0, 0)
    end
  with
  | None => Rethrow "Resource calculation failed: " "pattern.lut_usage"
  | Some (lutUsage, ffUsage, bramUsage, dspUsage) =>
  (* Scale by number of instances *)
  let lutUsage := lutUsage * instances in
  let ffUsage := ffUsage * instances in
  let bramUsage := bramUsage * instances in
  let dspUsage := dspUsage * instances in
  (* Calculate I/O usage (simplified) *)
  let ioUsage := (width * 2) + 3 in
  Return {| luts := Math_ceil lutUsage;
            ffs := Math_ceil ffUsage;
            brams := Math_ceil bramUsage;
            dsps := Math_ceil dspUsage;
            ios := Math_ceil ioUsage;
            total_equivalent_luts :=
              Math_ceil (lutUsage + ffUsage * 0.5 + bramUsage * 10 + dspUsage * 5) |}
  end.

(** Calculate power consumption *)
Definition calculatePower (this : FPGACalculations) (designConfig : DesignConfig)
  : result Power :=
  let device := default (device designConfig) "Artix-7" in
  let frequency := default (frequency designConfig) 100 in
  let toggle_rate := default (toggle_rate designConfig) 0.25 in
  let voltage := default (voltage designConfig) 1.0 in
  let temperature := default (temperature designConfig) 25 in
  let utilization :=
    default (utilization designConfig)
            {| util_luts := None; util_ffs := None; util_ios := None |} in
  match truthy_spec (get (deviceSpecs this) device) with
  | None =>
      Throw ("Power calculation failed: " ++ ("Unsupported device: " ++ device))%string
  | Some deviceSpec =>
      let resources := or_else (util_luts utilization) 0 in
      let ffs := or_else (util_ffs utilization) 0 in
      (* Static power (leakage) *)
      let tempFactor := Math_pow (temperature_factor deviceSpec) ((temperature - 25) / 10) in
      let voltageFactor := Math_pow voltage (voltage_factor deviceSpec) in
      let staticPower := power_base deviceSpec * tempFactor * voltageFactor in
      (* Dynamic power *)
      let lutSwitchingPower := resources * power_per_lut deviceSpec * frequency * toggle_rate in
      let ffSwitchingPower := ffs * power_per_ff deviceSpec * frequency * toggle_rate in
      let clockPower := frequency * 0.1 in
      let ioPower := or_else (util_ios utilization) 0 * 0.5 in
      let dynamicPower := lutSwitchingPower + ffSwitchingPower + clockPower + ioPower in
      let totalPower := staticPower + dynamicPower in
      Return {| static_power := toFixed 2 staticPower;
                dynamic_power := toFixed 2 dynamicPower;
                total_power := toFixed 2 totalPower;
                breakdown :=
                  {| logic_power := toFixed 2 lutSwitchingPower;
                     ff_power := toFixed 2 ffSwitchingPower;
                     clock_power := toFixed 2 clockPower;
                     io_power := toFixed 2 ioPower |};
                efficiency := toFixed 2 (frequency / totalPower);
                thermal_design_power := toFixed 2 (totalPower * 1.3) |}
  end.

End Host.

End FPGACalculations.

(* ================================================================== *)
(** ** Vocabulary: strings and matcher states *)

Module StringDefs.
Import JsString Regex.

(** [pat] occurs in [s]. *)
Definition contains (s pat : string) : Prop :=
  exists before after, s = (before ++ pat ++ after)%string.

Fixpoint all_chars (p : ascii -> bool) (s : string) : bool :=
  match s with
  | EmptyString => true
  | String c t => p c && all_chars p t
  end.

Fixpoint count_char (c : ascii) (s : string) : nat :=
  match s with
  | EmptyString => 0
  | String d t => (if Ascii.eqb d c then 1 else 0) + count_char c t
  end.

(** The character before the position reached after reading [w]. *)
Fixpoint last_char (p : option ascii) (w : string) : option ascii :=
  match w with
  | EmptyString => p
  | String c t => last_char (Some c) t
  end.

Definition after (p : option ascii) (i : nat) (w t : string) (c : list (nat * string)) : mstate :=
  MState (last_char p w) (i + String.length w) t c.

(** The text after the position is empty or starts outside the class. *)
Definition stops (cls : ascii -> bool) (t : string) : bool :=
  match t with
  | EmptyString => true
  | String d _ => negb (cls d)
  end.

End StringDefs.


(* ================================================================== *)
(** ** Vocabulary: port declarations *)

Module PortFamily.
Import JsString Regex VerilogParser StringDefs.

Definition SEMI : ascii := ascii_of_nat 59.

(** One declaration of a port on a line of its own. *)
Record PortDecl : Type := {
  decl_output : bool;                       (* [output], else [input] *)
  decl_range : option (string * string);    (* the digits of msb and lsb *)
  decl_name : string
}.

Definition decl_direction (d : PortDecl) : string :=
  if decl_output d then "output" else "input".

Definition range_text (r : option (string * string)) : string :=
  match r with
  | Some (msb, lsb) => (" [" ++ msb ++ ":" ++ lsb ++ "]")%string
  | None => EmptyString
  end.

Definition decl_text (d : PortDecl) : string :=
  (decl_direction d ++ range_text (decl_range d) ++ " " ++ decl_name d)%string.

Definition numeral (s : string) : bool :=
  negb (String.eqb s EmptyString) && all_chars is_digit s.

Definition word (s : string) : bool :=
  negb (String.eqb s EmptyString) && all_chars is_word s.

Definition range_ok (r : option (string * string)) : bool :=
  match r with
  | Some (msb, lsb) => numeral msb && numeral lsb
  | None => true
  end.

Definition decl_groups (d : PortDecl) : list (nat * string) :=
  (4, decl_name d) ::
  match decl_range d with
  | Some (msb, lsb) => [(3, lsb); (2, msb)]
  | None => []
  end ++ [(1, decl_direction d)].

(** What may follow the name of a port: the end of the text, or a
    character that is no word character, no blank and no comma. *)
Definition ends_names (t : string) : bool :=
  match t with
  | EmptyString => true
  | String c _ => negb (is_word c) && negb (is_space c) && negb (Ascii.eqb "," c)
  end.

End PortFamily.


(* ================================================================== *)
(** ** Vocabulary: modules with one declaration per line *)

Module ModuleFamily.
Import JsString JsNumber Regex VerilogParser StringDefs PortFamily.

Definition port_keywords : list string := ["input"; "output"; "inout"].
Definition reserved_words : list string :=
  ["input"; "output"; "inout"; "if"; "begin"; "end"].

Definition free_of (words : list string) (s : string) : bool :=
  forallb (fun kw => negb (includes s kw)) words.

(** A word in which no reserved word occurs. *)
Definition identifier (s : string) : bool := word s && free_of reserved_words s.

Definition decl_ok (d : PortDecl) : bool :=
  identifier (decl_name d) && range_ok (decl_range d).

Fixpoint join_names (names : list string) : string :=
  match names with
  | [] => EmptyString
  | [n] => n
  | n :: rest => (n ++ ", " ++ join_names rest)%string
  end.

Definition header_text (name : string) (decls : list PortDecl) : string :=
  ("module " ++ name ++ "(" ++ join_names (map decl_name decls) ++ ");")%string.

Definition decl_line (d : PortDecl) : string :=
  (decl_text d ++ String SEMI (String LF EmptyString))%string.

Fixpoint decl_lines (decls : list PortDecl) : string :=
  match decls with
  | [] => EmptyString
  | d :: rest => (decl_line d ++ decl_lines rest)%string
  end.

(** A module in the Verilog-1995 style: the header with the port names,
    one declaration line per port, [endmodule]. *)
Definition module_text (name : string) (decls : list PortDecl) : string :=
  (header_text name decls ++ String LF (decl_lines decls ++ "endmodule"))%string.

Definition decl_width (d : PortDecl) : float :=
  match decl_range d with
  | Some (msb, lsb) => (parseInt msb - parseInt lsb + 1)%float
  | None => 1%float
  end.

Definition expected_port (line : nat) (d : PortDecl) : Port :=
  {| port_name := decl_name d;
     port_direction := decl_direction d;
     port_width := decl_width d;
     port_msb := match decl_range d with Some (msb, _) => parseInt msb | None => 0%float end;
     port_lsb := match decl_range d with Some (_, lsb) => parseInt lsb | None => 0%float end;
     port_line := line |}.

Fixpoint expected_ports (line : nat) (decls : list PortDecl) : list Port :=
  match decls with
  | [] => []
  | d :: rest => expected_port line d :: expected_ports (S line) rest
  end.

(** The matches of the declaration lines, the text [before] them given. *)
Fixpoint decl_matches (before : string) (decls : list PortDecl) : list MatchResult :=
  match decls with
  | [] => []
  | d :: rest =>
      Match (String.length before) (decl_text d) (decl_groups d)
            (String.length before + String.length (decl_text d))
      :: decl_matches (before ++ decl_line d) rest
  end.

Definition letters_only (words : list string) : bool :=
  forallb (fun kw => negb (String.eqb kw EmptyString) && all_chars is_word kw) words.

(** A line the syntax check passes over: it changes no count and raises
    no finding. *)
Definition quiet (line : string) : Prop :=
  (forall b, count_delimiters b line = b) /\
  (forall n next, line_errors n line next = []).

Definition inputs (decls : list PortDecl) : nat :=
  List.length (filter (fun d => negb (decl_output d)) decls).
Definition outputs (decls : list PortDecl) : nat :=
  List.length (filter decl_output decls).

Definition adder_decls : list PortDecl :=
  [ {| decl_output := false; decl_range := Some ("7", "0"); decl_name := "a" |};
    {| decl_output := false; decl_range := Some ("7", "0"); decl_name := "b" |};
    {| decl_output := false; decl_range := None; decl_name := "cin" |};
    {| decl_output := true; decl_range := Some ("8", "0"); decl_name := "sum" |} ].

Definition commented_port (name : string) : PortDecl :=
  {| decl_output := false; decl_range := None; decl_name := name |}.

End ModuleFamily.


(* ================================================================== *)
(** ** Vocabulary: syntax findings and sensitivity lists *)

Module ParserCases.
Import JsString Regex VerilogParser StringDefs PortFamily ModuleFamily.

(** Opening minus closing parentheses over the whole text. *)
Definition paren_balance (code : string) : Z :=
  (Z.of_nat (count_char "("%char code) - Z.of_nat (count_char ")"%char code))%Z.

Definition unbalanced_parentheses (n : Z) : SyntaxError :=
  {| error_type := "unbalanced_parentheses";
     error_line := None;
     error_message :=
       ("Unbalanced parentheses: " ++ (if (0 <? n)%Z then "missing" else "extra")
        ++ " " ++ decimal (Z.abs_nat n) ++ " closing parentheses")%string |}.

Fixpoint sum_lines (f : string -> Z) (lines : list string) : Z :=
  match lines with
  | [] => 0%Z
  | l :: rest => (f l + sum_lines f rest)%Z
  end.

(** A module whose header declares its ports, one per line. *)
Definition ansi_example : string :=
  ("module m(" ++ String LF
   ("  input clk," ++ String LF
   ("  output [7:0] q" ++ String LF
   (");" ++ String LF "endmodule"))))%string.

Definition missing_semicolon_at (n : nat) : SyntaxError :=
  {| error_type := "missing_semicolon";
     error_line := Some n;
     error_message := "Missing semicolon at end of statement" |}.

(** The three answers of [classifyAlwaysBlock], as the tests of the
    sensitivity list decide them. *)
Definition has_edge (sensitivity : string) : Prop :=
  contains sensitivity "posedge" \/ contains sensitivity "negedge".

Definition has_star_or_or (sensitivity : string) : Prop :=
  contains sensitivity "*" \/ contains sensitivity "or".






(** The ports returned for [ansi_example]. *)
Definition ansi_example_ports : list Port :=
  [{| port_name := "clk"; port_direction := "input"; port_width := 1%float;
      port_msb := 0%float; port_lsb := 0%float; port_line := 2 |};
   {| port_name := "output"; port_direction := "input"; port_width := 1%float;
      port_msb := 0%float; port_lsb := 0%float; port_line := 2 |}].

End ParserCases.


(* ================================================================== *)
(** ** Vocabulary: combinational blocks *)

Module LinterCases.
Import JsString Regex JsArray VerilogSynthesisLinter.

(** The findings of one rule. *)
Definition of_rule (name : string) (l : list Issue) : list Issue :=
  filter (fun i => String.eqb (rule i) name) l.

(** A line inside the block that neither closes it nor holds [else] or
    [default]. *)
Definition body_line (l : string) : bool :=
  negb (String.eqb (trim l) "end") &&
  negb (includes (trim l) "else") && negb (includes (trim l) "default").

Definition opens_block (l : string) : bool :=
  test combAlwaysRegex (trim l) && body_line l.

Definition closes_block (l : string) : bool := String.eqb (trim l) "end".

Definition NL : string := String LF EmptyString.

(** The block of the specification's example, and one with a nested
    [begin ... end]. *)
Definition latch_example : string :=
  ("always @(*) begin" ++ NL ++
   "  if (sel) out = a;" ++ NL ++
   "end")%string.

(** A sequential block, closed by [end], before the block of the
    example. *)
Definition sequential_then_latch : string :=
  ("always @(posedge clk) begin" ++ NL ++
   "  q <= d;" ++ NL ++
   "end" ++ NL ++ latch_example)%string.


End LinterCases.


(* ================================================================== *)
(** ** Case analysis on the rules of the linter *)

Module LinterTactics.
Import JsString Regex JsArray VerilogSynthesisLinter LinterCases.

(** Every branch of one step of the combinational check. *)
Ltac comb_cases :=
  repeat match goal with
         | |- context [match exec ?r ?s with _ => _ end] => destruct (exec r s)
         | |- context [if ?b then _ else _] => destruct b eqn:?
         end;
  cbn [issues inAlwaysBlock hasElse hasDefault].

(** Every branch of one step of a check that raises other rules only;
    [distribute] is the lemma that filters an appended list. *)
Ltac other_rule distribute :=
  repeat match goal with
         | |- context [match exec ?r ?s with _ => _ end] => destruct (exec r s)
         | |- context [if ?b then _ else _] => destruct b
         end;
  rewrite ?distribute; cbn [style_issues];
  repeat match goal with
         | H : of_rule _ _ = [] |- _ => rewrite H
         end; reflexivity.

End LinterTactics.


(* ================================================================== *)
(** ** Vocabulary: design configurations and the timing algorithm *)

Module EstimatorCases.
Import JsString JsNumber FPGACalculations.
Local Open Scope float_scope.

(** The object literal with the four fields the claims give and no other. *)
Definition design (device component architecture : option string)
           (width : option float) : DesignConfig :=
  {| device := device; component := component; architecture := architecture;
     width := width; depth := None; logic_levels := None; fanout := None;
     temperature := None; voltage := None; speed_grade := None;
     instances := None; frequency := None; toggle_rate := None;
     utilization := None |}.

Definition with_logic_levels (c : DesignConfig) (n : float) : DesignConfig :=
  {| device := device c; component := component c; architecture := architecture c;
     width := width c; depth := depth c; logic_levels := Some n; fanout := fanout c;
     temperature := temperature c; voltage := voltage c; speed_grade := speed_grade c;
     instances := instances c; frequency := frequency c; toggle_rate := toggle_rate c;
     utilization := utilization c |}.

(** The devices of the catalog. *)
Definition known_device (this : FPGACalculations) (name : string) : bool :=
  match lookup (deviceSpecs this) name with
  | Some _ => true
  | None => false
  end.

(** A name of a member of [Object.prototype]. *)
Definition inherited (name : string) : bool :=
  existsb (String.eqb name) prototype_names.

(** The pattern catalog has nothing for the pair, own or inherited. *)
Definition unlisted (this : FPGACalculations) (component architecture : string) : bool :=
  match lookup (designPatterns this) component with
  | Some patterns =>
      match lookup patterns architecture with
      | Some _ => false
      | None => negb (inherited architecture)
      end
  | None => negb (inherited component)
  end.

(** The component is in the catalog, and the architecture is no entry
    of its table but the name of an inherited member. *)
Definition inherited_architecture (this : FPGACalculations)
           (component architecture : string) : bool :=
  match lookup (designPatterns this) component with
  | Some patterns =>
      match lookup patterns architecture with
      | Some _ => false
      | None => inherited architecture
      end
  | None => false
  end.

Definition multiplier_architectures : list string := ["array"; "booth"; "wallace_tree"].

(** [ceil(n / 18)] on integers. *)
Definition ceil_div (n d : nat) : nat := (n + d - 1) / d.

(** For an integer width: the DSP count is [ceil(width / 18)], at least one,
    and the LUT count is below what the architecture's formula alone gives. *)
Definition multiplier_reduced (inherited_has : string -> string -> bool)
           (architecture : string) (n : nat) : bool :=
  match find_pattern constructor "multiplier" architecture,
        calculateResources inherited_has constructor
          (design None (Some "multiplier") (Some architecture) (Some (of_nat n))) with
  | Some pattern, Return r =>
      (dsps r =? of_nat (ceil_div n 18)) && (1 <=? dsps r) &&
      (luts r =? Math_ceil (lut_usage pattern (of_nat n) nan * 0.3)) &&
      (luts r <? Math_ceil (lut_usage pattern (of_nat n) nan))
  | _, _ => false
  end.

(** The timing algorithm in the words of the specification: the delays
    and the frequency that follow from a logic delay. *)
Section TimingFormula.
Variable host_pow : float -> float -> float.
Variable cfg : DesignConfig.
Variable deviceSpec : DeviceSpec.

Definition cfg_component : string := default (component cfg) "adder".
Definition cfg_architecture : string := default (architecture cfg) "ripple_carry".
Definition cfg_width : float := default (width cfg) 8.

Definition spec_routing_delay (logicDelay : float) : float :=
  logicDelay * routing_delay_factor deviceSpec * Math_sqrt (default (fanout cfg) 4).

Definition spec_temp_factor : float :=
  Math_pow host_pow (temperature_factor deviceSpec)
           ((default (temperature cfg) 25 - 25) / 10).

Definition spec_total_delay (logicDelay : float) : float :=
  (logicDelay + spec_routing_delay logicDelay) * spec_temp_factor
  * getSpeedGradeFactor (default (speed_grade cfg) (-1)).

Definition spec_max_frequency (logicDelay : float) : float :=
  Math_min (1000 / spec_total_delay logicDelay) (max_frequency deviceSpec).

(** The four fields of a result are the roundings of what follows from
    [logicDelay]. *)
Definition follows_from (logicDelay : float) (r : Timing) : Prop :=
  logic_delay r = toFixed 3 logicDelay /\
  routing_delay r = toFixed 3 (spec_routing_delay logicDelay) /\
  total_delay r = toFixed 3 (spec_total_delay logicDelay) /\
  timing_max_frequency r = toFixed 1 (spec_max_frequency logicDelay).

End TimingFormula.

(** The logic delay of a catalog profile, and of the generic fallback. *)
Definition profile_delay (Math_log2 : float -> float) (cfg : DesignConfig)
           (profile : DesignPattern) : float :=
  if memory_with_depth (cfg_component cfg) (depth cfg)
  then delay_formula profile Math_log2 (default (depth cfg) nan) (cfg_width cfg)
  else delay_formula profile Math_log2 (cfg_width cfg) nan.

Definition fallback_delay (Math_log2 : float -> float) (cfg : DesignConfig)
           (deviceSpec : DeviceSpec) : float :=
  or_else (logic_levels cfg) (Math_ceil (Math_log2 (cfg_width cfg))) * lut_delay deviceSpec.

End EstimatorCases.

(* ================================================================== *)
(** ** Vocabulary: findings by type, brackets *)

Module ParserInvariants.
Import JsString Regex VerilogParser StringDefs PortFamily ModuleFamily ParserCases.

(** Opening minus closing brackets over the whole text. *)
Definition bracket_balance (code : string) : Z :=
  (Z.of_nat (count_char "["%char code) - Z.of_nat (count_char "]"%char code))%Z.

Definition unbalanced_brackets (n : Z) : SyntaxError :=
  {| error_type := "unbalanced_brackets";
     error_line := None;
     error_message :=
       ("Unbalanced brackets: " ++ (if (0 <? n)%Z then "missing" else "extra")
        ++ " " ++ decimal (Z.abs_nat n) ++ " closing brackets")%string |}.

(** The findings of one type. *)
Definition of_type (name : string) (l : list SyntaxError) : list SyntaxError :=
  filter (fun e => String.eqb (error_type e) name) l.

Definition SLASH : ascii := "/"%char.

(** The declaration [input [0:7] data]. *)
Definition ascending_decl : PortDecl :=
  {| decl_output := false; decl_range := Some ("0", "7"); decl_name := "data" |}.

End ParserInvariants.


(* ================================================================== *)
(** ** Vocabulary: what a pattern can read *)

Module MatchRelation.
Import JsString Regex VerilogParser StringDefs.

(** [matches r s s']: the pattern [r] can read the text from the state
    [s] to the state [s'], capturing as the matcher does. *)
Inductive matches : regex -> mstate -> mstate -> Prop :=
| matches_Empty s : matches Empty s s
| matches_Char p s c t :
    rest s = String c t -> p c = true ->
    matches (Char p) s (MState (Some c) (S (pos s)) t (caps s))
| matches_Seq r1 r2 s s1 s2 :
    matches r1 s s1 -> matches r2 s1 s2 -> matches (Seq r1 r2) s s2
| matches_Alt_left r1 r2 s s' : matches r1 s s' -> matches (Alt r1 r2) s s'
| matches_Alt_right r1 r2 s s' : matches r2 s s' -> matches (Alt r1 r2) s s'
| matches_Star_stop g r s : matches (Star g r) s s
| matches_Star_again g r s s1 s2 :
    matches r s s1 -> matches (Star g r) s1 s2 -> matches (Star g r) s s2
| matches_Group n r s s' : matches r s s' -> matches (Group n r) s (capture n s s')
| matches_Bol m s : at_bol m s = true -> matches (Bol m) s s
| matches_Eol m s : at_eol m s = true -> matches (Eol m) s s
| matches_WordBoundary s : at_word_boundary s = true -> matches WordBoundary s s.

(** The capturing groups of a pattern. *)
Fixpoint groups_of (r : regex) : list nat :=
  match r with
  | Seq r1 r2 | Alt r1 r2 => groups_of r1 ++ groups_of r2
  | Star _ r1 => groups_of r1
  | Group n r1 => n :: groups_of r1
  | _ => []
  end.

(** The text read between two states of one match. *)
Definition consumed (s s' : mstate) : string :=
  substring 0 (pos s' - pos s) (rest s).

(** A text that the name list of a declaration pattern can read: a word,
    then words each after a comma with optional blanks around it. *)
Definition reads_names (names : string) : Prop :=
  exists s s',
    matches (Seq (Plus (Char is_word))
                 (Star true (Seqs [Star true (Char is_space); Lit ",";
                                   Star true (Char is_space); Plus (Char is_word)])))
            s s' /\
    names = consumed s s'.

Definition blanks (s : string) : bool := all_chars is_space s.

(** The text of the items that follow the first name: blanks, a comma,
    blanks, a word. *)
Fixpoint items_text (items : list (string * string * string)) : string :=
  match items with
  | [] => EmptyString
  | (before, after, name) :: rest =>
      (before ++ "," ++ after ++ name ++ items_text rest)%string
  end.

Definition item_ok (item : string * string * string) : bool :=
  let '(before, after, name) := item in
  blanks before && blanks after &&
  negb (String.eqb name EmptyString) && all_chars is_word name.

(** The pieces the name list falls into at its commas. *)
Fixpoint pieces (first : string) (items : list (string * string * string)) : list string :=
  match items with
  | [] => [first]
  | (before, after, name) :: rest => (first ++ before)%string :: pieces (after ++ name) rest
  end.



End MatchRelation.


(* ================================================================== *)
(** ** Vocabulary: well-formed issues *)

Module LinterInvariants.
Import JsString Regex JsArray VerilogSynthesisLinter.

(** The severities the summary counts. *)
Definition severities : list string := ["error"; "warning"; "info"].

(** The severity the constructor's table gives a rule, if it lists it. *)
Definition table_severity (this : VerilogSynthesisLinter) (name : string) : option string :=
  match find (fun entry => String.eqb (fst entry) name) (flat_map snd (rules this)) with
  | Some entry => Some (rule_severity (snd entry))
  | None => None
  end.

(** What holds of an issue raised on a text of [n] lines. *)
Definition well_formed (n : nat) (i : Issue) : Prop :=
  1 <= line i <= n /\
  In (severity i) severities /\
  rule i <> "missing_synchronizer" /\
  forall s, table_severity constructor (rule i) = Some s -> severity i = s.

(** A line that declares a timing constraint. *)
Definition has_constraint (l : string) : bool :=
  includes l (attribute "PERIOD") || includes l "create_clock".

End LinterInvariants.


(* ================================================================== *)
(** ** Case analysis on the issues of a check *)

Module LinterInvariantTactics.
Import JsString Regex JsArray VerilogSynthesisLinter LinterCases LinterInvariants.

(** An issue raised on the line of index [j], its rule and severity
    given in full, is well formed when [j] is an index of the text. *)
Ltac issue_ok :=
  match goal with
  | Hj : nth_error _ ?j = Some _ |- well_formed _ _ =>
      let Hlt := fresh in
      assert (Hlt : j < _) by (apply nth_error_Some; rewrite Hj; discriminate);
      unfold well_formed, inferred_latch, combinational_loop;
      cbn [line severity rule];
      split; [lia|];
      split; [unfold severities; simpl; auto|];
      split; [discriminate|];
      let sev := fresh "sev" in
      let Hsev := fresh "Hsev" in
      intros sev Hsev; vm_compute in Hsev;
      first [discriminate Hsev | injection Hsev as <-; reflexivity]
  end.

(** Every branch of one step of a check keeps the issues well formed. *)
Ltac issues_ok :=
  repeat match goal with
         | |- context [match exec ?r ?s with _ => _ end] => destruct (exec r s)
         | |- context [if ?b then _ else _] => destruct b
         end;
  cbn [issues inAlwaysBlock hasElse hasDefault
       style_issues inSequentialBlock inCombinationalBlock];
  repeat first [ assumption
               | apply Forall_app; split
               | apply Forall_nil
               | apply Forall_cons
               | issue_ok ].

End LinterInvariantTactics.


(* ================================================================== *)
(** ** Vocabulary: delays and capacities *)

Module EstimatorInvariants.
Import JsString JsNumber FPGACalculations EstimatorCases.
Local Open Scope float_scope.

(** The total delay of a ripple-carry adder of integer width [n], every
    other parameter at its default. *)
Definition ripple_carry_total (Math_log2 : float -> float)
           (host_pow : float -> float -> float)
           (inherited_has : string -> string -> bool) (device : string) (n : nat) : float :=
  match calculateTiming Math_log2 host_pow inherited_has constructor
          (design (Some device) (Some "adder") (Some "ripple_carry") (Some (of_nat n))) with
  | Return r => total_delay r
  | _ => nan
  end.

(** The names of the catalog, in its order. *)
Definition device_names : list string := map fst (deviceSpecs constructor).

(** A name that [table[name]] finds: an own key of the catalog or an
    inherited member. *)
Definition found_device (this : FPGACalculations) (name : string) : bool :=
  known_device this name || inherited name.

(** The four ratios [findResourceBottleneck] compares. *)
Definition lut_ratio (r : Resources) (c : Capacity) : float := luts r / cap_luts c.
Definition ff_ratio (r : Resources) (c : Capacity) : float := ffs r / cap_ffs c.
Definition bram_ratio (r : Resources) (c : Capacity) : float := brams r / cap_brams c.
Definition dsp_ratio (r : Resources) (c : Capacity) : float := dsps r / cap_dsps c.

End EstimatorInvariants.


(* ================================================================== *)
(** ** Strings *)

Module StringFacts.
Import JsString StringDefs.

Lemma append_nil_r (s : string) : (s ++ EmptyString)%string = s.
Proof. induction s as [|c s IH]; simpl; [reflexivity | now rewrite IH]. Qed.

Lemma append_assoc (a b c : string) : ((a ++ b) ++ c = a ++ (b ++ c))%string.
Proof. induction a as [|x a IH]; simpl; [reflexivity | now rewrite IH]. Qed.

Lemma length_append (a b : string) :
  String.length (a ++ b) = String.length a + String.length b.
Proof. induction a as [|x a IH]; simpl; [reflexivity | now rewrite IH]. Qed.

Lemma prefix_nil (s : string) : prefix EmptyString s = true.
Proof. now destruct s. Qed.

Lemma prefix_cons (c d : ascii) (pat s : string) :
  prefix (String c pat) (String d s) = Ascii.eqb c d && prefix pat s.
Proof.
  simpl. destruct (ascii_dec c d) as [->|H].
  - now rewrite Ascii.eqb_refl.
  - apply Ascii.eqb_neq in H. now rewrite H.
Qed.

Lemma prefix_cons_nil (c : ascii) (pat : string) : prefix (String c pat) EmptyString = false.
Proof. reflexivity. Qed.

Lemma prefix_append (pat s : string) :
  prefix pat s = true <-> exists after, s = (pat ++ after)%string.
Proof.
  revert s. induction pat as [|c pat IH]; intros s.
  - rewrite prefix_nil. split; [intros _; now exists s | reflexivity].
  - destruct s as [|d s].
    + split; [discriminate | intros [after H]; discriminate].
    + rewrite prefix_cons, andb_true_iff, Ascii.eqb_eq, IH. split.
      * intros [-> [after ->]]. now exists after.
      * intros [after H]. injection H as -> ->. split; [reflexivity | now exists after].
Qed.

Lemma includes_nil (pat : string) : includes EmptyString pat = prefix pat EmptyString.
Proof. unfold includes. now rewrite orb_false_r. Qed.

Lemma includes_cons (c : ascii) (s pat : string) :
  includes (String c s) pat = prefix pat (String c s) || includes s pat.
Proof. reflexivity. Qed.

Lemma includes_contains (s pat : string) : includes s pat = true <-> contains s pat.
Proof.
  induction s as [|c s IH].
  - rewrite includes_nil, prefix_append. split.
    + intros [after H]. now exists EmptyString, after.
    + intros [[|b before] [after H]]; [now exists after | discriminate].
  - rewrite includes_cons, orb_true_iff, IH, prefix_append. split.
    + intros [[after H] | [before [after H]]].
      * now exists EmptyString, after.
      * exists (String c before), after. simpl. now rewrite H.
    + intros [[|b before] [after H]].
      * left. now exists after.
      * right. exists before, after. simpl in H. congruence.
Qed.

(** A pattern cannot run across a character it does not hold. *)
Lemma prefix_app_sep (pat a b : string) (c : ascii) :
  count_char c pat = 0 -> pat <> EmptyString ->
  prefix pat (a ++ String c b) = prefix pat a.
Proof.
  revert a. induction pat as [|x pat IH]; intros a Hc Hne; [congruence|].
  simpl in Hc. destruct (Ascii.eqb x c) eqn:Hxc; [discriminate|]. simpl in Hc.
  destruct a as [|y a].
  - cbn [append]. rewrite prefix_cons, Hxc. reflexivity.
  - cbn [append]. rewrite !prefix_cons. destruct pat as [|z pat].
    + now rewrite !prefix_nil.
    + rewrite IH; [reflexivity | assumption | discriminate].
Qed.

Lemma includes_app_sep (pat a b : string) (c : ascii) :
  count_char c pat = 0 -> pat <> EmptyString ->
  includes (a ++ String c b) pat = includes a pat || includes b pat.
Proof.
  intros Hc Hne. induction a as [|y a IH].
  - cbn [append]. rewrite includes_cons, includes_nil.
    pose proof (prefix_app_sep pat EmptyString b c Hc Hne) as H.
    cbn [append] in H. now rewrite H.
  - cbn [append]. rewrite !includes_cons, IH.
    change (String y (a ++ String c b)) with ((String y a) ++ String c b)%string.
    rewrite prefix_app_sep by assumption. now rewrite orb_assoc.
Qed.

Lemma includes_prefix_false (s pat : string) :
  includes s pat = false -> prefix pat s = false.
Proof. destruct s; [rewrite includes_nil | rewrite includes_cons, orb_false_iff]; tauto. Qed.

End StringFacts.


(* ================================================================== *)
(** ** The matcher on literals and character classes *)

Module RegexFacts.
Import JsString Regex StringDefs StringFacts.

Lemma run_Char_ok cls k p i c t caps :
  cls c = true ->
  run (Char cls) k (MState p i (String c t) caps) = k (MState (Some c) (S i) t caps).
Proof. intros H. cbn. now rewrite H. Qed.

Lemma run_Char_stops cls k p i t caps :
  stops cls t = true -> run (Char cls) k (MState p i t caps) = None.
Proof.
  destruct t as [|d t]; cbn; [reflexivity|].
  intros H. apply negb_true_iff in H. now rewrite H.
Qed.

Lemma run_Lit_ok w k p i t caps :
  run (Lit w) k (MState p i (w ++ t) caps) = k (after p i w t caps).
Proof.
  revert p i. induction w as [|c w IH]; intros p i.
  - unfold after. cbn [Lit run append last_char String.length].
    rewrite Nat.add_0_r. reflexivity.
  - destruct w as [|d w].
    + unfold after. cbn [Lit append last_char String.length]. unfold Chr.
      rewrite run_Char_ok by apply Ascii.eqb_refl.
      replace (i + 1) with (S i) by lia. reflexivity.
    + change (Lit (String c (String d w))) with (Seq (Chr c) (Lit (String d w))).
      cbn [run]. unfold Chr. cbn [append].
      rewrite run_Char_ok by apply Ascii.eqb_refl.
      rewrite IH. unfold after. cbn [last_char String.length].
      f_equal. f_equal. lia.
Qed.

Lemma run_Lit_fail w k s :
  prefix w (rest s) = false -> run (Lit w) k s = None.
Proof.
  destruct s as [p i t caps]. cbn [rest]. revert p i t.
  induction w as [|c w IH]; intros p i t H.
  - now rewrite prefix_nil in H.
  - destruct t as [|d t].
    + destruct w; reflexivity.
    + rewrite prefix_cons in H.
      destruct (Ascii.eqb c d) eqn:Hcd.
      * apply Ascii.eqb_eq in Hcd. subst d. cbn [andb] in H.
        destruct w as [|e w]; [now rewrite prefix_nil in H|].
        change (Lit (String c (String e w))) with (Seq (Chr c) (Lit (String e w))).
        cbn [run]. unfold Chr. rewrite run_Char_ok by apply Ascii.eqb_refl.
        now apply IH.
      * destruct w as [|e w]; cbn; now rewrite Hcd.
Qed.

Lemma run_Star_eq g r k s :
  run (Star g r) k s = star_loop g (run r) k (S (String.length (rest s))) s.
Proof. reflexivity. Qed.

Lemma star_loop_class cls k res fuel p i w t caps :
  all_chars cls w = true -> stops cls t = true ->
  String.length w < fuel ->
  k (after p i w t caps) = Some res ->
  star_loop true (run (Char cls)) k fuel (MState p i (w ++ t) caps) = Some res.
Proof.
  revert fuel p i. induction w as [|c w IH]; intros fuel p i Hw Ht Hf Hk.
  - unfold after in Hk. cbn in Hk. rewrite Nat.add_0_r in Hk.
    destruct fuel as [|fuel]; [lia|].
    cbn [star_loop append]. now rewrite run_Char_stops, Hk.
  - cbn in Hw. apply andb_true_iff in Hw as [Hc Hw].
    destruct fuel as [|fuel]; [cbn in Hf; lia|].
    cbn [star_loop append]. rewrite run_Char_ok by assumption. cbn [pos].
    replace (i <? S i) with true by (symmetry; apply Nat.ltb_lt; lia).
    rewrite (IH fuel (Some c) (S i)); try assumption; [reflexivity | cbn in Hf; lia |].
    rewrite <- Hk. unfold after. cbn [last_char String.length].
    f_equal. f_equal. lia.
Qed.

(** A greedy [cls*] reads the whole run of class characters when what
    follows then succeeds. *)
Lemma run_star_class cls k res p i w t caps :
  all_chars cls w = true -> stops cls t = true ->
  k (after p i w t caps) = Some res ->
  run (Star true (Char cls)) k (MState p i (w ++ t) caps) = Some res.
Proof.
  intros Hw Ht Hk. rewrite run_Star_eq. cbn [rest].
  apply star_loop_class; try assumption.
  rewrite length_append. lia.
Qed.

Lemma run_star_class_none cls k p i t caps :
  stops cls t = true ->
  run (Star true (Char cls)) k (MState p i t caps) = k (MState p i t caps).
Proof.
  intros Ht. rewrite run_Star_eq. cbn [star_loop rest].
  rewrite run_Char_stops by assumption. now destruct (k _).
Qed.

Lemma run_plus_class cls k res p i c w t caps :
  cls c = true -> all_chars cls w = true -> stops cls t = true ->
  k (after p i (String c w) t caps) = Some res ->
  run (Plus (Char cls)) k (MState p i (String c w ++ t) caps) = Some res.
Proof.
  intros Hc Hw Ht Hk. unfold Plus. cbn [run append].
  change (run (Char cls) (run (Star true (Char cls)) k) (MState p i (String c (w ++ t)) caps) = Some res).
  rewrite run_Char_ok by assumption.
  apply run_star_class; try assumption.
  rewrite <- Hk. unfold after. cbn [last_char String.length].
  f_equal. f_equal. lia.
Qed.

End RegexFacts.


(* ================================================================== *)
(** ** The port pattern *)

Module PortFacts.
Import JsString Regex VerilogParser StringDefs StringFacts RegexFacts PortFamily.

Lemma class_disjoint (p : ascii -> bool) (c d : ascii) :
  p c = true -> p d = false -> Ascii.eqb d c = false.
Proof.
  intros Hc Hd. destruct (Ascii.eqb_spec d c) as [->|]; [congruence | reflexivity].
Qed.

Lemma is_word_not_space (c : ascii) : is_word c = true -> is_space c = false.
Proof.
  destruct c as [[] [] [] [] [] [] [] []]; vm_compute; intros H;
    first [reflexivity | discriminate H].
Qed.

Lemma is_digit_is_word (c : ascii) : is_digit c = true -> is_word c = true.
Proof.
  unfold is_word. intros ->. now rewrite orb_true_r.
Qed.

Lemma substring_append (w t : string) : substring 0 (String.length w) (w ++ t) = w.
Proof. induction w as [|c w IH]; cbn; [now destruct t | now rewrite IH]. Qed.

Lemma word_cons (s : string) :
  word s = true -> exists c w, s = String c w /\ is_word c = true /\ all_chars is_word w = true.
Proof.
  unfold word. destruct s as [|c w]; [discriminate|]. cbn.
  intros H. apply andb_true_iff in H. now exists c, w.
Qed.

Lemma numeral_cons (s : string) :
  numeral s = true -> exists c w, s = String c w /\ is_digit c = true /\ all_chars is_digit w = true.
Proof.
  unfold numeral. destruct s as [|c w]; [discriminate|]. cbn.
  intros H. apply andb_true_iff in H. now exists c, w.
Qed.

Lemma run_Group_eq n r k s :
  run (Group n r) k s = run r (fun s' => k (capture n s s')) s.
Proof. reflexivity. Qed.

Lemma run_Seq_eq r1 r2 k s : run (Seq r1 r2) k s = run r1 (run r2 k) s.
Proof. reflexivity. Qed.

Lemma run_Alt_eq r1 r2 k s :
  run (Alt r1 r2) k s = match run r1 k s with Some x => Some x | None => run r2 k s end.
Proof. reflexivity. Qed.

Lemma capture_after n p i w t caps :
  capture n (MState p i (w ++ t) caps) (after p i w t caps) =
  MState (last_char p w) (i + String.length w) t ((n, w) :: caps).
Proof.
  unfold capture, after. cbn [prev pos rest Regex.caps].
  replace (i + String.length w - i) with (String.length w) by lia.
  now rewrite substring_append.
Qed.

(** A group around a run of class characters. *)
Lemma run_group_plus n cls k res p i w t caps :
  negb (String.eqb w EmptyString) && all_chars cls w = true -> stops cls t = true ->
  k (MState (last_char p w) (i + String.length w) t ((n, w) :: caps)) = Some res ->
  run (Group n (Plus (Char cls))) k (MState p i (w ++ t) caps) = Some res.
Proof.
  intros Hw Ht Hk. destruct w as [|c w]; [discriminate|].
  cbn in Hw. apply andb_true_iff in Hw as [Hc Hw].
  rewrite run_Group_eq. apply run_plus_class; try assumption.
  now rewrite capture_after.
Qed.

Lemma run_star_fails r k s :
  (forall k', run r k' s = None) -> run (Star true r) k s = k s.
Proof.
  intros H. rewrite run_Star_eq. cbn [star_loop]. rewrite H. now destruct (k s).
Qed.

Lemma alt_left r1 r2 k s res :
  run r1 k s = Some res -> run (Alt r1 r2) k s = Some res.
Proof. intros H. rewrite run_Alt_eq. now rewrite H. Qed.

Lemma alt_right r1 r2 k s res :
  run r1 k s = None -> run r2 k s = Some res -> run (Alt r1 r2) k s = Some res.
Proof. intros H1 H2. rewrite run_Alt_eq. now rewrite H1. Qed.

Lemma lit_step w k p i t caps res :
  k (after p i w t caps) = Some res ->
  run (Lit w) k (MState p i (w ++ t) caps) = Some res.
Proof. intros H. now rewrite run_Lit_ok. Qed.

Lemma group_lit_step n w k p i t caps res :
  k (MState (last_char p w) (i + String.length w) t ((n, w) :: caps)) = Some res ->
  run (Group n (Lit w)) k (MState p i (w ++ t) caps) = Some res.
Proof.
  intros H. rewrite run_Group_eq. apply lit_step. now rewrite capture_after.
Qed.

Lemma star_skip cls k p i t caps res :
  stops cls t = true -> k (MState p i t caps) = Some res ->
  run (Star true (Char cls)) k (MState p i t caps) = Some res.
Proof. intros Ht H. now rewrite run_star_class_none. Qed.

Lemma stops_word_space c w t :
  is_word c = true -> stops is_space (String c w ++ t) = true.
Proof. intros H. cbn. now rewrite is_word_not_space. Qed.

Lemma ends_names_stops t :
  ends_names t = true ->
  stops is_word t = true /\ stops is_space t = true /\ prefix "," t = false.
Proof.
  destruct t as [|c t]; [now cbn|]. cbn [ends_names stops].
  rewrite !andb_true_iff, !negb_true_iff. intros [[H1 H2] H3].
  rewrite prefix_cons, H3. now rewrite H1, H2.
Qed.

(** The list of names of a declaration that holds one name: the word, and
    no further name when what follows ends the list. *)
Lemma names_step k p i name t caps res :
  word name = true -> ends_names t = true ->
  k (MState (last_char p name) (i + String.length name) t
            ((4, name) :: caps)) = Some res ->
  run namesRegex k (MState p i (name ++ t) caps) = Some res.
Proof.
  intros Hw Ht Hk. destruct (ends_names_stops _ Ht) as (Hs1 & Hs2 & Hs3).
  unfold namesRegex. rewrite run_Group_eq, run_Seq_eq.
  destruct (word_cons _ Hw) as (c & w & -> & Hc & Hall).
  apply run_plus_class; try assumption.
  rewrite run_star_fails.
  - now rewrite capture_after.
  - intros k'. unfold after. cbn [Seqs]. rewrite run_Seq_eq.
    unfold star, ws. rewrite run_star_class_none by assumption.
    rewrite run_Seq_eq. now apply run_Lit_fail.
Qed.

(** The range, when it is written. *)
Lemma range_step k p i msb lsb t caps res :
  numeral msb = true -> numeral lsb = true ->
  k (MState (Some "]"%char) (i + (String.length msb + String.length lsb + 3)) t
            ((3, lsb) :: (2, msb) :: caps)) = Some res ->
  run rangeRegex k (MState p i ("[" ++ msb ++ ":" ++ lsb ++ "]" ++ t) caps) = Some res.
Proof.
  intros Hm Hl Hk. unfold rangeRegex, Opt. apply alt_left. cbn [Seqs].
  rewrite run_Seq_eq. apply lit_step. unfold after. cbn [last_char String.length].
  destruct (numeral_cons _ Hm) as (cm & wm & Em & Hcm & Hwm).
  destruct (numeral_cons _ Hl) as (cl & wl & El & Hcl & Hwl).
  rewrite run_Seq_eq. apply star_skip.
  { subst msb. apply stops_word_space. now apply is_digit_is_word. }
  rewrite run_Seq_eq. apply run_group_plus; [exact Hm | reflexivity|].
  rewrite run_Seq_eq. apply star_skip; [reflexivity|].
  rewrite run_Seq_eq. apply lit_step. unfold after. cbn [last_char String.length].
  rewrite run_Seq_eq. apply star_skip.
  { subst lsb. apply stops_word_space. now apply is_digit_is_word. }
  rewrite run_Seq_eq. apply run_group_plus; [exact Hl | reflexivity|].
  rewrite run_Seq_eq. apply star_skip; [reflexivity|].
  apply lit_step. unfold after. cbn [last_char String.length].
  rewrite <- Hk. f_equal. f_equal. lia.
Qed.

(** The range, when there is none and a name follows. *)
Lemma no_range_step k p i c w t caps res :
  is_word c = true ->
  k (MState p i (String c w ++ t) caps) = Some res ->
  run rangeRegex k (MState p i (String c w ++ t) caps) = Some res.
Proof.
  intros Hc Hk. unfold rangeRegex, Opt. apply alt_right; [|exact Hk].
  cbn [Seqs]. rewrite run_Seq_eq. apply run_Lit_fail.
  cbn [rest append]. rewrite prefix_cons.
  now rewrite (class_disjoint is_word c "["%char Hc eq_refl).
Qed.

Lemma direction_step k p i (output : bool) t res :
  k (MState (last_char p (if output then "output" else "input"))
            (i + String.length (if output then "output" else "input")) t
            [(1, if output then "output" else "input")]) = Some res ->
  run (Group 1 (Alts [Lit "input"; Lit "output"; Lit "inout"])) k
      (MState p i ((if output then "output" else "input") ++ t) []) = Some res.
Proof.
  intros Hk. rewrite run_Group_eq. cbn [Alts]. destruct output.
  - apply alt_right; [now apply run_Lit_fail|]. apply alt_left.
    apply lit_step. now rewrite capture_after.
  - apply alt_left. apply lit_step. now rewrite capture_after.
Qed.

Lemma port_run d p i t :
  word (decl_name d) = true -> range_ok (decl_range d) = true ->
  ends_names t = true ->
  exists s',
    run portRegex (fun s => Some s) (MState p i (decl_text d ++ t) []) = Some s' /\
    pos s' = i + String.length (decl_text d) /\
    caps s' = decl_groups d.
Proof.
  destruct d as [output range name]. unfold decl_text, decl_groups, decl_direction.
  cbn [decl_output decl_range decl_name]. intros Hname Hrange Ht.
  destruct (word_cons _ Hname) as (c & w & Ename & Hc & Hw).
  rewrite !append_assoc.
  destruct range as [[msb lsb]|]; cbn [range_text].
  - cbn in Hrange. apply andb_true_iff in Hrange as [Hm Hl].
    rewrite !append_assoc. eexists. split; [|split].
    + unfold portRegex. cbn [Seqs]. rewrite run_Seq_eq. apply direction_step.
      rewrite run_Seq_eq. unfold star, ws.
      change (" [" ++ msb ++ ":" ++ lsb ++ "]" ++ " " ++ name ++ t)%string
        with (" " ++ ("[" ++ msb ++ ":" ++ lsb ++ "]" ++ " " ++ name ++ t))%string.
      apply run_star_class; [reflexivity | reflexivity|]. unfold after.
      rewrite run_Seq_eq. apply range_step; try assumption.
      rewrite run_Seq_eq. apply run_star_class; [reflexivity | |].
      { rewrite Ename. now apply stops_word_space. }
      unfold after. apply names_step; [assumption | assumption|]. reflexivity.
    + cbn [pos]. destruct output; rewrite ?length_append; cbn [String.length];
        rewrite ?length_append; cbn [String.length]; lia.
    + reflexivity.
  - eexists. split; [|split].
    + unfold portRegex. cbn [Seqs]. rewrite run_Seq_eq. apply direction_step.
      cbn [append]. rewrite run_Seq_eq. unfold star, ws.
      change (String " " (name ++ t))
        with (" " ++ (name ++ t))%string.
      apply run_star_class; [reflexivity | |].
      { rewrite Ename. now apply stops_word_space. }
      unfold after. rewrite run_Seq_eq. rewrite Ename. apply no_range_step; [assumption|].
      rewrite run_Seq_eq. apply star_skip; [now apply stops_word_space|].
      rewrite <- Ename. apply names_step; [assumption | assumption|]. reflexivity.
    + cbn [pos]. destruct output; cbn [append String.length];
        rewrite ?length_append; cbn [String.length]; lia.
    + reflexivity.
Qed.

Lemma port_match d p i t :
  word (decl_name d) = true -> range_ok (decl_range d) = true ->
  ends_names t = true ->
  match_at portRegex p i (decl_text d ++ t) =
  Some (Match i (decl_text d) (decl_groups d) (i + String.length (decl_text d))).
Proof.
  intros Hname Hrange Ht. unfold match_at.
  destruct (port_run d p i t Hname Hrange Ht) as (s' & -> & Hpos & Hcaps).
  rewrite Hpos, Hcaps.
  replace (i + String.length (decl_text d) - i) with (String.length (decl_text d)) by lia.
  now rewrite substring_append.
Qed.

End PortFacts.


(* ================================================================== *)
(** ** Port extraction and the syntax check on modules *)

Module ModuleFacts.
Import JsString Regex VerilogParser StringDefs StringFacts RegexFacts PortFamily
       ModuleFamily PortFacts.

Lemma count_char_word kw c :
  all_chars is_word kw = true -> is_word c = false -> count_char c kw = 0.
Proof.
  intros Hkw Hc. induction kw as [|x kw IH]; [reflexivity|].
  cbn in Hkw. apply andb_true_iff in Hkw as [Hx Hkw]. cbn.
  rewrite Ascii.eqb_sym, (class_disjoint is_word x c Hx Hc). now apply IH.
Qed.

Lemma port_no_match p i t :
  prefix "input" t = false -> prefix "output" t = false -> prefix "inout" t = false ->
  match_at portRegex p i t = None.
Proof.
  intros H1 H2 H3. unfold match_at, portRegex. cbn [Seqs Alts].
  rewrite run_Seq_eq, run_Group_eq, !run_Alt_eq.
  now rewrite !run_Lit_fail.
Qed.

Lemma free_of_port s :
  free_of port_keywords s = true ->
  includes s "input" = false /\ includes s "output" = false /\ includes s "inout" = false.
Proof.
  unfold free_of. cbn. rewrite !andb_true_iff, !negb_true_iff. tauto.
Qed.

Lemma free_of_tail words c s :
  free_of words (String c s) = true -> free_of words s = true.
Proof.
  unfold free_of. rewrite !forallb_forall. intros H kw Hkw.
  specialize (H kw Hkw). rewrite includes_cons, negb_orb in H.
  now apply andb_true_iff in H.
Qed.

Lemma port_no_match_sep a c t p i :
  free_of port_keywords a = true -> is_word c = false ->
  match_at portRegex p i (a ++ String c t) = None.
Proof.
  intros Ha Hc. destruct (free_of_port _ Ha) as (H1 & H2 & H3).
  apply port_no_match; (rewrite prefix_app_sep;
    [now apply includes_prefix_false | now apply count_char_word | discriminate]).
Qed.

(** No port starts in a stretch free of the three keywords that ends at a
    character no keyword holds. *)
Lemma scan_skip a c t p i :
  free_of port_keywords a = true -> is_word c = false ->
  exec_all_from portRegex p i (a ++ String c t) 0 =
  exec_all_from portRegex (Some c) (S (i + String.length a)) t 0.
Proof.
  intros Ha Hc. revert p i. induction a as [|x a IH]; intros p i.
  - pose proof (port_no_match_sep EmptyString c t p i Ha Hc) as Hno.
    cbn [append] in *. cbn [exec_all_from String.length]. rewrite Hno.
    now rewrite Nat.add_0_r.
  - pose proof (port_no_match_sep _ c t p i Ha Hc) as Hno.
    cbn [append] in *. cbn [exec_all_from]. rewrite Hno.
    rewrite IH by (now apply free_of_tail in Ha).
    cbn [String.length]. now rewrite Nat.add_succ_r.
Qed.

Lemma scan_skip_char c t p i :
  is_word c = false ->
  exec_all_from portRegex p i (String c t) 0 = exec_all_from portRegex (Some c) (S i) t 0.
Proof.
  intros Hc. pose proof (scan_skip EmptyString c t p i eq_refl Hc) as H.
  cbn [append String.length] in H. now rewrite Nat.add_0_r in H.
Qed.

Lemma scan_end a p i :
  free_of port_keywords a = true -> exec_all_from portRegex p i a 0 = [].
Proof.
  intros Ha. revert p i. induction a as [|x a IH]; intros p i.
  - cbn [exec_all_from]. now rewrite port_no_match.
  - destruct (free_of_port _ Ha) as (H1 & H2 & H3).
    cbn [exec_all_from]. rewrite port_no_match by now apply includes_prefix_false.
    apply IH. now apply free_of_tail in Ha.
Qed.

Lemma scan_over r w t p i :
  exec_all_from r p i (w ++ t) (String.length w) =
  exec_all_from r (last_char p w) (i + String.length w) t 0.
Proof.
  revert p i. induction w as [|c w IH]; intros p i.
  - cbn [append String.length last_char]. now rewrite Nat.add_0_r.
  - cbn [append String.length last_char exec_all_from]. rewrite IH.
    now rewrite Nat.add_succ_r.
Qed.

Lemma scan_match r w t p i g :
  w <> EmptyString ->
  match_at r p i (w ++ t) = Some (Match i w g (i + String.length w)) ->
  exec_all_from r p i (w ++ t) 0 =
  Match i w g (i + String.length w) :: exec_all_from r (last_char p w) (i + String.length w) t 0.
Proof.
  intros Hw Hm. destruct w as [|c w]; [congruence|].
  cbn [append] in *. cbn [exec_all_from]. rewrite Hm. f_equal.
  cbn [lastIndex String.length].
  replace (i + S (String.length w) - i - 1) with (String.length w) by lia.
  rewrite scan_over. cbn [last_char]. now rewrite Nat.add_succ_r.
Qed.

Lemma decl_text_nonempty d : decl_text d <> EmptyString.
Proof. unfold decl_text, decl_direction. now destruct (decl_output d). Qed.

Lemma decl_ok_parts d :
  decl_ok d = true ->
  word (decl_name d) = true /\ free_of reserved_words (decl_name d) = true /\
  range_ok (decl_range d) = true.
Proof.
  unfold decl_ok, identifier. rewrite !andb_true_iff. tauto.
Qed.

Lemma scan_decls decls before p :
  forallb decl_ok decls = true ->
  exec_all_from portRegex p (String.length before) (decl_lines decls ++ "endmodule") 0 =
  decl_matches before decls.
Proof.
  revert before p. induction decls as [|d decls IH]; intros before p Hok.
  - cbn [decl_lines append decl_matches]. now apply scan_end.
  - cbn [forallb] in Hok. apply andb_true_iff in Hok as [Hd Hok].
    destruct (decl_ok_parts _ Hd) as (Hw & _ & Hr).
    cbn [decl_lines decl_matches]. unfold decl_line at 1. rewrite !append_assoc.
    cbn [append].
    rewrite (scan_match portRegex (decl_text d) _ p _ (decl_groups d)
               (decl_text_nonempty d)
               (port_match d p _ (String SEMI _) Hw Hr eq_refl)).
    f_equal.
    rewrite (scan_skip_char SEMI) by reflexivity.
    rewrite (scan_skip_char LF) by reflexivity.
    replace (S (S (String.length before + String.length (decl_text d))))
      with (String.length (before ++ decl_line d)).
    + apply IH. assumption.
    + unfold decl_line. rewrite !length_append. cbn [String.length]. lia.
Qed.

Lemma free_of_app_sep words a b c :
  letters_only words = true -> is_word c = false ->
  free_of words (a ++ String c b) = free_of words a && free_of words b.
Proof.
  intros Hl Hc. unfold free_of. induction words as [|kw words IH]; [reflexivity|].
  cbn [letters_only forallb] in Hl. apply andb_true_iff in Hl as [Hkw Hl].
  apply andb_true_iff in Hkw as [Hne Hkw].
  cbn [forallb]. rewrite (IH Hl).
  rewrite includes_app_sep.
  - destruct (includes a kw), (includes b kw); cbn [negb orb andb];
      repeat match goal with
             | |- context [forallb ?f ?l] => destruct (forallb f l)
             end; reflexivity.
  - now apply count_char_word.
  - intros ->. discriminate.
Qed.

Lemma free_of_weaken words words' s :
  incl words' words -> free_of words s = true -> free_of words' s = true.
Proof.
  unfold free_of. rewrite !forallb_forall. intros Hi H kw Hkw. apply H, Hi, Hkw.
Qed.

Lemma includes_first_char k0 kw s :
  all_chars (fun c => negb (Ascii.eqb k0 c)) s = true ->
  includes s (String k0 kw) = false.
Proof.
  induction s as [|c s IH]; intros H.
  - reflexivity.
  - cbn in H. apply andb_true_iff in H as [Hc Hs].
    rewrite includes_cons, prefix_cons, (IH Hs).
    apply negb_true_iff in Hc. now rewrite Hc.
Qed.

Lemma all_chars_impl (p q : ascii -> bool) s :
  (forall c, p c = true -> q c = true) -> all_chars p s = true -> all_chars q s = true.
Proof.
  intros Hpq. induction s as [|c s IH]; [reflexivity|].
  cbn. rewrite !andb_true_iff. intros [Hc Hs]. split; [now apply Hpq | now apply IH].
Qed.

Lemma digits_free s :
  all_chars is_digit s = true -> free_of reserved_words s = true.
Proof.
  intros H. unfold free_of, reserved_words. cbn [forallb].
  rewrite !includes_first_char; [reflexivity | | | | | |];
    (eapply all_chars_impl; [|exact H]); intros c Hc; apply negb_true_iff;
    now apply (class_disjoint is_digit c).
Qed.

Lemma numeral_digits s : numeral s = true -> all_chars is_digit s = true.
Proof. unfold numeral. now rewrite andb_true_iff. Qed.

Lemma word_chars s : word s = true -> all_chars is_word s = true.
Proof. unfold word. now rewrite andb_true_iff. Qed.

Lemma identifier_parts s :
  identifier s = true -> word s = true /\ free_of reserved_words s = true.
Proof. unfold identifier. now rewrite andb_true_iff. Qed.

Lemma join_names_free names :
  forallb identifier names = true -> free_of reserved_words (join_names names) = true.
Proof.
  induction names as [|n names IH]; [reflexivity|].
  cbn [forallb]. rewrite andb_true_iff. intros [Hn Hs].
  destruct (identifier_parts _ Hn) as [_ Hf].
  destruct names as [|n' names]; [exact Hf|].
  change (join_names (n :: n' :: names))
    with (n ++ String ","%char (EmptyString ++ String " "%char (join_names (n' :: names))))%string.
  rewrite !free_of_app_sep by reflexivity. rewrite Hf, (IH Hs). reflexivity.
Qed.

Lemma header_free name decls :
  identifier name = true -> forallb decl_ok decls = true ->
  free_of reserved_words (header_text name decls) = true.
Proof.
  intros Hn Hd. destruct (identifier_parts _ Hn) as [_ Hf].
  unfold header_text.
  change ("module " ++ name ++ "(" ++ join_names (map decl_name decls) ++ ");")%string
    with ("module" ++ String " "%char (name ++ String "("%char
            (join_names (map decl_name decls) ++ String ")"%char
               (EmptyString ++ String ";"%char EmptyString))))%string.
  rewrite !free_of_app_sep by reflexivity.
  rewrite Hf, join_names_free; [reflexivity|].
  rewrite forallb_forall in *. intros n Hin. apply in_map_iff in Hin as (d & <- & Hin).
  specialize (Hd d Hin). unfold decl_ok in Hd. now apply andb_true_iff in Hd.
Qed.

Lemma decl_text_free d :
  decl_ok d = true ->
  free_of ["if"; "begin"; "end"] (decl_text d ++ String SEMI EmptyString) = true.
Proof.
  intros Hd. destruct (decl_ok_parts _ Hd) as (Hw & Hf & Hr).
  assert (Hf' : free_of ["if"; "begin"; "end"] (decl_name d) = true).
  { eapply free_of_weaken; [|exact Hf]. intros x Hx. cbn in *. tauto. }
  unfold decl_text. destruct d as [output range name]. cbn [decl_name decl_range] in *.
  rewrite !append_assoc. destruct range as [[msb lsb]|]; cbn [range_text].
  - cbn in Hr. apply andb_true_iff in Hr as [Hm Hl].
    assert (Hfm : free_of ["if"; "begin"; "end"] msb = true).
    { eapply free_of_weaken; [|apply digits_free, numeral_digits, Hm].
      intros x Hx. cbn in *. tauto. }
    assert (Hfl : free_of ["if"; "begin"; "end"] lsb = true).
    { eapply free_of_weaken; [|apply digits_free, numeral_digits, Hl].
      intros x Hx. cbn in *. tauto. }
    rewrite !append_assoc.
    change (decl_direction {| decl_output := output; decl_range := Some (msb, lsb);
                              decl_name := name |})
      with (if output then "output" else "input").
    change (" [" ++ msb ++ ":" ++ lsb ++ "]" ++ " " ++ name ++ String SEMI EmptyString)%string
      with (String " "%char (EmptyString ++ String "["%char (msb ++ String ":"%char
              (lsb ++ String "]"%char (EmptyString ++ String " "%char
                 (name ++ String SEMI EmptyString)))))).
    rewrite !free_of_app_sep by reflexivity.
    rewrite Hf', Hfm, Hfl. now destruct output.
  - change (decl_direction {| decl_output := output; decl_range := None;
                              decl_name := name |})
      with (if output then "output" else "input").
    change (EmptyString ++ " " ++ name ++ String SEMI EmptyString)%string
      with (String " "%char (name ++ String SEMI EmptyString)).
    rewrite !free_of_app_sep by reflexivity.
    rewrite Hf'. now destruct output.
Qed.

Lemma count_char_app c a b : count_char c (a ++ b) = count_char c a + count_char c b.
Proof. induction a as [|x a IH]; cbn; [reflexivity | rewrite IH; lia]. Qed.

Lemma split_no_sep sep s : count_char sep s = 0 -> split sep s = [s].
Proof.
  induction s as [|c s IH]; [reflexivity|]. cbn.
  destruct (Ascii.eqb c sep); [discriminate|]. cbn. intros H. now rewrite (IH H).
Qed.

Lemma split_length sep s : List.length (split sep s) = S (count_char sep s).
Proof.
  induction s as [|c s IH]; [reflexivity|]. cbn.
  destruct (Ascii.eqb c sep); cbn; [now rewrite IH|].
  destruct (split sep s) as [|x xs]; cbn in *; lia.
Qed.

Lemma split_line l rest :
  count_char LF l = 0 -> split LF (l ++ String LF rest) = l :: split LF rest.
Proof.
  induction l as [|c l IH]; cbn [append count_char split].
  - intros _. now rewrite Ascii.eqb_refl.
  - destruct (Ascii.eqb c LF) eqn:E; [discriminate|]. intros H.
    now rewrite (IH H).
Qed.

Lemma findLineNumber_at before rest :
  findLineNumber (before ++ rest) (String.length before) = S (count_char LF before).
Proof. unfold findLineNumber. now rewrite substring_append, split_length. Qed.

Lemma trimEnd_no_space s :
  all_chars (fun c => negb (is_space c)) s = true -> trimEnd s = s.
Proof.
  induction s as [|c s IH]; [reflexivity|]. cbn. rewrite andb_true_iff.
  intros [Hc Hs]. rewrite (IH Hs). apply negb_true_iff in Hc. rewrite Hc.
  now destruct s.
Qed.

Lemma trim_word s : word s = true -> trim s = s.
Proof.
  intros H. destruct (word_cons _ H) as (c & w & -> & Hc & Hw).
  unfold trim. cbn [trimStart]. rewrite (is_word_not_space c Hc).
  apply trimEnd_no_space. cbn. rewrite (is_word_not_space c Hc). cbn.
  eapply all_chars_impl; [|exact Hw]. intros x Hx. now rewrite is_word_not_space.
Qed.

Lemma count_LF_word s : all_chars is_word s = true -> count_char LF s = 0.
Proof. intros H. now apply count_char_word. Qed.

Lemma count_LF_decl_text d : decl_ok d = true -> count_char LF (decl_text d) = 0.
Proof.
  intros Hd. destruct (decl_ok_parts _ Hd) as (Hw & _ & Hr).
  unfold decl_text. rewrite !count_char_app.
  rewrite (count_LF_word (decl_name d)) by now apply word_chars.
  destruct d as [output [[msb lsb]|] name]; cbn [decl_range range_text] in *.
  - apply andb_true_iff in Hr as [Hm Hl]. rewrite !count_char_app.
    rewrite (count_LF_word msb), (count_LF_word lsb);
      [now destruct output | |];
      (eapply all_chars_impl; [apply is_digit_is_word | now apply numeral_digits]).
  - now destruct output.
Qed.

Lemma count_LF_decl_line d : decl_ok d = true -> count_char LF (decl_line d) = 1.
Proof.
  intros Hd. unfold decl_line. rewrite count_char_app, count_LF_decl_text by assumption.
  reflexivity.
Qed.

Lemma group_decl i d n :
  group n (Match i (decl_text d) (decl_groups d) (i + String.length (decl_text d))) =
  assoc_nat n (decl_groups d).
Proof. reflexivity. Qed.

Lemma decl_ports code before rest decls :
  forallb decl_ok decls = true ->
  code = (before ++ decl_lines decls ++ rest)%string ->
  flat_map (fun m =>
              map (fun portName =>
                     {| port_name := trim portName;
                        port_direction := group_text 1 m;
                        port_width := range_width (group 2 m) (group 3 m);
                        port_msb := range_bound (group 2 m);
                        port_lsb := range_bound (group 3 m);
                        port_line := findLineNumber code (index m) |})
                  (split COMMA (group_text 4 m)))
           (decl_matches before decls) =
  expected_ports (S (count_char LF before)) decls.
Proof.
  revert before. induction decls as [|d decls IH]; intros before Hok Hcode; [reflexivity|].
  cbn [forallb] in Hok. apply andb_true_iff in Hok as [Hd Hok].
  destruct (decl_ok_parts _ Hd) as (Hw & _ & Hr).
  cbn [decl_matches flat_map expected_ports].
  rewrite (IH (before ++ decl_line d)%string Hok).
  2:{ rewrite Hcode. cbn [decl_lines]. now rewrite !append_assoc. }
  rewrite count_char_app, count_LF_decl_line by assumption.
  rewrite Nat.add_1_r.
  unfold group_text. rewrite !group_decl. cbn [index].
  assert (Hg4 : assoc_nat 4 (decl_groups d) = Some (decl_name d)) by reflexivity.
  rewrite Hg4.
  rewrite split_no_sep by (apply count_char_word; [now apply word_chars | reflexivity]).
  cbn [map app]. rewrite trim_word by assumption.
  rewrite Hcode, findLineNumber_at. f_equal.
  unfold expected_port, decl_width, decl_groups.
  destruct d as [output [[msb lsb]|] name]; reflexivity.
Qed.

Lemma exec_all_char c s p i :
  List.length (exec_all_from (Lit (String c EmptyString)) p i s 0) = count_char c s.
Proof.
  revert p i. induction s as [|d s IH]; intros p i; [reflexivity|].
  cbn [exec_all_from count_char Lit]. unfold match_at, Chr. cbn [run rest].
  rewrite (Ascii.eqb_sym d c). destruct (Ascii.eqb c d).
  - cbn [pos lastIndex Regex.caps]. replace (S i - i - 1) with 0 by lia.
    cbn [List.length]. now rewrite IH.
  - now rewrite IH.
Qed.

(** The number of matches of a one-character pattern is the number of
    occurrences of the character. *)
Lemma count_matches_char c s :
  count_matches (Lit (String c EmptyString)) s = count_char c s.
Proof. apply exec_all_char. Qed.

Lemma exec_all_keyword w a p i :
  includes a w = false ->
  exec_all_from (Seqs [WordBoundary; Lit w; WordBoundary]) p i a 0 = [].
Proof.
  assert (Hno : forall p i t, prefix w t = false ->
                  match_at (Seqs [WordBoundary; Lit w; WordBoundary]) p i t = None).
  { intros p' i' t Ht. unfold match_at. cbn [Seqs run].
    destruct (at_word_boundary _); [|reflexivity].
    now rewrite run_Lit_fail. }
  revert p i. induction a as [|x a IH]; intros p i Ha.
  - cbn [exec_all_from]. rewrite Hno; [reflexivity | now apply includes_prefix_false].
  - cbn [exec_all_from]. rewrite Hno by now apply includes_prefix_false.
    apply IH. rewrite includes_cons in Ha. now apply orb_false_iff in Ha.
Qed.

Lemma includes_snoc s c : includes (s ++ String c EmptyString) (String c EmptyString) = true.
Proof.
  apply includes_contains. exists s, EmptyString. reflexivity.
Qed.

Lemma check_lines_quiet lines index b errors :
  Forall quiet lines -> check_lines lines index b errors = (b, errors).
Proof.
  intros H. revert index b errors. induction H as [|line lines [Hc He] _ IH]; intros index b errors.
  - reflexivity.
  - cbn [check_lines]. rewrite Hc, He, app_nil_r. apply IH.
Qed.

Lemma quiet_intro line :
  includes line ";" = true ->
  free_of ["if"; "begin"; "end"] line = true ->
  count_char "("%char line = count_char ")"%char line ->
  count_char "["%char line = count_char "]"%char line ->
  quiet line.
Proof.
  intros Hsemi Hfree Hp Hb. unfold free_of in Hfree. cbn in Hfree.
  rewrite !andb_true_iff, !negb_true_iff in Hfree.
  destruct Hfree as (Hif & Hbegin & Hend & _). split.
  - intros [pc bc gc]. unfold count_delimiters, count_of, count_matches.
    cbn [parenCount bracketCount beginCount].
    pose proof (count_matches_char "("%char line) as H1.
    pose proof (count_matches_char ")"%char line) as H2.
    pose proof (count_matches_char "["%char line) as H3.
    pose proof (count_matches_char "]"%char line) as H4.
    unfold count_matches in *. rewrite H1, H2, H3, H4, Hp, Hb.
    unfold beginRegex, endRegex, exec_all. rewrite !exec_all_keyword by assumption.
    cbn [List.length]. f_equal; lia.
  - intros n next. unfold line_errors, missing_semicolon, incomplete_if.
    rewrite Hsemi, Hif. cbn [negb andb]. rewrite andb_false_r. reflexivity.
Qed.

Lemma count_join_names c names :
  is_word c = false -> Ascii.eqb "," c = false -> Ascii.eqb " " c = false ->
  forallb identifier names = true ->
  count_char c (join_names names) = 0.
Proof.
  intros Hc Hcomma Hspace. induction names as [|n names IH]; [reflexivity|].
  cbn [forallb]. rewrite andb_true_iff. intros [Hn Hs].
  destruct (identifier_parts _ Hn) as [Hw _].
  assert (H0 : count_char c n = 0) by (apply count_char_word; [now apply word_chars | exact Hc]).
  destruct names as [|n' names]; [exact H0|].
  change (join_names (n :: n' :: names))
    with (n ++ ", " ++ join_names (n' :: names))%string.
  rewrite !count_char_app, H0, (IH Hs). cbn [count_char]. now rewrite Hcomma, Hspace.
Qed.

Lemma decl_names_ok decls :
  forallb decl_ok decls = true -> forallb identifier (map decl_name decls) = true.
Proof.
  rewrite !forallb_forall. intros H n Hin. apply in_map_iff in Hin as (d & <- & Hin).
  specialize (H d Hin). unfold decl_ok in H. now apply andb_true_iff in H.
Qed.

Lemma count_header c name decls :
  is_word c = false -> Ascii.eqb "," c = false -> Ascii.eqb " " c = false ->
  identifier name = true -> forallb decl_ok decls = true ->
  count_char c (header_text name decls) =
  count_char c "module (" + count_char c ");".
Proof.
  intros Hc Hcomma Hspace Hn Hd. destruct (identifier_parts _ Hn) as [Hw _].
  unfold header_text. rewrite !count_char_app.
  rewrite (count_char_word name) by (try apply word_chars; assumption).
  rewrite count_join_names by (try apply decl_names_ok; assumption).
  cbn [count_char]. lia.
Qed.

Lemma header_quiet name decls :
  identifier name = true -> forallb decl_ok decls = true ->
  quiet (header_text name decls).
Proof.
  intros Hn Hd. apply quiet_intro.
  - unfold header_text.
    replace ("module " ++ name ++ "(" ++ join_names (map decl_name decls) ++ ");")%string
      with (("module " ++ name ++ "(" ++ join_names (map decl_name decls) ++ ")")
            ++ String ";"%char EmptyString)%string
      by (now rewrite !append_assoc).
    apply includes_snoc.
  - eapply free_of_weaken; [|now apply header_free].
    intros x Hx. cbn in *. tauto.
  - rewrite !count_header by (assumption || reflexivity). reflexivity.
  - rewrite !count_header by (assumption || reflexivity). reflexivity.
Qed.

Lemma count_decl_text c d :
  is_word c = false -> Ascii.eqb " " c = false -> decl_ok d = true ->
  count_char c (decl_text d) = count_char c (range_text (option_map (fun _ => (EmptyString, EmptyString)) (decl_range d))).
Proof.
  intros Hc Hspace Hd. destruct (decl_ok_parts _ Hd) as (Hw & _ & Hr).
  unfold decl_text. rewrite !count_char_app.
  rewrite (count_char_word (decl_name d)) by (try apply word_chars; assumption).
  assert (Hdir : count_char c (decl_direction d) = 0).
  { apply count_char_word; [|exact Hc]. unfold decl_direction. now destruct (decl_output d). }
  rewrite Hdir. cbn [count_char]. rewrite Hspace.
  destruct (decl_range d) as [[msb lsb]|]; cbn [range_text option_map]; [|reflexivity].
  cbn in Hr. apply andb_true_iff in Hr as [Hm Hl].
  rewrite !count_char_app.
  rewrite (count_char_word msb), (count_char_word lsb); try assumption;
    try (eapply all_chars_impl; [apply is_digit_is_word | now apply numeral_digits]).
  cbn. lia.
Qed.

Lemma decl_quiet d :
  decl_ok d = true -> quiet (decl_text d ++ String SEMI EmptyString).
Proof.
  intros Hd. apply quiet_intro.
  - apply includes_snoc.
  - now apply decl_text_free.
  - rewrite !count_char_app, !count_decl_text by (assumption || reflexivity).
    now destruct (decl_range d).
  - rewrite !count_char_app, !count_decl_text by (assumption || reflexivity).
    now destruct (decl_range d).
Qed.

Lemma endmodule_quiet : quiet "endmodule".
Proof.
  split.
  - intros [pc bc gc]. unfold count_delimiters. cbn [parenCount bracketCount beginCount].
    f_equal; vm_compute (count_of _ _); lia.
  - intros n next. reflexivity.
Qed.

Lemma decl_lines_split decls :
  forallb decl_ok decls = true ->
  split LF (decl_lines decls ++ "endmodule") =
  map (fun d => decl_text d ++ String SEMI EmptyString)%string decls ++ ["endmodule"].
Proof.
  induction decls as [|d decls IH]; [reflexivity|].
  cbn [forallb]. rewrite andb_true_iff. intros [Hd Hok].
  cbn [decl_lines map app]. unfold decl_line.
  replace (((decl_text d ++ String SEMI (String LF EmptyString)) ++ decl_lines decls) ++ "endmodule")%string
    with ((decl_text d ++ String SEMI EmptyString) ++ String LF (decl_lines decls ++ "endmodule"))%string
    by (now rewrite !append_assoc).
  rewrite split_line; [now rewrite (IH Hok)|].
  rewrite count_char_app, count_LF_decl_text by assumption. reflexivity.
Qed.

Lemma count_LF_header name decls :
  identifier name = true -> forallb decl_ok decls = true ->
  count_char LF (header_text name decls) = 0.
Proof. intros Hn Hd. now rewrite count_header. Qed.

Lemma module_matches name decls :
  identifier name = true -> forallb decl_ok decls = true ->
  exec_all portRegex (module_text name decls) =
  decl_matches (header_text name decls ++ String LF EmptyString) decls.
Proof.
  intros Hn Hd. unfold exec_all, module_text.
  rewrite scan_skip; [| |reflexivity].
  - replace (S (0 + String.length (header_text name decls)))
      with (String.length (header_text name decls ++ String LF EmptyString))
      by (rewrite length_append; cbn; lia).
    now apply scan_decls.
  - eapply free_of_weaken; [|now apply header_free]. intros x Hx. cbn in *. tauto.
Qed.

Lemma expected_ports_length line decls :
  List.length (expected_ports line decls) = inputs decls + outputs decls.
Proof.
  revert line. unfold inputs, outputs.
  induction decls as [|d decls IH]; intros line; [reflexivity|].
  cbn [expected_ports List.length filter]. rewrite IH.
  destruct (decl_output d); cbn [negb List.length]; lia.
Qed.

(** X21: for a module whose header lists the port names and whose body
    declares one port per line, as [input|output [msb:lsb] name;] with
    decimal bounds and names in which none of the words input, output,
    inout, if, begin, end occurs, the ports returned are the declared
    ones in order, with their direction, their line and the width
    [parseInt(msb) - parseInt(lsb) + 1] of Numbers (1 without a range);
    there are as many as inputs and outputs declared; and the syntax
    check returns no finding. *)
Theorem module_ports_and_syntax name decls :
  identifier name = true -> forallb decl_ok decls = true ->
  extractPorts (module_text name decls) = expected_ports 2 decls /\
  List.length (extractPorts (module_text name decls)) = inputs decls + outputs decls /\
  checkSyntax (module_text name decls) = [].
Proof.
  intros Hn Hd.
  assert (Hports : extractPorts (module_text name decls) = expected_ports 2 decls).
  { unfold extractPorts. rewrite module_matches by assumption.
    rewrite (decl_ports _ _ "endmodule" decls Hd).
    - rewrite count_char_app, count_LF_header by assumption. reflexivity.
    - unfold module_text. now rewrite !append_assoc. }
  split; [exact Hports|]. split.
  - rewrite Hports. apply expected_ports_length.
  - unfold checkSyntax, module_text.
    rewrite split_line by now apply count_LF_header.
    rewrite decl_lines_split by assumption.
    rewrite check_lines_quiet; [reflexivity|].
    constructor; [now apply header_quiet|].
    apply Forall_app. split.
    + apply Forall_forall. intros l Hl. apply in_map_iff in Hl as (d & <- & Hin).
      apply decl_quiet. rewrite forallb_forall in Hd. now apply Hd.
    + constructor; [apply endmodule_quiet | constructor].
Qed.

Lemma module_ports_and_syntax_adder :
  extractPorts (module_text "adder" adder_decls) = expected_ports 2 adder_decls /\
  List.length (extractPorts (module_text "adder" adder_decls)) = 3 + 1 /\
  checkSyntax (module_text "adder" adder_decls) = [].
Proof.
  exact (module_ports_and_syntax "adder" adder_decls eq_refl eq_refl).
Defined.

End ModuleFacts.


(* ================================================================== *)
(** ** Comments *)

Module CommentFacts.
Import JsString Regex VerilogParser StringDefs StringFacts RegexFacts PortFamily
       ModuleFamily PortFacts ModuleFacts.

Lemma is_word_dot (c : ascii) : is_word c = true -> dot c = true.
Proof.
  destruct c as [[] [] [] [] [] [] [] []]; vm_compute; intros H;
    first [reflexivity | discriminate H].
Qed.

Lemma all_chars_app p a b : all_chars p (a ++ b) = all_chars p a && all_chars p b.
Proof. induction a as [|c a IH]; cbn; [reflexivity | now rewrite IH, andb_assoc]. Qed.

Lemma remove_all_over r w n p i :
  String.length w <= n -> remove_all_from r p i w n = EmptyString.
Proof.
  revert n p i. induction w as [|c w IH]; intros n p i Hn.
  - destruct n; cbn [remove_all_from]; [now destruct (match_at _ _ _ _) | reflexivity].
  - destruct n as [|n]; [cbn in Hn; lia|]. cbn [remove_all_from].
    apply IH. cbn in Hn. lia.
Qed.

Lemma substring_full s : substring 0 (String.length s) s = s.
Proof.
  pose proof (substring_append s EmptyString) as H. now rewrite append_nil_r in H.
Qed.

(** A line comment that runs to the end of the text is matched whole. *)
Lemma line_comment_match body :
  all_chars dot body = true ->
  match_at lineCommentRegex None 0 ("//" ++ body) =
  Some (Match 0 ("//" ++ body) [] (String.length ("//" ++ body))).
Proof.
  intros Hb. unfold match_at, lineCommentRegex. cbn [Seqs].
  assert (Hrun : run (Seq (Lit "//") (Seq (star (Char dot)) (Eol true))) (fun s => Some s)
                     (MState None 0 ("//" ++ body) []) =
                 Some (MState (last_char (Some "/"%char) body)
                              (String.length ("//" ++ body)) EmptyString [])).
  { rewrite run_Seq_eq. apply lit_step. unfold after. cbn [last_char String.length Nat.add].
    rewrite run_Seq_eq. unfold star.
    rewrite <- (append_nil_r body) at 1.
    apply run_star_class; [assumption | reflexivity|].
    unfold after. cbn [run at_eol peek rest]. reflexivity. }
  rewrite Hrun. cbn [pos Regex.caps]. rewrite Nat.sub_0_r. now rewrite substring_full.
Qed.

Lemma remove_all_whole r text g :
  match_at r None 0 text = Some (Match 0 text g (String.length text)) ->
  remove_all r text = EmptyString.
Proof.
  intros Hm. unfold remove_all. destruct text as [|c t].
  - cbn [remove_all_from]. now rewrite Hm.
  - cbn [remove_all_from]. rewrite Hm. cbn [lastIndex String.length Nat.eqb].
    apply remove_all_over. lia.
Qed.

Lemma line_comment_removed body :
  all_chars dot body = true -> removeComments ("//" ++ body) = EmptyString.
Proof.
  intros Hb. unfold removeComments.
  now rewrite (remove_all_whole _ _ _ (line_comment_match body Hb)).
Qed.

Lemma commented_port_matches name :
  word name = true ->
  exec_all portRegex ("// input " ++ name) =
  [Match 3 ("input " ++ name) [(4, name); (1, "input")] (3 + String.length ("input " ++ name))].
Proof.
  intros Hw. unfold exec_all. cbn [append].
  rewrite !scan_skip_char by reflexivity.
  pose proof (port_match (commented_port name) (Some " "%char) 3 EmptyString Hw eq_refl eq_refl)
    as Hm.
  pose proof (scan_match portRegex (decl_text (commented_port name)) EmptyString
                (Some " "%char) 3 _ (decl_text_nonempty _) Hm) as Hs.
  rewrite append_nil_r in Hs. unfold decl_text, commented_port in Hs.
  cbn [decl_direction decl_output decl_range decl_name range_text append] in Hs.
  cbn [append]. rewrite Hs. f_equal; now apply scan_end.
Qed.

Lemma commented_port_extracted name :
  word name = true ->
  removeComments ("// input " ++ name) = EmptyString /\
  extractPorts ("// input " ++ name) = [expected_port 1 (commented_port name)].
Proof.
  intros Hw. split.
  - apply (line_comment_removed (" input " ++ name)).
    rewrite all_chars_app. cbn [all_chars]. 
    replace (all_chars dot name) with true; [reflexivity|]. symmetry.
    eapply all_chars_impl; [apply is_word_dot | now apply word_chars].
  - unfold extractPorts. rewrite commented_port_matches by assumption.
    cbn [flat_map app]. unfold group_text, group. cbn [groups assoc_nat Nat.eqb index].
    rewrite split_no_sep by (apply count_char_word; [now apply word_chars | reflexivity]).
    cbn [map]. rewrite trim_word by assumption.
    change ("// input " ++ name)%string with ("// " ++ ("input " ++ name))%string.
    change 3 with (String.length "// ") at 1.
    rewrite findLineNumber_at. reflexivity.
Qed.

End CommentFacts.


(* ================================================================== *)
(** ** Parentheses *)

Module SyntaxBalance.
Import JsString Regex VerilogParser StringDefs StringFacts RegexFacts PortFamily
       ModuleFamily ParserCases PortFacts ModuleFacts.

Lemma check_lines_paren lines index b errors :
  parenCount (fst (check_lines lines index b errors)) =
  (parenCount b + sum_lines paren_balance lines)%Z.
Proof.
  revert index b errors. induction lines as [|l lines IH]; intros index b errors.
  - cbn. lia.
  - cbn [check_lines sum_lines]. rewrite IH. unfold count_delimiters.
    cbn [parenCount]. unfold count_of, paren_balance. rewrite !count_matches_char. lia.
Qed.

Lemma count_char_lines c s :
  Ascii.eqb LF c = false ->
  sum_lines (fun l => Z.of_nat (count_char c l)) (split LF s) = Z.of_nat (count_char c s).
Proof.
  intros Hc. induction s as [|d s IH]; [reflexivity|].
  cbn [split count_char]. destruct (Ascii.eqb d LF) eqn:E.
  - apply Ascii.eqb_eq in E. subst d. rewrite Hc. cbn [sum_lines count_char]. rewrite IH. lia.
  - destruct (split LF s) as [|x xs] eqn:Es.
    + cbn [sum_lines] in *. cbn [count_char]. lia.
    + cbn [sum_lines count_char] in *. lia.
Qed.

Lemma sum_lines_sub f g lines :
  sum_lines (fun l => (f l - g l)%Z) lines = (sum_lines f lines - sum_lines g lines)%Z.
Proof. induction lines as [|l lines IH]; cbn [sum_lines]; lia. Qed.

Lemma paren_balance_lines code :
  sum_lines paren_balance (split LF code) = paren_balance code.
Proof.
  unfold paren_balance at 2.
  rewrite <- !count_char_lines by reflexivity.
  rewrite <- sum_lines_sub. reflexivity.
Qed.

(** The count the final check of [checkSyntax] inspects. *)
Lemma checkSyntax_paren code :
  exists b errors,
    check_lines (split LF code) 0
                {| parenCount := 0; bracketCount := 0; beginCount := 0 |} [] = (b, errors) /\
    parenCount b = paren_balance code /\
    checkSyntax code = errors ++ balance_errors b.
Proof.
  destruct (check_lines (split LF code) 0 _ []) as [b errors] eqn:E.
  exists b, errors. split; [reflexivity|]. split.
  - pose proof (check_lines_paren (split LF code) 0
                  {| parenCount := 0; bracketCount := 0; beginCount := 0 |} []) as H.
    rewrite E in H. cbn [fst parenCount] in H. rewrite H, paren_balance_lines. lia.
  - unfold checkSyntax. now rewrite E.
Qed.

End SyntaxBalance.


(* ================================================================== *)
(** ** The parser *)

Module ParserTheorems.
Import JsString Regex VerilogParser StringDefs StringFacts RegexFacts PortFamily
       ModuleFamily ParserCases PortFacts ModuleFacts CommentFacts.

Lemma includes_false_contains (s pat : string) :
  includes s pat = false <-> ~ contains s pat.
Proof.
  rewrite <- includes_contains. destruct (includes s pat); split; intros H.
  - discriminate H.
  - now destruct H.
  - intros H'. discriminate H'.
  - reflexivity.
Qed.

(** C10: an edge keyword anywhere in the sensitivity list gives
    "sequential", whatever else the list holds; without one, a star or
    the two letters "or" anywhere (also inside "color") give
    "combinational"; every other list gives "unknown". *)
Theorem classifyAlwaysBlock_precedence (sensitivity body : string) :
  (has_edge sensitivity -> classifyAlwaysBlock sensitivity body = "sequential") /\
  (~ has_edge sensitivity -> has_star_or_or sensitivity ->
   classifyAlwaysBlock sensitivity body = "combinational") /\
  (~ has_edge sensitivity -> ~ has_star_or_or sensitivity ->
   classifyAlwaysBlock sensitivity body = "unknown") /\
  classifyAlwaysBlock "posedge clk or negedge rst" body = "sequential" /\
  classifyAlwaysBlock "color" body = "combinational".
Proof.
  unfold has_edge, has_star_or_or, classifyAlwaysBlock.
  rewrite <- !includes_contains.
  destruct (includes sensitivity "posedge"), (includes sensitivity "negedge"),
    (includes sensitivity "*"), (includes sensitivity "or"); cbn [orb];
    repeat split; intros; try reflexivity;
    repeat match goal with
           | H : _ \/ _ |- _ => destruct H
           | H : false = true |- _ => discriminate H
           | H : ~ _ |- _ => now exfalso; apply H; auto
           end.
Qed.

(** C2: [removeComments] is applied inside [tokenize] only, and every
    extractor reads the text as given.  For every word [name], the text
    "// input name" is a line comment and nothing else: [removeComments]
    leaves the empty text and [tokenize] no token; yet the model returned
    has the port [name] of the comment, an input of width 1 on line 1. *)
Theorem commented_port_parsed (this : VerilogParser) (name : string) :
  word name = true ->
  removeComments ("// input " ++ name) = EmptyString /\
  tokenize this ("// input " ++ name) = [] /\
  exists design,
    parseVerilogCode this ("// input " ++ name) = Parsed design /\
    ports design =
      [{| port_name := name; port_direction := "input"; port_width := 1%float;
          port_msb := 0%float; port_lsb := 0%float; port_line := 1 |}].
Proof.
  intros Hw. destruct (commented_port_extracted name Hw) as [Hc Hp].
  split; [exact Hc|]. split; [unfold tokenize; now rewrite Hc|].
  eexists. split; [reflexivity|]. cbn [ports]. exact Hp.
Qed.

Lemma commented_port_parsed_clk :
  removeComments "// input clk" = EmptyString /\
  tokenize constructor "// input clk" = [] /\
  exists design,
    parseVerilogCode constructor "// input clk" = Parsed design /\
    ports design =
      [{| port_name := "clk"; port_direction := "input"; port_width := 1%float;
          port_msb := 0%float; port_lsb := 0%float; port_line := 1 |}].
Proof. exact (commented_port_parsed constructor "clk" eq_refl). Defined.

(** C4: for a module that declares an input and an 8-bit output in its
    header, one per line, the ports returned are the input and a second
    input named "output", both of width 1 on line 2; the output [q] is
    not returned; and the syntax check reports a missing semicolon on
    lines 2 and 3. *)
Theorem ansi_header_ports :
  extractPorts ansi_example = ansi_example_ports /\
  checkSyntax ansi_example = [missing_semicolon_at 2; missing_semicolon_at 3] /\
  (forall this, exists design,
     parseVerilogCode this ansi_example = Parsed design /\
     ports design = ansi_example_ports /\
     syntax_errors design = [missing_semicolon_at 2; missing_semicolon_at 3]) /\
  ~ In "q" (map port_name (extractPorts ansi_example)) /\
  ~ In "output" (map port_direction (extractPorts ansi_example)).
Proof.
  assert (Hp : extractPorts ansi_example = ansi_example_ports) by (vm_compute; reflexivity).
  assert (Hs : checkSyntax ansi_example = [missing_semicolon_at 2; missing_semicolon_at 3])
    by (vm_compute; reflexivity).
  split; [exact Hp|]. split; [exact Hs|]. split.
  - intros this. eexists. split; [reflexivity|]. cbn [ports syntax_errors]. now split.
  - rewrite Hp. cbn [ansi_example_ports map port_name port_direction In].
    split; intros H; repeat destruct H as [H|H]; try discriminate H; exact H.
Qed.

End ParserTheorems.


(* ================================================================== *)
(** ** The linter *)

Module LinterFacts.
Import JsString Regex JsArray VerilogSynthesisLinter StringDefs StringFacts
       LinterCases LinterTactics.

Lemma forEach_from_app {A St : Type} (f : St -> A -> nat -> St) l1 l2 i s :
  forEach_from f (l1 ++ l2) i s =
  forEach_from f l2 (i + List.length l1) (forEach_from f l1 i s).
Proof.
  revert i s. induction l1 as [|x l1 IH]; intros i s; cbn [app forEach_from List.length].
  - now rewrite Nat.add_0_r.
  - rewrite IH. now rewrite Nat.add_succ_r.
Qed.

Lemma forEach_from_invariant {A St : Type} (P : St -> Prop) (Q : A -> Prop)
      (f : St -> A -> nat -> St) l i s :
  (forall s x i, Q x -> P s -> P (f s x i)) -> Forall Q l -> P s ->
  P (forEach_from f l i s).
Proof.
  intros Hf Hl. revert i s. induction Hl as [|x l Hx _ IH]; intros i s Hs; cbn [forEach_from].
  - exact Hs.
  - apply IH. now apply Hf.
Qed.

Lemma of_rule_app name l1 l2 : of_rule name (l1 ++ l2) = of_rule name l1 ++ of_rule name l2.
Proof. apply filter_app. Qed.

Lemma latch_of_loop index lhs :
  of_rule "inferred_latch" [combinational_loop index lhs] = [].
Proof. reflexivity. Qed.

(** A line that is not [end]: no latch finding is added; the block
    variables follow the line. *)
Lemma comb_step_inside lines st line index :
  String.eqb (trim line) "end" = false ->
  let st' := comb_step lines st line index in
  of_rule "inferred_latch" (issues st') = of_rule "inferred_latch" (issues st) /\
  inAlwaysBlock st' = test combAlwaysRegex (trim line) || inAlwaysBlock st /\
  hasElse st' = (if includes (trim line) "else" then true
                 else if test combAlwaysRegex (trim line) then false else hasElse st) /\
  hasDefault st' = (if includes (trim line) "default" then true
                    else if test combAlwaysRegex (trim line) then false else hasDefault st).
Proof.
  intros Hend. cbv zeta. unfold comb_step. rewrite Hend. cbn [andb].
  destruct (test combAlwaysRegex (trim line)); cbn [issues inAlwaysBlock hasElse hasDefault orb];
    comb_cases; rewrite ?of_rule_app, ?latch_of_loop, ?app_nil_r; repeat split; reflexivity.
Qed.

(** The line [end] of an open block with neither [else] nor [default]. *)
Lemma comb_step_end lines st line index :
  String.eqb (trim line) "end" = true ->
  inAlwaysBlock st = true -> hasElse st = false -> hasDefault st = false ->
  some (fun l => includes l "if") (slice lines (Nat.max 0 (index - 20)) index) = true ->
  let st' := comb_step lines st line index in
  of_rule "inferred_latch" (issues st') =
    of_rule "inferred_latch" (issues st) ++ [inferred_latch index] /\
  inAlwaysBlock st' = false.
Proof.
  intros Hend Hin He Hd Hif. cbv zeta. unfold comb_step.
  apply String.eqb_eq in Hend. rewrite Hend.
  change (test combAlwaysRegex "end") with false. cbn [String.eqb Ascii.eqb Bool.eqb andb].
  rewrite Hin, He, Hd, Hif. cbn [andb negb orb issues inAlwaysBlock hasElse hasDefault].
  change (includes "end" "else") with false. change (includes "end" "default") with false.
  change (exec assignLhsRegex "end") with (@None MatchResult).
  cbn [issues inAlwaysBlock]. rewrite of_rule_app. split; reflexivity.
Qed.

(** A line outside any block that opens none. *)
Lemma comb_step_outside lines st line index :
  inAlwaysBlock st = false -> test combAlwaysRegex (trim line) = false ->
  let st' := comb_step lines st line index in
  of_rule "inferred_latch" (issues st') = of_rule "inferred_latch" (issues st) /\
  inAlwaysBlock st' = false.
Proof.
  intros Hin Hopen. cbv zeta. unfold comb_step. rewrite Hopen, Hin, andb_false_r.
  cbn [issues inAlwaysBlock hasElse hasDefault]. comb_cases; rewrite ?of_rule_app, ?latch_of_loop, ?app_nil_r, ?Hin; split; reflexivity.
Qed.

(** Lines none of which is [end] add no latch finding. *)
Lemma comb_run_no_end lines block index st :
  Forall (fun l => closes_block l = false) block ->
  of_rule "inferred_latch" (issues (forEach_from (comb_step lines) block index st)) =
  of_rule "inferred_latch" (issues st).
Proof.
  intros H. revert index st. induction H as [|l block Hl _ IH]; intros index st.
  - reflexivity.
  - cbn [forEach_from]. rewrite IH.
    now destruct (comb_step_inside lines st l index Hl) as (-> & _).
Qed.

(** The lines of a block keep it open and free of [else] and [default]. *)
Lemma comb_run_body lines block index st :
  Forall (fun l => body_line l = true) block ->
  inAlwaysBlock st = true -> hasElse st = false -> hasDefault st = false ->
  let st' := forEach_from (comb_step lines) block index st in
  of_rule "inferred_latch" (issues st') = of_rule "inferred_latch" (issues st) /\
  inAlwaysBlock st' = true /\ hasElse st' = false /\ hasDefault st' = false.
Proof.
  intros H. revert index st. induction H as [|l block Hl _ IH]; intros index st Hin He Hd.
  - cbn. tauto.
  - cbn [forEach_from]. unfold body_line in Hl.
    apply andb_true_iff in Hl as [Hl Hdef]. apply andb_true_iff in Hl as [Hend Helse].
    apply negb_true_iff in Hend, Helse, Hdef.
    destruct (comb_step_inside lines st l index Hend) as (E1 & E2 & E3 & E4).
    rewrite Helse in E3. rewrite Hdef in E4. rewrite Hin, orb_true_r in E2.
    rewrite He in E3. rewrite Hd in E4.
    assert (E3' : hasElse (comb_step lines st l index) = false)
      by (rewrite E3; now destruct (test combAlwaysRegex (trim l))).
    assert (E4' : hasDefault (comb_step lines st l index) = false)
      by (rewrite E4; now destruct (test combAlwaysRegex (trim l))).
    destruct (IH (S index) _ E2 E3' E4') as (F1 & F2 & F3 & F4).
    cbv zeta. rewrite F1, E1. tauto.
Qed.

(** Lines after the block that open no other add no latch finding. *)
Lemma comb_run_outside lines block index st :
  Forall (fun l => test combAlwaysRegex (trim l) = false) block ->
  inAlwaysBlock st = false ->
  of_rule "inferred_latch" (issues (forEach_from (comb_step lines) block index st)) =
  of_rule "inferred_latch" (issues st).
Proof.
  intros H. revert index st. induction H as [|l block Hl _ IH]; intros index st Hin.
  - reflexivity.
  - cbn [forEach_from].
    destruct (comb_step_outside lines st l index Hin Hl) as (E1 & E2).
    now rewrite IH, E1.
Qed.

Lemma slice_In {A : Type} (l : list A) (from to k : nat) (x : A) :
  from <= k < to -> nth_error l k = Some x -> In x (slice l from to).
Proof.
  intros [Hlo Hhi] Hk. unfold slice.
  apply (nth_error_In _ (k - from)).
  rewrite nth_error_firstn.
  replace (k - from <? to - from) with true by (symmetry; apply Nat.ltb_lt; lia).
  rewrite nth_error_skipn. now replace (from + (k - from)) with k by lia.
Qed.

Lemma trimStart_suffix l : exists w, l = (w ++ trimStart l)%string.
Proof.
  induction l as [|c l [w IH]]; [now exists EmptyString|]. cbn.
  destruct (is_space c).
  - exists (String c w). cbn. now rewrite <- IH.
  - now exists EmptyString.
Qed.

Lemma trimEnd_prefix l : exists w, l = (trimEnd l ++ w)%string.
Proof.
  induction l as [|c l [w IH]]; [now exists EmptyString|]. cbn.
  destruct (trimEnd l) eqn:E.
  - destruct (is_space c).
    + exists (String c l). reflexivity.
    + exists w. cbn [append] in *. now f_equal.
  - exists w. cbn [append] in *. now f_equal.
Qed.

Lemma includes_intro before pat after : includes (before ++ pat ++ after) pat = true.
Proof.
  induction before as [|c before IH].
  - cbn [append]. destruct (pat ++ after)%string eqn:E.
    + unfold includes. rewrite orb_false_r. apply prefix_append. now exists after.
    + change (prefix pat (String a s) || includes s pat = true).
      apply orb_true_iff. left. apply prefix_append. now exists after.
  - cbn [append]. change (prefix pat (String c (before ++ pat ++ after))
                            || includes (before ++ pat ++ after) pat = true).
    now rewrite IH, orb_true_r.
Qed.

Lemma includes_elim s pat :
  includes s pat = true -> exists before after, s = (before ++ pat ++ after)%string.
Proof.
  induction s as [|c s IH].
  - unfold includes. rewrite orb_false_r. intros H. apply prefix_append in H as [after H].
    now exists EmptyString, after.
  - change (prefix pat (String c s) || includes s pat = true -> 
            exists before after, String c s = (before ++ pat ++ after)%string).
    intros H. apply orb_true_iff in H as [H|H].
    + apply prefix_append in H as [after H]. now exists EmptyString, after.
    + destruct (IH H) as (before & after & ->). now exists (String c before), after.
Qed.

(** What occurs in the trimmed line occurs in the line. *)
Lemma includes_trim l pat : includes (trim l) pat = true -> includes l pat = true.
Proof.
  intros H. apply includes_elim in H as (before & after & H).
  destruct (trimStart_suffix l) as [w1 H1].
  destruct (trimEnd_prefix (trimStart l)) as [w2 H2].
  unfold trim in H. rewrite H in H2. rewrite H2 in H1. rewrite H1.
  rewrite !append_assoc. rewrite <- append_assoc. apply includes_intro.
Qed.

Lemma latch_at_block_end before header body1 ifline body2 endline after :
  Forall (fun l => closes_block l = false) before \/
  Forall (fun l => test combAlwaysRegex (trim l) = false) before ->
  opens_block header = true ->
  Forall (fun l => body_line l = true) (body1 ++ ifline :: body2) ->
  includes ifline "if" = true ->
  List.length body2 < 20 ->
  closes_block endline = true ->
  Forall (fun l => test combAlwaysRegex (trim l) = false) after ->
  of_rule "inferred_latch"
    (checkCombinationalLogic
       (before ++ header :: (body1 ++ ifline :: body2) ++ endline :: after)) =
  [inferred_latch (List.length before + 1 + List.length (body1 ++ ifline :: body2))].
Proof.
  intros Hbefore Hopen Hbody Hif Hlen Hclose Hafter.
  set (lines := before ++ header :: (body1 ++ ifline :: body2) ++ endline :: after).
  unfold checkCombinationalLogic, forEach.
  unfold lines at 2. rewrite forEach_from_app. cbn [forEach_from].
  rewrite forEach_from_app. cbn [forEach_from].
  set (s0 := forEach_from (comb_step lines) before 0 comb_init).
  assert (H0 : of_rule "inferred_latch" (issues s0) = []).
  { unfold s0. destruct Hbefore as [Hbefore|Hbefore].
    - now rewrite comb_run_no_end.
    - now rewrite comb_run_outside. }
  unfold opens_block in Hopen. apply andb_true_iff in Hopen as [Htest Hhead].
  unfold body_line in Hhead.
  apply andb_true_iff in Hhead as [Hhead Hdef]. apply andb_true_iff in Hhead as [Hend Helse].
  apply negb_true_iff in Hend, Helse, Hdef.
  destruct (comb_step_inside lines s0 header (0 + List.length before) Hend)
    as (E1 & E2 & E3 & E4).
  rewrite Htest in E2, E3, E4. rewrite Helse in E3. rewrite Hdef in E4. cbn [orb] in E2.
  set (s1 := comb_step lines s0 header (0 + List.length before)) in *.
  destruct (comb_run_body lines _ (S (0 + List.length before)) s1 Hbody E2 E3 E4)
    as (F1 & F2 & F3 & F4).
  set (s2 := forEach_from (comb_step lines) (body1 ++ ifline :: body2)
                          (S (0 + List.length before)) s1) in *.
  set (k := S (0 + List.length before) + List.length (body1 ++ ifline :: body2)).
  assert (Hsome : some (fun l => includes l "if") (slice lines (Nat.max 0 (k - 20)) k) = true).
  { unfold some. apply existsb_exists. exists ifline. split; [|exact Hif].
    apply (slice_In lines _ _ (List.length before + 1 + List.length body1)).
    - unfold k. rewrite length_app. cbn [List.length]. lia.
    - unfold lines. rewrite nth_error_app2 by lia.
      replace (List.length before + 1 + List.length body1 - List.length before)
        with (S (List.length body1)) by lia.
      cbn [nth_error]. rewrite <- app_assoc. rewrite nth_error_app2 by lia.
      now rewrite Nat.sub_diag. }
  destruct (comb_step_end lines s2 endline k Hclose F2 F3 F4 Hsome) as (G1 & G2).
  rewrite comb_run_outside by assumption.
  rewrite G1, F1, E1, H0. cbn [app]. f_equal. f_equal. unfold k. lia.
Qed.

Lemma no_latch_from_cdc lines :
  of_rule "inferred_latch" (checkClockDomainCrossing lines) = [].
Proof.
  unfold checkClockDomainCrossing, forEach.
  apply (forEach_from_invariant (fun s => of_rule "inferred_latch" s = []) (fun _ => True));
    [|apply Forall_forall; trivial | reflexivity].
  intros s x i _ Hs. other_rule of_rule_app.
Qed.

Lemma no_latch_from_style lines :
  of_rule "inferred_latch" (checkCodingStyle lines) = [].
Proof.
  unfold checkCodingStyle, forEach.
  apply (forEach_from_invariant
           (fun s => of_rule "inferred_latch" (style_issues s) = []) (fun _ => True));
    [|apply Forall_forall; trivial | reflexivity].
  intros s x i _ Hs. unfold style_step. cbn [style_issues]. other_rule of_rule_app.
Qed.

Lemma no_latch_from_resources lines :
  of_rule "inferred_latch" (checkResourceOptimization lines) = [].
Proof.
  unfold checkResourceOptimization, forEach.
  apply (forEach_from_invariant (fun s => of_rule "inferred_latch" s = []) (fun _ => True));
    [|apply Forall_forall; trivial | reflexivity].
  intros s x i _ Hs. other_rule of_rule_app.
Qed.

Lemma no_latch_from_attributes lines :
  of_rule "inferred_latch" (checkSynthesisAttributes lines) = [].
Proof.
  unfold checkSynthesisAttributes, forEach.
  apply (forEach_from_invariant (fun s => of_rule "inferred_latch" s = []) (fun _ => True));
    [|apply Forall_forall; trivial | reflexivity].
  intros s x i _ Hs. other_rule of_rule_app.
Qed.

(** The latch findings of the linter are those of [checkCombinationalLogic]. *)
Lemma lint_latch_issues code :
  of_rule "inferred_latch" (lint_issues (lintVerilogCode code)) =
  of_rule "inferred_latch" (checkCombinationalLogic (split LF code)).
Proof.
  unfold lintVerilogCode. cbn [lint_issues]. rewrite !of_rule_app.
  rewrite no_latch_from_cdc, no_latch_from_style, no_latch_from_resources,
    no_latch_from_attributes.
  now rewrite app_nil_r.
Qed.

(** X22: let a text hold a line that opens a combinational block, an
    [always] whose list starts with a star, then lines that are not [end]
    alone and hold neither
    [else] nor [default], among them the statement [if (sel) out = a;],
    then a line that is [end] alone, with fewer than 20 lines between the
    statement and that line.  When the lines before the block either
    hold no line that is [end] alone or open no combinational block, and
    the lines after it open none, the linter returns exactly one finding
    of the rule inferred_latch, on the line of that [end]. *)
Theorem inferred_latch_at_end code before header body1 ifline body2 endline after :
  split LF code = before ++ header :: (body1 ++ ifline :: body2) ++ endline :: after ->
  Forall (fun l => closes_block l = false) before \/
  Forall (fun l => test combAlwaysRegex (trim l) = false) before ->
  opens_block header = true ->
  Forall (fun l => body_line l = true) body1 ->
  trim ifline = "if (sel) out = a;" ->
  Forall (fun l => body_line l = true) body2 ->
  List.length body2 < 20 ->
  closes_block endline = true ->
  Forall (fun l => test combAlwaysRegex (trim l) = false) after ->
  exists finding,
    of_rule "inferred_latch" (lint_issues (lintVerilogCode code)) = [finding] /\
    nth_error (split LF code) (line finding - 1) = Some endline /\
    line finding = List.length before + List.length body1 + List.length body2 + 3.
Proof.
  intros Hcode Hbefore Hopen Hb1 Hif Hb2 Hlen Hclose Hafter.
  exists (inferred_latch (List.length before + 1 + List.length (body1 ++ ifline :: body2))).
  assert (Hbody : body_line ifline = true) by (unfold body_line; now rewrite Hif).
  assert (Hinc : includes ifline "if" = true) by (apply includes_trim; now rewrite Hif).
  split; [|split].
  - rewrite lint_latch_issues, Hcode. apply latch_at_block_end; try assumption.
    apply Forall_app. split; [assumption | now constructor].
  - rewrite Hcode. cbn [line inferred_latch].
    rewrite nth_error_app2 by lia.
    replace (List.length before + 1 + List.length (body1 ++ ifline :: body2) + 1 - 1
             - List.length before)
      with (S (List.length (body1 ++ ifline :: body2))) by lia.
    cbn [nth_error]. rewrite nth_error_app2 by lia. now rewrite Nat.sub_diag.
  - cbn [line inferred_latch]. rewrite length_app. cbn [List.length]. lia.
Qed.

Lemma inferred_latch_at_end_example :
  exists finding,
    of_rule "inferred_latch" (lint_issues (lintVerilogCode sequential_then_latch)) = [finding] /\
    nth_error (split LF sequential_then_latch) (line finding - 1) = Some "end" /\
    line finding = 3 + 0 + 0 + 3.
Proof.
  apply (inferred_latch_at_end sequential_then_latch
           ["always @(posedge clk) begin"; "  q <= d;"; "end"]
           "always @(*) begin" [] "  if (sel) out = a;" [] "end" []);
    first [ reflexivity
          | right; repeat constructor
          | apply Forall_nil
          | (cbn [List.length]; lia) ].
Defined.


End LinterFacts.


(* ================================================================== *)
(** ** The estimators *)

Module EstimatorFacts.
Import JsString JsNumber FPGACalculations EstimatorCases.
Local Open Scope float_scope.

Lemma get_own {A : Type} (table : list (string * A)) key v :
  lookup table key = Some v -> get table key = Own v.
Proof. intros H. unfold get. now rewrite H. Qed.

Lemma get_undefined {A : Type} (table : list (string * A)) key :
  lookup table key = None -> inherited key = false -> get table key = Undefined.
Proof. intros H Hi. unfold get. unfold inherited in Hi. now rewrite H, Hi. Qed.

Lemma get_inherited {A : Type} (table : list (string * A)) key :
  lookup table key = None -> inherited key = true -> get table key = Inherited.
Proof. intros H Hi. unfold get. unfold inherited in Hi. now rewrite H, Hi. Qed.

Lemma get_pattern_own inherited_has this component architecture profile :
  find_pattern this component architecture = Some profile ->
  get_pattern inherited_has this component architecture = Own profile.
Proof.
  unfold find_pattern, get_pattern. intros H.
  destruct (lookup (designPatterns this) component) as [patterns|] eqn:E;
    [|discriminate H].
  rewrite (get_own _ _ _ E). now apply get_own.
Qed.

Lemma get_pattern_unlisted inherited_has this component architecture :
  unlisted this component architecture = true ->
  get_pattern inherited_has this component architecture = Undefined.
Proof.
  unfold unlisted, get_pattern. intros H.
  destruct (lookup (designPatterns this) component) as [patterns|] eqn:E.
  - rewrite (get_own _ _ _ E).
    destruct (lookup patterns architecture) eqn:Ea; [discriminate H|].
    apply get_undefined; [exact Ea | now apply negb_true_iff].
  - rewrite get_undefined; [reflexivity | exact E | now apply negb_true_iff].
Qed.

Lemma get_pattern_inherited inherited_has this component architecture :
  inherited_architecture this component architecture = true ->
  get_pattern inherited_has this component architecture = Inherited.
Proof.
  unfold inherited_architecture, get_pattern. intros H.
  destruct (lookup (designPatterns this) component) as [patterns|] eqn:E;
    [|discriminate H].
  rewrite (get_own _ _ _ E).
  destruct (lookup patterns architecture) eqn:Ea; [discriminate H|].
  now apply get_inherited.
Qed.

Lemma calculateTiming_unknown_device Math_log2 host_pow inherited_has this cfg :
  get (deviceSpecs this) (default (device cfg) "Artix-7") = Undefined ->
  calculateTiming Math_log2 host_pow inherited_has this cfg =
  Throw ("Timing calculation failed: Unsupported device: "
         ++ default (device cfg) "Artix-7")%string.
Proof. intros H. unfold calculateTiming. rewrite H. reflexivity. Qed.

Lemma calculatePower_unknown_device host_pow this cfg :
  get (deviceSpecs this) (default (device cfg) "Artix-7") = Undefined ->
  calculatePower host_pow this cfg =
  Throw ("Power calculation failed: Unsupported device: "
         ++ default (device cfg) "Artix-7")%string.
Proof. intros H. unfold calculatePower. rewrite H. reflexivity. Qed.

Lemma calculatePower_returns host_pow this cfg deviceSpec :
  truthy_spec (get (deviceSpecs this) (default (device cfg) "Artix-7")) = Some deviceSpec ->
  exists r, calculatePower host_pow this cfg = Return r.
Proof. intros H. unfold calculatePower. rewrite H. eexists. reflexivity. Qed.

(** The call on a profile of the catalog. *)
Lemma calculateTiming_profile Math_log2 host_pow inherited_has this cfg deviceSpec profile :
  truthy_spec (get (deviceSpecs this) (default (device cfg) "Artix-7")) = Some deviceSpec ->
  get_pattern inherited_has this (cfg_component cfg) (cfg_architecture cfg) = Own profile ->
  exists r,
    calculateTiming Math_log2 host_pow inherited_has this cfg = Return r /\
    follows_from host_pow cfg deviceSpec (profile_delay Math_log2 cfg profile) r.
Proof.
  intros Hdev Hp. unfold calculateTiming. rewrite Hdev.
  unfold cfg_component, cfg_architecture in Hp. rewrite Hp.
  eexists. split; [reflexivity|].
  unfold follows_from, spec_max_frequency, spec_total_delay, spec_temp_factor,
    spec_routing_delay, profile_delay, cfg_component, cfg_width.
  cbn [logic_delay routing_delay total_delay timing_max_frequency].
  repeat split.
Qed.

(** The call on the generic fallback. *)
Lemma calculateTiming_fallback Math_log2 host_pow inherited_has this cfg deviceSpec :
  truthy_spec (get (deviceSpecs this) (default (device cfg) "Artix-7")) = Some deviceSpec ->
  get_pattern inherited_has this (cfg_component cfg) (cfg_architecture cfg) = Undefined ->
  exists r,
    calculateTiming Math_log2 host_pow inherited_has this cfg = Return r /\
    follows_from host_pow cfg deviceSpec (fallback_delay Math_log2 cfg deviceSpec) r.
Proof.
  intros Hdev Hp. unfold calculateTiming. rewrite Hdev.
  unfold cfg_component, cfg_architecture in Hp. rewrite Hp.
  eexists. split; [reflexivity|].
  unfold follows_from, spec_max_frequency, spec_total_delay, spec_temp_factor,
    spec_routing_delay, fallback_delay, cfg_width.
  cbn [logic_delay routing_delay total_delay timing_max_frequency].
  repeat split.
Qed.

(** The call on a value that is no profile. *)
Lemma calculateTiming_no_function Math_log2 host_pow inherited_has this cfg deviceSpec :
  truthy_spec (get (deviceSpecs this) (default (device cfg) "Artix-7")) = Some deviceSpec ->
  get_pattern inherited_has this (cfg_component cfg) (cfg_architecture cfg) = Inherited ->
  calculateTiming Math_log2 host_pow inherited_has this cfg =
  Rethrow "Timing calculation failed: " "pattern.delay_formula".
Proof.
  intros Hdev Hp. unfold calculateTiming. rewrite Hdev.
  unfold cfg_component, cfg_architecture in Hp. rewrite Hp. reflexivity.
Qed.

(** C1: for the device name "Nonexistent-9000", which the catalog does
    not hold, [calculateTiming] and [calculatePower] raise the
    unsupported-device error, while [calculateResources], which never
    reads the device, returns a record with every field filled in. *)
Theorem unknown_device_estimates :
  let cfg := design (Some "Nonexistent-9000") None None None in
  known_device constructor "Nonexistent-9000" = false /\
  (forall Math_log2 host_pow inherited_has,
     calculateTiming Math_log2 host_pow inherited_has constructor cfg =
     Throw "Timing calculation failed: Unsupported device: Nonexistent-9000") /\
  (forall host_pow,
     calculatePower host_pow constructor cfg =
     Throw "Power calculation failed: Unsupported device: Nonexistent-9000") /\
  (forall inherited_has,
     calculateResources inherited_has constructor cfg =
     Return {| luts := 8; ffs := 9; brams := 0; dsps := 0; ios := 19;
               total_equivalent_luts := 13 |}).
Proof.
  intros cfg. split; [reflexivity|]. split; [|split].
  - intros. now rewrite calculateTiming_unknown_device.
  - intros. now rewrite calculatePower_unknown_device.
  - intros. vm_compute. reflexivity.
Qed.

(** C3, the statement of the specification fails: at width 32 a
    multiplier with no architecture takes the generic path, with 64 LUTs
    and no DSP; each architecture of the catalog gives 2 DSPs and more
    than 64 LUTs. *)
Lemma multiplier_generic_fallback :
  (forall inherited_has,
     calculateResources inherited_has constructor
       (design None (Some "multiplier") None (Some 32)) =
     Return {| luts := 64; ffs := 32; brams := 0; dsps := 0; ios := 67;
               total_equivalent_luts := 80 |}) /\
  Forall (fun architecture =>
            forall inherited_has,
            exists r,
              calculateResources inherited_has constructor
                (design None (Some "multiplier") (Some architecture) (Some 32)) = Return r /\
              (dsps r =? 2) = true /\ (64 <? luts r) = true)
         multiplier_architectures.
Proof.
  split; [intros; vm_compute; reflexivity|].
  repeat constructor; intros; eexists; (split; [vm_compute; reflexivity|]); split; reflexivity.
Qed.

Lemma multiplier_reduced_range inherited_has :
  forallb (fun architecture =>
             forallb (multiplier_reduced inherited_has architecture) (seq 8 1017))
          multiplier_architectures = true.
Proof. vm_compute. reflexivity. Qed.

(** C5, as the code has it, for a device that is an own key of the
    catalog.  With a profile of the catalog for the component and the
    architecture, the logic delay is the profile's formula (of depth and
    width for a memory with a depth, of the width otherwise); with
    nothing found for the pair, own or inherited, it is the LUT delay
    times the caller's [logic_levels], or times [ceil(log2(width))] when
    the caller gives none.  Routing delay, total delay and maximum
    frequency follow from the unrounded logic delay by the stated
    formulas, and the fields returned are their roundings, to 3 decimals
    for the delays and to 1 for the frequency.  When the architecture
    names a member that the component's table inherits, the call throws
    with the message of the TypeError; when the component itself names an
    inherited member, the host decides between that and the fallback. *)
Theorem calculateTiming_formula Math_log2 host_pow inherited_has this cfg deviceSpec :
  lookup (deviceSpecs this) (default (device cfg) "Artix-7") = Some deviceSpec ->
  let component := cfg_component cfg in
  let architecture := cfg_architecture cfg in
  let result := calculateTiming Math_log2 host_pow inherited_has this cfg in
  let failure : FPGACalculations.result Timing :=
    Rethrow "Timing calculation failed: " "pattern.delay_formula" in
  (forall profile,
     find_pattern this component architecture = Some profile ->
     exists r, result = Return r /\
               follows_from host_pow cfg deviceSpec (profile_delay Math_log2 cfg profile) r) /\
  (unlisted this component architecture = true ->
   exists r, result = Return r /\
             follows_from host_pow cfg deviceSpec (fallback_delay Math_log2 cfg deviceSpec) r) /\
  (inherited_architecture this component architecture = true -> result = failure) /\
  (lookup (designPatterns this) component = None -> inherited component = true ->
   if inherited_has component architecture then result = failure
   else exists r, result = Return r /\
                  follows_from host_pow cfg deviceSpec
                               (fallback_delay Math_log2 cfg deviceSpec) r).
Proof.
  intros Hdev component architecture result failure.
  assert (Hspec : truthy_spec (get (deviceSpecs this) (default (device cfg) "Artix-7"))
                  = Some deviceSpec) by (now rewrite (get_own _ _ _ Hdev)).
  split; [|split; [|split]].
  - intros profile Hp. apply calculateTiming_profile; [exact Hspec|].
    now apply get_pattern_own.
  - intros Hu. apply calculateTiming_fallback; [exact Hspec|].
    now apply get_pattern_unlisted.
  - intros Hi. apply (calculateTiming_no_function _ _ _ _ _ deviceSpec); [exact Hspec|].
    now apply get_pattern_inherited.
  - intros Hc Hi.
    assert (Hg : get_pattern inherited_has this component architecture =
                 if inherited_has component architecture then Inherited else Undefined).
    { unfold get_pattern. now rewrite (get_inherited _ _ Hc Hi). }
    destruct (inherited_has component architecture).
    + now apply (calculateTiming_no_function _ _ _ _ _ deviceSpec).
    + now apply calculateTiming_fallback.
Qed.

(** C3, as the code has it: for a multiplier of width at least 8 whose
    architecture is one of the catalog's three, the DSP count is
    [ceil(ceil(width / 18) * instances)] and the LUT count is the
    architecture's own formula times 0.3, rounded up; for every integer
    width from 8 to 1024 that is [ceil(width / 18)] DSPs, at least one,
    and fewer LUTs than the architecture's formula gives. *)
Theorem multiplier_uses_dsp inherited_has cfg architecture w :
  component cfg = Some "multiplier" ->
  FPGACalculations.architecture cfg = Some architecture ->
  In architecture multiplier_architectures ->
  width cfg = Some w -> (8 <=? w) = true ->
  (exists pattern r,
     find_pattern constructor "multiplier" architecture = Some pattern /\
     calculateResources inherited_has constructor cfg = Return r /\
     dsps r = Math_ceil (Math_ceil (w / 18) * default (instances cfg) 1) /\
     luts r = Math_ceil (lut_usage pattern w nan * 0.3 * default (instances cfg) 1)) /\
  (forall n, 8 <= n <= 1024 -> multiplier_reduced inherited_has architecture n = true).
Proof.
  intros Hc Ha Hin Hw H8. split.
  - unfold calculateResources. rewrite Hc, Ha, Hw. cbn [default].
    assert (Hm : memory_with_depth "multiplier" (depth cfg) = false) by reflexivity.
    destruct Hin as [<-|[<-|[<-|[]]]];
      (eexists; eexists; split; [reflexivity|]);
      match goal with
      | |- context [get_pattern _ _ _ ?a] =>
          rewrite (get_pattern_own inherited_has constructor "multiplier" a _ eq_refl)
      end;
      rewrite Hm; change (String.eqb "multiplier" "multiplier") with true; rewrite H8;
      cbn [andb]; (split; [reflexivity|]); split; reflexivity.
  - intros n Hn. pose proof (multiplier_reduced_range inherited_has) as H.
    rewrite forallb_forall in H. specialize (H architecture Hin).
    rewrite forallb_forall in H. apply H. apply in_seq. lia.
Qed.

Lemma multiplier_uses_dsp_width_32 :
  (exists pattern r,
     find_pattern constructor "multiplier" "array" = Some pattern /\
     calculateResources (fun _ _ => false) constructor
       (design None (Some "multiplier") (Some "array") (Some 32)) = Return r /\
     dsps r = Math_ceil (Math_ceil (32 / 18) * 1) /\
     luts r = Math_ceil (lut_usage pattern 32 nan * 0.3 * 1)) /\
  (forall n, 8 <= n <= 1024 -> multiplier_reduced (fun _ _ => false) "array" n = true).
Proof.
  exact (multiplier_uses_dsp (fun _ _ => false)
           (design None (Some "multiplier") (Some "array") (Some 32))
           "array" 32 eq_refl eq_refl (or_introl eq_refl) eq_refl eq_refl).
Defined.

(** On the defaults the roundings are exact; on "Kintex-7" at width 3
    they are not: the routing delay 0.4125 is returned as 0.413, the
    total delay 0.7875 as 0.788, and the frequency is the device's 500. *)
Lemma calculateTiming_formula_default :
  (exists r,
     calculateTiming (fun _ => 3) (fun _ _ => 1) (fun _ _ => false) constructor
       (design None None None None) = Return r /\
     logic_delay r = 1 /\ routing_delay r = 1.2 /\ total_delay r = 2.2 /\
     timing_max_frequency r = 450) /\
  (exists r,
     calculateTiming (fun _ => 3) (fun _ _ => 1) (fun _ _ => false) constructor
       (design (Some "Kintex-7") None None (Some 3)) = Return r /\
     logic_delay r = 0.375 /\ routing_delay r = 0.413 /\ total_delay r = 0.788 /\
     timing_max_frequency r = 500).
Proof.
  split.
  - destruct (calculateTiming_formula (fun _ => 3) (fun _ _ => 1) (fun _ _ => false)
                constructor (design None None None None) _ eq_refl)
      as (H & _).
    destruct (H _ eq_refl) as (r & Hr & Hl & Hrt & Ht & Hf).
    exists r. split; [exact Hr|]. rewrite Hl, Hrt, Ht, Hf.
    repeat split; vm_compute; reflexivity.
  - destruct (calculateTiming_formula (fun _ => 3) (fun _ _ => 1) (fun _ _ => false)
                constructor (design (Some "Kintex-7") None None (Some 3)) _ eq_refl)
      as (H & _).
    destruct (H _ eq_refl) as (r & Hr & Hl & Hrt & Ht & Hf).
    exists r. split; [exact Hr|]. rewrite Hl, Hrt, Ht, Hf.
    repeat split; vm_compute; reflexivity.
Defined.

(** C5, the statement of the specification fails: the catalog has no
    profile for a component "fir_filter", and with [logic_levels] 5 in
    the configuration the logic delay returned is not
    [ceil(log2(width))] times the LUT delay, whatever the host's
    [Math.pow] and however its [Math.log2] rounds elsewhere. *)
Lemma logic_levels_override :
  ~ exists Math_log2 host_pow inherited_has r,
      Math_log2 8 = 3 /\
      calculateTiming Math_log2 host_pow inherited_has constructor
        (with_logic_levels (design None (Some "fir_filter") None None) 5) = Return r /\
      logic_delay r = toFixed 3 (Math_ceil (Math_log2 8) * 0.124).
Proof.
  intros (Math_log2 & host_pow & inherited_has & r & H8 & Hr & Hd).
  destruct (calculateTiming_fallback Math_log2 host_pow inherited_has constructor
              (with_logic_levels (design None (Some "fir_filter") None None) 5) _
              eq_refl eq_refl)
    as (r' & Hr' & Hl & _).
  rewrite Hr in Hr'. injection Hr' as <-. rewrite Hl, H8 in Hd.
  apply (f_equal (fun x => x <? 0.5)) in Hd. vm_compute in Hd. discriminate Hd.
Qed.

(** C6: on "Artix-7" with every other parameter at its default, the
    total delay of a ripple-carry adder is 2.2, 4.4 and 8.8 for the widths
    8, 16 and 32, strictly increasing, on every host. *)
Theorem ripple_carry_delay_increasing Math_log2 host_pow inherited_has :
  exists r8 r16 r32,
    calculateTiming Math_log2 host_pow inherited_has constructor
      (design (Some "Artix-7") (Some "adder") (Some "ripple_carry") (Some 8)) = Return r8 /\
    calculateTiming Math_log2 host_pow inherited_has constructor
      (design (Some "Artix-7") (Some "adder") (Some "ripple_carry") (Some 16)) = Return r16 /\
    calculateTiming Math_log2 host_pow inherited_has constructor
      (design (Some "Artix-7") (Some "adder") (Some "ripple_carry") (Some 32)) = Return r32 /\
    total_delay r8 = 2.2 /\ total_delay r16 = 4.4 /\ total_delay r32 = 8.8 /\
    (total_delay r8 <? total_delay r16) = true /\
    (total_delay r16 <? total_delay r32) = true.
Proof.
  destruct (calculateTiming_profile Math_log2 host_pow inherited_has constructor
              (design (Some "Artix-7") (Some "adder") (Some "ripple_carry") (Some 8))
              _ _ eq_refl eq_refl)
    as (r8 & H8 & _ & _ & T8 & _).
  destruct (calculateTiming_profile Math_log2 host_pow inherited_has constructor
              (design (Some "Artix-7") (Some "adder") (Some "ripple_carry") (Some 16))
              _ _ eq_refl eq_refl)
    as (r16 & H16 & _ & _ & T16 & _).
  destruct (calculateTiming_profile Math_log2 host_pow inherited_has constructor
              (design (Some "Artix-7") (Some "adder") (Some "ripple_carry") (Some 32))
              _ _ eq_refl eq_refl)
    as (r32 & H32 & _ & _ & T32 & _).
  exists r8, r16, r32. rewrite T8, T16, T32.
  repeat split; try assumption; vm_compute; reflexivity.
Qed.

End EstimatorFacts.

(* ================================================================== *)
(** ** The parser on every text: validation, statistics, lines, delimiters, comments *)

Module ParserInvariantFacts.
Import JsString Regex VerilogParser StringDefs StringFacts RegexFacts PortFamily
       ModuleFamily ParserCases PortFacts ModuleFacts CommentFacts SyntaxBalance
       ParserInvariants.

(** *** validateModule *)

Lemma includes_endmodule code :
  includes code "endmodule" = true -> includes code "module" = true.
Proof.
  rewrite !includes_contains. intros (before & after & ->).
  exists (before ++ "end")%string, after. now rewrite append_assoc.
Qed.

(** X1: a text is valid exactly when it holds "endmodule"; the error for a
    missing module declaration never comes alone, since a text without
    "module" has no "endmodule" either. *)
Theorem validateModule_verdict code :
  isValid (validateModule code) = includes code "endmodule" /\
  (contains code "endmodule" <-> errors (validateModule code) = []) /\
  (errors (validateModule code) = [] \/
   errors (validateModule code) = ["Missing endmodule statement"] \/
   errors (validateModule code) =
     ["Missing module declaration"; "Missing endmodule statement"]).
Proof.
  rewrite <- includes_contains. unfold validateModule.
  pose proof (includes_endmodule code) as Hm.
  destruct (includes code "endmodule"), (includes code "module");
    try (specialize (Hm eq_refl); discriminate Hm);
    cbn [negb isValid errors warnings app];
    destruct (match exec moduleHeaderRegex code with Some _ => _ | None => _ end);
    cbn [isValid errors];
    (split; [reflexivity|]); (split; [split; intros H; first [reflexivity | discriminate H]|]);
    auto.
Qed.

(** *** generateStatistics *)

Lemma filter_length_le {A : Type} (p q : A -> bool) (l : list A) :
  (forall x, p x = true -> q x = true) ->
  List.length (filter p l) <= List.length (filter q l) <= List.length l.
Proof.
  intros H. induction l as [|x l IH]; cbn [filter]; [cbn; lia|].
  specialize (H x). destruct (p x), (q x); cbn [List.length];
    try (specialize (H eq_refl); discriminate H); lia.
Qed.

(** X2: the lines are split three ways: a comment line is not blank, so the
    count of code lines is not negative, and code, comment and blank
    lines add up to all the lines. *)
Theorem statistics_partition lines tokens :
  let s := generateStatistics lines tokens in
  (0 <= code_lines s)%Z /\
  comment_lines s + blank_lines s <= total_lines s /\
  (code_lines s + Z.of_nat (comment_lines s) + Z.of_nat (blank_lines s)
   = Z.of_nat (total_lines s))%Z.
Proof.
  cbv zeta. unfold generateStatistics.
  cbn [code_lines comment_lines blank_lines total_lines].
  pose proof (filter_length_le
                (fun line => startsWith (trim line) "//")
                (fun line => 0 <? String.length (trim line)) lines) as H.
  assert (Hpq : forall x, startsWith (trim x) "//" = true ->
                          (0 <? String.length (trim x)) = true).
  { intros x Hx. unfold startsWith in Hx. destruct (trim x) as [|c t]; [discriminate Hx|].
    reflexivity. }
  specialize (H Hpq). lia.
Qed.

(** *** findLineNumber *)

Lemma count_char_substring c n s :
  count_char c (substring 0 n s) <= count_char c s.
Proof.
  revert n. induction s as [|d s IH]; intros n; destruct n as [|n]; cbn [substring count_char];
    try lia.
  specialize (IH n). lia.
Qed.

Lemma count_char_substring_mono c n m s :
  n <= m -> count_char c (substring 0 n s) <= count_char c (substring 0 m s).
Proof.
  revert n m. induction s as [|d s IH]; intros n m Hnm.
  - destruct n, m; cbn; lia.
  - destruct n as [|n]; destruct m as [|m]; cbn [substring count_char]; try lia.
    specialize (IH n m). lia.
Qed.

Lemma findLineNumber_range code position :
  1 <= findLineNumber code position <= List.length (split LF code).
Proof.
  unfold findLineNumber. rewrite !split_length.
  pose proof (count_char_substring LF position code). lia.
Qed.

(** X3: the line of a position is one more than the line feeds before it:
    it starts at 1, never exceeds the number of lines and grows with the
    position. *)
Theorem findLineNumber_bounds code position :
  findLineNumber code position = S (count_char LF (substring 0 position code)) /\
  1 <= findLineNumber code position <= List.length (split LF code) /\
  (forall later, position <= later ->
                 findLineNumber code position <= findLineNumber code later).
Proof.
  split; [unfold findLineNumber; now rewrite split_length|].
  split; [apply findLineNumber_range|].
  intros later Hl. unfold findLineNumber. rewrite !split_length.
  pose proof (count_char_substring_mono LF position later code Hl). lia.
Qed.

(** *** checkSyntax *)

Lemma of_type_app name l1 l2 : of_type name (l1 ++ l2) = of_type name l1 ++ of_type name l2.
Proof. apply filter_app. Qed.

Lemma check_lines_bracket lines index b errors :
  bracketCount (fst (check_lines lines index b errors)) =
  (bracketCount b + sum_lines bracket_balance lines)%Z.
Proof.
  revert index b errors. induction lines as [|l lines IH]; intros index b errors.
  - cbn. lia.
  - cbn [check_lines sum_lines]. rewrite IH. unfold count_delimiters.
    cbn [bracketCount]. unfold count_of, bracket_balance. rewrite !count_matches_char. lia.
Qed.

Lemma bracket_balance_lines code :
  sum_lines bracket_balance (split LF code) = bracket_balance code.
Proof.
  unfold bracket_balance at 2.
  rewrite <- !count_char_lines by reflexivity.
  rewrite <- sum_lines_sub. reflexivity.
Qed.

Lemma line_errors_types name lineNum line next :
  name = "unbalanced_parentheses" \/ name = "unbalanced_brackets" ->
  of_type name (line_errors lineNum line next) = [].
Proof.
  intros [-> | ->]; unfold line_errors;
    destruct (missing_semicolon line), (incomplete_if line next); reflexivity.
Qed.

Lemma check_lines_types name lines index b errors :
  name = "unbalanced_parentheses" \/ name = "unbalanced_brackets" ->
  of_type name (snd (check_lines lines index b errors)) = of_type name errors.
Proof.
  intros Hn. revert index b errors.
  induction lines as [|l lines IH]; intros index b errors; [reflexivity|].
  cbn [check_lines]. rewrite IH, of_type_app, line_errors_types by exact Hn.
  apply app_nil_r.
Qed.


(** X4: the syntax check reports unbalanced parentheses exactly when the
    text has more of one kind than of the other, once, with the
    difference; and the same for brackets. *)
Theorem delimiter_findings code :
  of_type "unbalanced_parentheses" (checkSyntax code) =
    (if (paren_balance code =? 0)%Z then []
     else [unbalanced_parentheses (paren_balance code)]) /\
  of_type "unbalanced_brackets" (checkSyntax code) =
    (if (bracket_balance code =? 0)%Z then []
     else [unbalanced_brackets (bracket_balance code)]).
Proof.
  unfold checkSyntax.
  pose proof (check_lines_paren (split LF code) 0
                {| parenCount := 0; bracketCount := 0; beginCount := 0 |} []) as Hp.
  pose proof (check_lines_bracket (split LF code) 0
                {| parenCount := 0; bracketCount := 0; beginCount := 0 |} []) as Hb.
  pose proof (fun name H => check_lines_types name (split LF code) 0
                {| parenCount := 0; bracketCount := 0; beginCount := 0 |} [] H) as Ht.
  destruct (check_lines (split LF code) 0 _ []) as [b errors].
  cbn [fst snd parenCount bracketCount] in Hp, Hb, Ht.
  rewrite paren_balance_lines in Hp. rewrite bracket_balance_lines in Hb.
  rewrite !of_type_app, !Ht by auto. cbn [of_type filter app].
  unfold balance_errors. rewrite Hp, Hb, !Z.add_0_l.
  unfold unbalanced_parentheses, unbalanced_brackets, imbalance.
  destruct (paren_balance code =? 0)%Z, (bracket_balance code =? 0)%Z,
    (beginCount b =? 0)%Z; cbn [negb app of_type filter error_type String.eqb Ascii.eqb
                                  Bool.eqb];
    rewrite ?append_assoc; split; reflexivity.
Qed.

(** *** removeComments *)

Lemma prefix_no_char c w t :
  count_char c t = 0 -> prefix (String c w) t = false.
Proof.
  destruct t as [|d t]; [reflexivity|]. cbn [count_char]. rewrite prefix_cons.
  rewrite (Ascii.eqb_sym c d). destruct (Ascii.eqb d c); [discriminate | reflexivity].
Qed.

Lemma match_at_no_char c w r p i t :
  count_char c t = 0 -> match_at (Seq (Lit (String c w)) r) p i t = None.
Proof.
  intros H. unfold match_at. rewrite run_Seq_eq, run_Lit_fail; [reflexivity|].
  cbn [rest]. now apply prefix_no_char.
Qed.

Lemma remove_all_from_no_char c w r p i t :
  count_char c t = 0 -> remove_all_from (Seq (Lit (String c w)) r) p i t 0 = t.
Proof.
  revert p i. induction t as [|d t IH]; intros p i H.
  - cbn [remove_all_from]. now rewrite match_at_no_char.
  - cbn [remove_all_from]. rewrite match_at_no_char by exact H.
    cbn [count_char] in H. rewrite IH; [reflexivity|].
    destruct (Ascii.eqb d c); [discriminate H | exact H].
Qed.

(** X5: a text without a slash has no comment: it is returned as it is. *)
Theorem removeComments_no_slash code :
  count_char SLASH code = 0 -> removeComments code = code.
Proof.
  intros H. unfold removeComments, remove_all, lineCommentRegex, blockCommentRegex.
  change (Seqs [Lit "//"; star (Char dot); Eol true])
    with (Seq (Lit (String SLASH "/")) (Seq (star (Char dot)) (Eol true))).
  change (Seqs [Lit "/*"; lazy_star (Char any_char); Lit "*/"])
    with (Seq (Lit (String SLASH "*")) (Seq (lazy_star (Char any_char)) (Lit "*/"))).
  rewrite (remove_all_from_no_char SLASH "/" _ None 0 code H).
  exact (remove_all_from_no_char SLASH "*" _ None 0 code H).
Qed.

Lemma removeComments_no_slash_example :
  removeComments "assign y = a & b;" = "assign y = a & b;".
Proof. exact (removeComments_no_slash "assign y = a & b;" eq_refl). Defined.

(** *** extractSignalsFromBlock *)

Lemma array_includes_In l x : array_includes l x = true <-> In x l.
Proof.
  unfold array_includes. rewrite existsb_exists. split.
  - intros (y & Hy & E). apply String.eqb_eq in E. now subst.
  - intros H. exists x. split; [exact H | apply String.eqb_refl].
Qed.

Lemma unique_from_spec seen signals :
  NoDup (unique_from seen signals) /\
  forall x, In x (unique_from seen signals) <-> In x signals /\ ~ In x seen.
Proof.
  revert seen. induction signals as [|s signals IH]; intros seen.
  - split; [constructor | cbn; tauto].
  - cbn [unique_from]. destruct (array_includes seen s) eqn:E.
    + destruct (IH seen) as [Hn Hi]. split; [exact Hn|].
      intros x. rewrite Hi. apply array_includes_In in E. cbn [In].
      split; [tauto|]. intros [[<-|H] Hs]; [contradiction | tauto].
    + destruct (IH (s :: seen)) as [Hn Hi]. split.
      * constructor; [|exact Hn]. rewrite Hi. cbn [In]. tauto.
      * assert (Hs : ~ In s seen).
        { intros H. apply array_includes_In in H. rewrite H in E. discriminate E. }
        intros x. cbn [In]. rewrite Hi. cbn [In].
        destruct (string_dec s x) as [<-|Hne]; tauto.
Qed.

(** X6: the signals of a block are returned once each: the list has no
    duplicates and holds exactly the names the assignments of the block
    give; an operation other than "read" and "write" gives none. *)
Theorem extractSignalsFromBlock_unique block operation :
  NoDup (extractSignalsFromBlock block operation) /\
  (forall x, In x (extractSignalsFromBlock block "write") <->
             In x (map (group_text 1) (exec_all writeRegex block))) /\
  (forall x, In x (extractSignalsFromBlock block "read") <->
             exists m, In m (exec_all readRegex block) /\
                       In x (map matched (exec_all identifierRegex (group_text 1 m)))) /\
  (operation <> "read" -> operation <> "write" ->
   extractSignalsFromBlock block operation = []).
Proof.
  unfold extractSignalsFromBlock, unique. split; [apply unique_from_spec|].
  split; [|split].
  - intros x. change (String.eqb "write" "read") with false.
    change (String.eqb "write" "write") with true. cbv iota.
    destruct (unique_from_spec [] (map (group_text 1) (exec_all writeRegex block))) as [_ H].
    rewrite H. cbn [In]. tauto.
  - intros x. change (String.eqb "read" "read") with true. cbv iota.
    match goal with |- In x (unique_from [] ?l) <-> _ =>
      destruct (unique_from_spec [] l) as [_ H] end.
    rewrite H, in_flat_map. cbn [In]. tauto.
  - intros Hr Hw. apply String.eqb_neq in Hr, Hw. now rewrite Hr, Hw.
Qed.

End ParserInvariantFacts.


(* ================================================================== *)
(** ** The parser: edge cases of the findings and of ranges *)

Module ParserEdgeFacts.
Import JsString JsNumber Regex VerilogParser StringDefs StringFacts RegexFacts PortFamily
       ModuleFamily ParserCases PortFacts ModuleFacts CommentFacts SyntaxBalance
       ParserInvariants ParserInvariantFacts.

Lemma parseInt_decimal_range :
  forallb (fun n => Leibniz.eqb (parseInt (decimal n)) (of_nat n)) (seq 0 256) = true.
Proof. vm_compute. reflexivity. Qed.

Lemma parseInt_decimal n : n <= 255 -> parseInt (decimal n) = of_nat n.
Proof.
  intros Hn. pose proof parseInt_decimal_range as H. rewrite forallb_forall in H.
  apply Leibniz.eqb_spec, H, in_seq. lia.
Qed.

Lemma ascending_width_range :
  forallb (fun b => forallb (fun a => of_nat a - of_nat b + 1 <=? 0)%float (seq 0 b))
          (seq 0 256) = true.
Proof. vm_compute. reflexivity. Qed.

(** X7: a range written with the smaller bound first, as in [[0:7]], is read
    as [msb:lsb] all the same: for decimal bounds up to 255 the port is
    returned with the bounds as written and a width of zero or less. *)
Theorem ascending_range_width d a b :
  decl_ok d = true -> decl_range d = Some (decimal a, decimal b) ->
  a < b <= 255 ->
  exists port,
    extractPorts (decl_line d ++ "endmodule") = [port] /\
    port_name port = decl_name d /\
    port_msb port = of_nat a /\
    port_lsb port = of_nat b /\
    port_width port = (of_nat a - of_nat b + 1)%float /\
    (port_width port <=? 0)%float = true.
Proof.
  intros Hd Hr Hlt.
  assert (Hok : forallb decl_ok [d] = true) by (cbn [forallb]; now rewrite Hd).
  exists (expected_port 1 d).
  split.
  - unfold extractPorts, exec_all.
    pose proof (scan_decls [d] EmptyString None Hok) as Hs.
    cbn [decl_lines String.length] in Hs. rewrite append_nil_r in Hs. rewrite Hs.
    pose proof (decl_ports (decl_line d ++ "endmodule") EmptyString "endmodule" [d] Hok) as Hp.
    cbn [decl_lines append count_char expected_ports] in Hp.
    rewrite append_nil_r in Hp. apply Hp. reflexivity.
  - unfold expected_port, decl_width. rewrite Hr.
    cbn [port_name port_width port_msb port_lsb].
    rewrite !parseInt_decimal by lia. repeat split.
    pose proof ascending_width_range as H. rewrite forallb_forall in H.
    specialize (H b). rewrite forallb_forall in H.
    apply H; apply in_seq; lia.
Qed.

Lemma ascending_range_width_example :
  exists port,
    extractPorts (decl_line ascending_decl ++ "endmodule") = [port] /\
    port_name port = "data" /\
    port_msb port = 0%float /\
    port_lsb port = 7%float /\
    port_width port = (0 - 7 + 1)%float /\
    (port_width port <=? 0)%float = true.
Proof.
  apply (ascending_range_width ascending_decl 0 7); [reflexivity | reflexivity | lia].
Defined.

(** What holds of a finding of the syntax check on a text of [n] lines. *)
Lemma line_errors_located n lineNum line next :
  1 <= lineNum <= n ->
  Forall (fun e => exists k, error_line e = Some k /\ 1 <= k <= n /\
                             In (error_type e) ["missing_semicolon"; "incomplete_if"])
         (line_errors lineNum line next).
Proof.
  intros H. unfold line_errors.
  destruct (missing_semicolon line), (incomplete_if line next); cbn [app];
    repeat constructor; exists lineNum; cbn; auto.
Qed.

Lemma check_lines_located n lines index b errors :
  index + List.length lines <= n ->
  Forall (fun e => exists k, error_line e = Some k /\ 1 <= k <= n /\
                             In (error_type e) ["missing_semicolon"; "incomplete_if"])
         errors ->
  Forall (fun e => exists k, error_line e = Some k /\ 1 <= k <= n /\
                             In (error_type e) ["missing_semicolon"; "incomplete_if"])
         (snd (check_lines lines index b errors)).
Proof.
  revert index b errors. induction lines as [|l lines IH]; intros index b errors Hn He.
  - exact He.
  - cbn [check_lines]. cbn [List.length] in Hn. apply IH; [lia|].
    apply Forall_app. split; [exact He|]. apply line_errors_located. lia.
Qed.

(** X8: a finding of the syntax check either names a line of the text, and
    is then a missing semicolon or an incomplete [if], or names no line,
    and is then one of the three imbalances, each reported at most
    once and after the findings with a line. *)
Theorem syntax_findings_located code :
  exists located balance,
    checkSyntax code = located ++ balance /\
    Forall (fun e => exists k, error_line e = Some k /\
                               1 <= k <= List.length (split LF code) /\
                               In (error_type e) ["missing_semicolon"; "incomplete_if"])
           located /\
    Forall (fun e => error_line e = None) balance /\
    exists parens brackets blocks,
      map error_type balance = parens ++ brackets ++ blocks /\
      (parens = [] \/ parens = ["unbalanced_parentheses"]) /\
      (brackets = [] \/ brackets = ["unbalanced_brackets"]) /\
      (blocks = [] \/ blocks = ["unbalanced_begin_end"]).
Proof.
  unfold checkSyntax.
  pose proof (check_lines_located (List.length (split LF code)) (split LF code) 0
                {| parenCount := 0; bracketCount := 0; beginCount := 0 |} []
                (le_n _) (Forall_nil _)) as H.
  destruct (check_lines (split LF code) 0 _ []) as [b errors]. cbn [snd] in H.
  exists errors, (balance_errors b). split; [reflexivity|]. split; [exact H|].
  unfold balance_errors.
  destruct (parenCount b =? 0)%Z, (bracketCount b =? 0)%Z, (beginCount b =? 0)%Z;
    cbn [negb app map error_type]; (split; [repeat constructor|]);
    match goal with
    | |- exists _ _ _, ?l = _ /\ _ =>
        first
          [ exists [], [], []; cbn [app]; split; [reflexivity|]; now auto
          | exists [], [], ["unbalanced_begin_end"]; cbn [app]; split; [reflexivity|]; now auto
          | exists [], ["unbalanced_brackets"], []; cbn [app]; split; [reflexivity|]; now auto
          | exists [], ["unbalanced_brackets"], ["unbalanced_begin_end"]; cbn [app];
            split; [reflexivity|]; now auto
          | exists ["unbalanced_parentheses"], [], []; cbn [app]; split; [reflexivity|];
            now auto
          | exists ["unbalanced_parentheses"], [], ["unbalanced_begin_end"]; cbn [app];
            split; [reflexivity|]; now auto
          | exists ["unbalanced_parentheses"], ["unbalanced_brackets"], []; cbn [app];
            split; [reflexivity|]; now auto
          | exists ["unbalanced_parentheses"], ["unbalanced_brackets"],
              ["unbalanced_begin_end"]; cbn [app]; split; [reflexivity|]; now auto ]
    end.
Qed.

End ParserEdgeFacts.


(* ================================================================== *)
(** ** Soundness of the matcher, and of ports and signals *)

Module MatchSoundness.
Import JsString JsNumber Regex VerilogParser StringDefs StringFacts RegexFacts PortFamily
       ModuleFamily ParserCases PortFacts ModuleFacts MatchRelation ParserInvariants
       ParserInvariantFacts.

Lemma star_loop_matches g r k res :
  (forall k s res, run r k s = Some res -> exists s', matches r s s' /\ k s' = Some res) ->
  forall fuel s,
    star_loop g (run r) k fuel s = Some res ->
    exists s', matches (Star g r) s s' /\ k s' = Some res.
Proof.
  intros Hr. induction fuel as [|fuel IH]; intros s H; cbn [star_loop] in H.
  - exists s. split; [constructor | exact H].
  - assert (Hagain :
              run r (fun s' => if pos s <? pos s' then star_loop g (run r) k fuel s' else None) s
              = Some res -> exists s', matches (Star g r) s s' /\ k s' = Some res).
    { intros E. apply Hr in E as (s1 & M1 & E).
      destruct (pos s <? pos s1); [|discriminate E].
      apply IH in E as (s2 & M2 & E). exists s2. split; [|exact E].
      eapply matches_Star_again; eassumption. }
    destruct g.
    + destruct (run r _ s) as [x|] eqn:E.
      * injection H as <-. now apply Hagain.
      * exists s. split; [constructor | exact H].
    + destruct (k s) as [x|] eqn:E.
      * injection H as <-. exists s. split; [constructor | exact E].
      * now apply Hagain.
Qed.

(** What the matcher finds, the pattern can read. *)
Lemma run_matches r :
  forall k s res, run r k s = Some res -> exists s', matches r s s' /\ k s' = Some res.
Proof.
  induction r as [|p|r1 IH1 r2 IH2|r1 IH1 r2 IH2|g r IH|n r IH|m|m|];
    intros k s res H; cbn [run] in H.
  - exists s. split; [constructor | exact H].
  - destruct (rest s) as [|c t] eqn:E; [discriminate H|].
    destruct (p c) eqn:Ep; [|discriminate H].
    eexists. split; [|exact H]. now constructor.
  - apply IH1 in H as (s1 & M1 & H). apply IH2 in H as (s2 & M2 & H).
    exists s2. split; [|exact H]. econstructor; eassumption.
  - destruct (run r1 k s) as [x|] eqn:E.
    + injection H as <-. apply IH1 in E as (s' & M & E).
      exists s'. split; [|exact E]. now apply matches_Alt_left.
    + apply IH2 in H as (s' & M & H).
      exists s'. split; [|exact H]. now apply matches_Alt_right.
  - eapply star_loop_matches; eassumption.
  - apply IH in H as (s' & M & H).
    exists (capture n s s'). split; [|exact H]. now constructor.
  - destruct (at_bol m s) eqn:E; [|discriminate H].
    exists s. split; [|exact H]. now constructor.
  - destruct (at_eol m s) eqn:E; [|discriminate H].
    exists s. split; [|exact H]. now constructor.
  - destruct (at_word_boundary s) eqn:E; [|discriminate H].
    exists s. split; [|exact H]. now constructor.
Qed.

Lemma match_at_matches r p i text m :
  match_at r p i text = Some m ->
  exists s', matches r (MState p i text []) s' /\ groups m = caps s' /\ index m = i.
Proof.
  unfold match_at. destruct (run r _ _) as [s'|] eqn:E; [|discriminate].
  intros H. injection H as <-. apply run_matches in E as (s1 & M & E).
  injection E as <-. exists s1. now repeat split.
Qed.

(** Every match of a global search is a match at some position. *)
Lemma exec_all_from_matches r text :
  forall p i skip m,
    In m (exec_all_from r p i text skip) ->
    exists p' i' text', match_at r p' i' text' = Some m.
Proof.
  induction text as [|c t IH]; intros p i skip m H.
  - destruct skip; cbn [exec_all_from] in H; [|contradiction].
    destruct (match_at r p i EmptyString) as [m0|] eqn:E; [|contradiction].
    destruct H as [<-|[]]. now exists p, i, EmptyString.
  - destruct skip; cbn [exec_all_from] in H.
    + destruct (match_at r p i (String c t)) as [m0|] eqn:E.
      * destruct H as [<-|H]; [now exists p, i, (String c t)|]. now apply IH in H.
      * now apply IH in H.
    + now apply IH in H.
Qed.

Lemma matches_Seq_inv r1 r2 s s' :
  matches (Seq r1 r2) s s' -> exists s1, matches r1 s s1 /\ matches r2 s1 s'.
Proof. intros H. inversion H; subst. eauto. Qed.

Lemma matches_Alt_inv r1 r2 s s' :
  matches (Alt r1 r2) s s' -> matches r1 s s' \/ matches r2 s s'.
Proof. intros H. inversion H; subst; auto. Qed.

Lemma matches_Group_inv n r s s' :
  matches (Group n r) s s' -> exists s0, matches r s s0 /\ s' = capture n s s0.
Proof. intros H. inversion H; subst. eauto. Qed.

Lemma matches_Empty_inv s s' : matches Empty s s' -> s' = s.
Proof. intros H. now inversion H. Qed.

Lemma matches_Char_inv p s s' :
  matches (Char p) s s' ->
  exists c t, rest s = String c t /\ p c = true /\
              s' = MState (Some c) (S (pos s)) t (caps s).
Proof. intros H. inversion H; subst. eauto. Qed.

(** A pattern without groups leaves the captures as they are. *)
Lemma matches_caps_free r s s' :
  matches r s s' -> groups_of r = [] -> caps s' = caps s.
Proof.
  induction 1 as [s|p s c t E Hp|r1 r2 s s1 s2 _ IH1 _ IH2|r1 r2 s s' _ IH|r1 r2 s s' _ IH
                 |g r s|g r s s1 s2 _ IH1 _ IH2|n r s s' _ IH|m s E|m s E|s E];
    cbn [groups_of]; intros Hg; try reflexivity.
  - apply app_eq_nil in Hg as [H1 H2]. now rewrite IH2, IH1.
  - apply app_eq_nil in Hg as [H1 H2]. now apply IH.
  - apply app_eq_nil in Hg as [H1 H2]. now apply IH.
  - now rewrite IH2, IH1.
  - discriminate Hg.
Qed.

(** A literal reads itself. *)
Lemma matches_Lit w :
  forall s s', matches (Lit w) s s' ->
               rest s = (w ++ rest s')%string /\ pos s' = pos s + String.length w /\
               caps s' = caps s.
Proof.
  induction w as [|c w IH]; intros s s' H.
  - apply matches_Empty_inv in H. subst. cbn. now rewrite Nat.add_0_r.
  - destruct w as [|d w].
    + cbn [Lit] in H. unfold Chr in H.
      apply matches_Char_inv in H as (x & t & E & Hx & ->).
      apply Ascii.eqb_eq in Hx. subst x. cbn [rest pos caps append String.length].
      repeat split; [exact E | lia].
    + change (Lit (String c (String d w))) with (Seq (Chr c) (Lit (String d w))) in H.
      apply matches_Seq_inv in H as (s1 & H1 & H2). unfold Chr in H1.
      apply matches_Char_inv in H1 as (x & t & E & Hx & ->).
      apply Ascii.eqb_eq in Hx. subst x.
      apply IH in H2 as (E2 & P2 & C2). cbn [rest pos caps] in E2, P2, C2.
      rewrite E, E2, P2, C2. cbn [append String.length]. repeat split. lia.
Qed.

Lemma consumed_Lit w s s' : matches (Lit w) s s' -> consumed s s' = w.
Proof.
  intros H. apply matches_Lit in H as (E & P & _). unfold consumed.
  rewrite E, P. replace (pos s + String.length w - pos s) with (String.length w) by lia.
  apply substring_append.
Qed.

(** The captures of the optional range: both bounds or none. *)
Lemma rangeRegex_caps s s' :
  matches rangeRegex s s' ->
  caps s' = caps s \/ exists msb lsb, caps s' = (3, lsb) :: (2, msb) :: caps s.
Proof.
  unfold rangeRegex, Opt. cbn [Seqs]. intros H.
  apply matches_Alt_inv in H as [H|H]; [|left; now apply matches_Empty_inv in H; subst].
  right.
  apply matches_Seq_inv in H as (s1 & H1 & H).
  apply matches_Seq_inv in H as (s2 & H2 & H).
  apply matches_Seq_inv in H as (s3 & H3 & H).
  apply matches_Seq_inv in H as (s4 & H4 & H).
  apply matches_Seq_inv in H as (s5 & H5 & H).
  apply matches_Seq_inv in H as (s6 & H6 & H).
  apply matches_Seq_inv in H as (s7 & H7 & H).
  apply matches_Seq_inv in H as (s8 & H8 & H9).
  apply matches_caps_free in H1, H2, H4, H5, H6, H8, H9; try reflexivity.
  apply matches_Group_inv in H3 as (a & Ha & ->).
  apply matches_Group_inv in H7 as (b & Hb & ->).
  apply matches_caps_free in Ha, Hb; try reflexivity.
  cbn [capture caps] in *.
  eexists _, _. rewrite H9, H8, Hb, H6, H5, H4, Ha, H2, H1. reflexivity.
Qed.

(** The captures of a declaration pattern: the keyword as group 1, then
    both bounds or none, then the names as group 4. *)
Lemma declaration_caps keyword s s' :
  matches (Seqs [Group 1 keyword; star ws; rangeRegex; star ws; namesRegex]) s s' ->
  exists s0 names,
    matches keyword s s0 /\
    reads_names names /\
    (caps s' = (4, names) :: (1, consumed s s0) :: caps s0 \/
     exists msb lsb,
       caps s' = (4, names) :: (3, lsb) :: (2, msb) :: (1, consumed s s0) :: caps s0).
Proof.
  cbn [Seqs]. intros H.
  apply matches_Seq_inv in H as (s1 & H1 & H).
  apply matches_Seq_inv in H as (s2 & H2 & H).
  apply matches_Seq_inv in H as (s3 & H3 & H).
  apply matches_Seq_inv in H as (s4 & H4 & H5).
  apply matches_Group_inv in H1 as (s0 & H0 & ->).
  apply matches_caps_free in H2, H4; try reflexivity.
  unfold namesRegex in H5. apply matches_Group_inv in H5 as (s5 & H5 & ->).
  exists s0, (consumed s4 s5). split; [exact H0|].
  split; [exists s4, s5; now split|].
  apply matches_caps_free in H5; [|reflexivity].
  cbn [capture caps] in *. fold (consumed s s0) in *. fold (consumed s4 s5).
  rewrite H5, H4.
  destruct (rangeRegex_caps _ _ H3) as [E|(msb & lsb & E)]; rewrite E, H2.
  - now left.
  - right. now exists msb, lsb.
Qed.

Lemma port_keyword s s0 :
  matches (Alts [Lit "input"; Lit "output"; Lit "inout"]) s s0 ->
  In (consumed s s0) ["input"; "output"; "inout"] /\ caps s0 = caps s.
Proof.
  cbn [Alts]. intros H.
  apply matches_Alt_inv in H as [H|H]; [|apply matches_Alt_inv in H as [H|H]];
    (split; [rewrite (consumed_Lit _ _ _ H); cbn; auto
            | now apply matches_Lit in H as (_ & _ & H)]).
Qed.

Lemma signal_keyword s s0 :
  matches (Alts [Lit "wire"; Lit "reg"]) s s0 ->
  In (consumed s s0) ["wire"; "reg"] /\ caps s0 = caps s.
Proof.
  cbn [Alts]. intros H.
  apply matches_Alt_inv in H as [H|H];
    (split; [rewrite (consumed_Lit _ _ _ H); cbn; auto
            | now apply matches_Lit in H as (_ & _ & H)]).
Qed.

(** The groups of a match of a declaration pattern. *)
Lemma declaration_groups keyword kinds r p i text m :
  r = Seqs [Group 1 keyword; star ws; rangeRegex; star ws; namesRegex] ->
  (forall s s0, matches keyword s s0 -> In (consumed s s0) kinds /\ caps s0 = caps s) ->
  match_at r p i text = Some m ->
  In (group_text 1 m) kinds /\
  range_width (group 2 m) (group 3 m)
  = (range_bound (group 2 m) - range_bound (group 3 m) + 1)%float.
Proof.
  intros -> Hk Hm. apply match_at_matches in Hm as (s' & M & G & _).
  apply declaration_caps in M as (s0 & names & M0 & _ & C).
  apply Hk in M0 as (Hin & C0). cbn [caps] in C0. rewrite C0 in C.
  unfold group_text, group. rewrite G.
  destruct C as [-> | (msb & lsb & ->)]; cbn [assoc_nat Nat.eqb range_width range_bound];
    (split; [exact Hin | reflexivity]).
Qed.

(** X9: whatever the text, a port returned has one of the three directions,
    a line of the text, and the width its two bounds give in the
    arithmetic of Numbers (1 for the bounds 0 and 0 of a port without a
    range). *)
Theorem extractPorts_sound code port :
  In port (extractPorts code) ->
  In (port_direction port) ["input"; "output"; "inout"] /\
  1 <= port_line port <= List.length (split LF code) /\
  port_width port = (port_msb port - port_lsb port + 1)%float.
Proof.
  unfold extractPorts. rewrite in_flat_map. intros (m & Hm & Hp).
  apply in_map_iff in Hp as (portName & <- & _).
  cbn [port_direction port_line port_width port_msb port_lsb].
  apply exec_all_from_matches in Hm as (p' & i' & text' & Hm).
  destruct (declaration_groups _ _ portRegex p' i' text' m eq_refl port_keyword Hm)
    as [Hd Hw].
  split; [exact Hd|]. split; [|exact Hw].
  apply findLineNumber_range.
Qed.

Lemma extractPorts_sound_example :
  In "output" ["input"; "output"; "inout"] /\
  1 <= 1 <= List.length (split LF "output [7:0] q;") /\
  8%float = (7 - 0 + 1)%float.
Proof.
  apply (extractPorts_sound "output [7:0] q;"
           {| port_name := "q"; port_direction := "output"; port_width := 8;
              port_msb := 7; port_lsb := 0; port_line := 1 |}).
  vm_compute. left. reflexivity.
Defined.

(** X10: whatever the text, a signal returned is a wire or a reg, on a line
    of the text, with the width its two bounds give in the arithmetic of
    Numbers. *)
Theorem extractSignals_sound code signal :
  In signal (extractSignals code) ->
  In (signal_type signal) ["wire"; "reg"] /\
  1 <= signal_line signal <= List.length (split LF code) /\
  signal_width signal = (signal_msb signal - signal_lsb signal + 1)%float.
Proof.
  unfold extractSignals. rewrite in_flat_map. intros (m & Hm & Hp).
  apply in_map_iff in Hp as (signalName & <- & _).
  cbn [signal_type signal_line signal_width signal_msb signal_lsb].
  apply exec_all_from_matches in Hm as (p' & i' & text' & Hm).
  destruct (declaration_groups _ _ signalRegex p' i' text' m eq_refl signal_keyword Hm)
    as [Hd Hw].
  split; [exact Hd|]. split; [|exact Hw].
  apply findLineNumber_range.
Qed.

Lemma extractSignals_sound_example :
  In "reg" ["wire"; "reg"] /\
  1 <= 1 <= List.length (split LF "reg [3:0] count;") /\
  4%float = (3 - 0 + 1)%float.
Proof.
  apply (extractSignals_sound "reg [3:0] count;"
           {| signal_name := "count"; signal_type := "reg"; signal_width := 4;
              signal_msb := 3; signal_lsb := 0; signal_line := 1 |}).
  vm_compute. left. reflexivity.
Defined.

End MatchSoundness.

(* ================================================================== *)
(** ** The parser on malformed text *)

Module ParserTotality.
Import JsString JsNumber Regex VerilogParser StringDefs StringFacts RegexFacts PortFamily
       ModuleFamily ParserCases PortFacts ModuleFacts MatchRelation ParserInvariants
       SyntaxBalance ParserInvariantFacts MatchSoundness.







End ParserTotality.



(* ================================================================== *)
(** ** The name list of a declaration *)

Module NameFacts.
Import JsString Regex VerilogParser StringDefs StringFacts RegexFacts PortFamily
       ModuleFamily ParserCases PortFacts ModuleFacts MatchRelation ParserInvariants
       ParserInvariantFacts MatchSoundness.

(** A pattern reads a piece of the text and moves on by its length. *)
Lemma matches_reads r s s' :
  matches r s s' ->
  exists w, rest s = (w ++ rest s')%string /\ pos s' = pos s + String.length w.
Proof.
  induction 1 as [s|p s c t E Hp|r1 r2 s s1 s2 _ IH1 _ IH2|r1 r2 s s' _ IH|r1 r2 s s' _ IH
                 |g r s|g r s s1 s2 _ IH1 _ IH2|n r s s' _ IH|m s E|m s E|s E];
    try (exists EmptyString; cbn; split; [reflexivity | lia]); try exact IH.
  - exists (String c EmptyString). cbn. split; [exact E | lia].
  - destruct IH1 as (w1 & E1 & P1), IH2 as (w2 & E2 & P2).
    exists (w1 ++ w2)%string. rewrite append_assoc, <- E2, length_append. split; [exact E1 | lia].
  - destruct IH1 as (w1 & E1 & P1), IH2 as (w2 & E2 & P2).
    exists (w1 ++ w2)%string. rewrite append_assoc, <- E2, length_append. split; [exact E1 | lia].
Qed.

Lemma consumed_reads s s' w :
  rest s = (w ++ rest s')%string -> pos s' = pos s + String.length w -> consumed s s' = w.
Proof.
  intros E P. unfold consumed. rewrite E, P.
  replace (pos s + String.length w - pos s) with (String.length w) by lia.
  apply substring_append.
Qed.

Lemma append_cancel_r (a b t : string) : (a ++ t = b ++ t)%string -> a = b.
Proof.
  revert b. induction a as [|c a IH]; intros b H; destruct b as [|d b]; cbn [append] in H.
  - reflexivity.
  - apply (f_equal String.length) in H. cbn [String.length] in H.
    rewrite length_append in H. lia.
  - apply (f_equal String.length) in H. cbn [String.length] in H.
    rewrite length_append in H. lia.
  - injection H as -> H. f_equal. now apply IH.
Qed.

(** A repeated class reads characters of the class. *)
Lemma matches_star_class p g s s' :
  matches (Star g (Char p)) s s' ->
  exists w, all_chars p w = true /\ rest s = (w ++ rest s')%string.
Proof.
  intros H. remember (Star g (Char p)) as r eqn:Er.
  induction H as [s|q s c t E Hp|r1 r2 s s1 s2 _ IH1 _ IH2|r1 r2 s s' _ IH|r1 r2 s s' _ IH
                 |g' r s|g' r s s1 s2 H1 _ _ IH2|n r s s' _ IH|m s E|m s E|s E];
    try discriminate Er.
  - exists EmptyString. now split.
  - injection Er as -> ->. destruct (IH2 eq_refl) as (w & Hw & E2).
    apply matches_Char_inv in H1 as (c & t & E & Hc & ->). cbn [rest] in E2.
    exists (String c w). cbn [all_chars append]. rewrite Hc, Hw, E, E2. now split.
Qed.

Lemma matches_plus_class p s s' :
  matches (Plus (Char p)) s s' ->
  exists c w, p c = true /\ all_chars p w = true /\ rest s = (String c w ++ rest s')%string.
Proof.
  unfold Plus. intros H. apply matches_Seq_inv in H as (s1 & H1 & H2).
  apply matches_Char_inv in H1 as (c & t & E & Hc & ->).
  apply matches_star_class in H2 as (w & Hw & E2). cbn [rest] in E2.
  exists c, w. cbn [append]. rewrite E, E2. now repeat split.
Qed.

(** The items after the first name. *)
Lemma matches_items s s' :
  matches (Star true (Seqs [Star true (Char is_space); Lit ",";
                            Star true (Char is_space); Plus (Char is_word)])) s s' ->
  exists items, forallb item_ok items = true /\
                rest s = (items_text items ++ rest s')%string.
Proof.
  intros H.
  remember (Star true (Seqs [Star true (Char is_space); Lit ",";
                             Star true (Char is_space); Plus (Char is_word)])) as r eqn:Er.
  induction H as [s|q s c t E Hp|r1 r2 s s1 s2 _ IH1 _ IH2|r1 r2 s s' _ IH|r1 r2 s s' _ IH
                 |g' r s|g' r s s1 s2 H1 _ _ IH2|n r s s' _ IH|m s E|m s E|s E];
    try discriminate Er.
  - exists []. now split.
  - injection Er as -> ->. destruct (IH2 eq_refl) as (items & Hi & E2).
    cbn [Seqs] in H1.
    apply matches_Seq_inv in H1 as (a & Ha & H1).
    apply matches_Seq_inv in H1 as (b & Hb & H1).
    apply matches_Seq_inv in H1 as (c & Hc & Hd).
    apply matches_star_class in Ha as (before & Hbefore & Ea).
    apply (matches_Lit ",") in Hb as (Eb & _ & _).
    apply matches_star_class in Hc as (after & Hafter & Ec).
    apply matches_plus_class in Hd as (x & name & Hx & Hname & Ed).
    exists ((before, after, String x name) :: items). split.
    + cbn [forallb item_ok]. unfold blanks. rewrite Hbefore, Hafter, Hi. cbn.
      now rewrite Hx, Hname.
    + cbn [items_text]. rewrite Ea, Eb, Ec, Ed, E2. now rewrite !append_assoc.
Qed.

Lemma reads_names_shape names :
  reads_names names ->
  exists first items,
    word first = true /\ forallb item_ok items = true /\
    names = (first ++ items_text items)%string.
Proof.
  intros (s & s' & H & ->).
  destruct (matches_reads _ _ _ H) as (w & Ew & Pw).
  rewrite (consumed_reads _ _ _ Ew Pw).
  apply matches_Seq_inv in H as (s1 & H1 & H2).
  apply matches_plus_class in H1 as (c & first & Hc & Hfirst & E1).
  apply matches_items in H2 as (items & Hi & E2).
  exists (String c first), items. split; [|split; [exact Hi|]].
  - unfold word. cbn. now rewrite Hc, Hfirst.
  - rewrite E2, <- append_assoc in E1. rewrite Ew in E1. now apply append_cancel_r in E1.
Qed.

End NameFacts.


(* ================================================================== *)
(** ** Names of ports and signals *)

Module NameTheorems.
Import JsString Regex VerilogParser StringDefs StringFacts RegexFacts PortFamily
       ModuleFamily ParserCases PortFacts ModuleFacts CommentFacts MatchRelation
       ParserInvariants ParserInvariantFacts MatchSoundness NameFacts.

Lemma count_char_class (p : ascii -> bool) (c : ascii) (s : string) :
  all_chars p s = true -> p c = false -> count_char c s = 0.
Proof.
  intros Hs Hc. induction s as [|x s IH]; [reflexivity|].
  cbn in Hs. apply andb_true_iff in Hs as [Hx Hs]. cbn.
  rewrite Ascii.eqb_sym, (class_disjoint p x c Hx Hc). now apply IH.
Qed.

Lemma split_at_sep sep l rest :
  count_char sep l = 0 -> split sep (l ++ String sep rest) = l :: split sep rest.
Proof.
  induction l as [|c l IH]; cbn [append count_char split].
  - intros _. now rewrite Ascii.eqb_refl.
  - destruct (Ascii.eqb c sep) eqn:E; [discriminate|]. intros H.
    now rewrite (IH H).
Qed.

Lemma item_ok_parts before after name :
  item_ok (before, after, name) = true ->
  blanks before = true /\ blanks after = true /\ word name = true.
Proof.
  unfold item_ok, word. rewrite !andb_true_iff. tauto.
Qed.

Lemma word_no_comma w : word w = true -> count_char COMMA w = 0.
Proof.
  intros H. apply count_char_class with (p := is_word); [|reflexivity].
  unfold word in H. now apply andb_true_iff in H as [_ H].
Qed.

Lemma blanks_no_comma b : blanks b = true -> count_char COMMA b = 0.
Proof. intros H. now apply count_char_class with (p := is_space). Qed.

(** The name list falls into its pieces at the commas. *)
Lemma split_pieces items :
  forall first,
    forallb item_ok items = true -> count_char COMMA first = 0 ->
    split COMMA (first ++ items_text items) = pieces first items.
Proof.
  induction items as [|[[before after] name] items IH]; intros first Hi Hf.
  - cbn [items_text pieces]. rewrite append_nil_r. now apply split_no_sep.
  - cbn [forallb] in Hi. apply andb_true_iff in Hi as [Hitem Hi].
    apply item_ok_parts in Hitem as (Hb & Ha & Hn).
    cbn [items_text pieces].
    replace (first ++ before ++ "," ++ after ++ name ++ items_text items)%string
      with ((first ++ before) ++ String COMMA ((after ++ name) ++ items_text items))%string
      by (rewrite !append_assoc; reflexivity).
    rewrite split_at_sep.
    + f_equal. apply IH; [exact Hi|].
      rewrite count_char_app, (blanks_no_comma _ Ha), (word_no_comma _ Hn). reflexivity.
    + rewrite count_char_app, Hf, (blanks_no_comma _ Hb). reflexivity.
Qed.

Lemma trimStart_blanks b x : blanks b = true -> trimStart (b ++ x) = trimStart x.
Proof.
  induction b as [|c b IH]; [reflexivity|]. unfold blanks. cbn [all_chars append trimStart].
  rewrite andb_true_iff. intros [Hc Hb]. rewrite Hc. now apply IH.
Qed.

Lemma trimEnd_blanks a : blanks a = true -> trimEnd a = EmptyString.
Proof.
  induction a as [|c a IH]; [reflexivity|]. unfold blanks. cbn [all_chars trimEnd].
  rewrite andb_true_iff. intros [Hc Ha]. rewrite (IH Ha). now rewrite Hc.
Qed.

Lemma trimEnd_app_blanks x a : blanks a = true -> trimEnd (x ++ a) = trimEnd x.
Proof.
  intros Ha. induction x as [|c x IH]; cbn [append].
  - now apply trimEnd_blanks.
  - cbn [trimEnd]. now rewrite IH.
Qed.

(** A word between blanks is what [trim] leaves. *)
Lemma trim_padded b w a :
  blanks b = true -> word w = true -> blanks a = true -> trim (b ++ w ++ a) = w.
Proof.
  intros Hb Hw Ha. unfold trim. rewrite trimStart_blanks by exact Hb.
  destruct (word_cons _ Hw) as (c & t & -> & Hc & Ht).
  cbn [append trimStart]. rewrite (is_word_not_space c Hc).
  change (String c (t ++ a)) with (String c t ++ a)%string.
  rewrite trimEnd_app_blanks by exact Ha.
  apply trimEnd_no_space. cbn [all_chars]. rewrite (is_word_not_space c Hc). cbn [negb andb].
  eapply all_chars_impl; [|exact Ht]. intros x Hx. now rewrite is_word_not_space.
Qed.

Lemma pieces_trim items :
  forall b w,
    blanks b = true -> word w = true -> forallb item_ok items = true ->
    Forall (fun piece => word (trim piece) = true) (pieces (b ++ w) items).
Proof.
  induction items as [|[[before after] name] items IH]; intros b w Hb Hw Hi.
  - cbn [pieces]. constructor; [|constructor].
    replace (b ++ w)%string with (b ++ w ++ EmptyString)%string by now rewrite append_nil_r.
    now rewrite trim_padded.
  - cbn [forallb] in Hi. apply andb_true_iff in Hi as [Hitem Hi].
    apply item_ok_parts in Hitem as (Hbefore & Hafter & Hname).
    cbn [pieces]. constructor.
    + rewrite append_assoc. now rewrite trim_padded.
    + now apply IH.
Qed.

Lemma reads_names_words names :
  reads_names names ->
  Forall (fun piece => word (trim piece) = true) (split COMMA names).
Proof.
  intros H. apply reads_names_shape in H as (first & items & Hf & Hi & ->).
  rewrite split_pieces; [|exact Hi | now apply word_no_comma].
  exact (pieces_trim items EmptyString first eq_refl Hf Hi).
Qed.

(** The name list of a match of a declaration pattern. *)
Lemma declaration_names keyword r p i text m :
  r = Seqs [Group 1 keyword; star ws; rangeRegex; star ws; namesRegex] ->
  match_at r p i text = Some m ->
  reads_names (group_text 4 m).
Proof.
  intros -> Hm. apply match_at_matches in Hm as (s' & M & G & _).
  apply declaration_caps in M as (s0 & names & _ & Hn & C).
  unfold group_text, group. rewrite G.
  destruct C as [-> | (msb & lsb & ->)]; exact Hn.
Qed.

(** X11: whatever the text, the name of a port or of a signal returned is a
    word: it is not empty and holds letters, digits and underscores
    only, the blanks around the commas of a name list being removed. *)
Theorem declared_names_are_words code :
  Forall (fun port => word (port_name port) = true) (extractPorts code) /\
  Forall (fun signal => word (signal_name signal) = true) (extractSignals code).
Proof.
  split; apply Forall_forall; intros x Hx.
  - unfold extractPorts in Hx. apply in_flat_map in Hx as (m & Hm & Hx).
    apply in_map_iff in Hx as (portName & <- & Hin). cbn [port_name].
    apply exec_all_from_matches in Hm as (p' & i' & text' & Hm).
    pose proof (reads_names_words _ (declaration_names _ portRegex p' i' text' m eq_refl Hm))
      as H.
    rewrite Forall_forall in H. now apply H.
  - unfold extractSignals in Hx. apply in_flat_map in Hx as (m & Hm & Hx).
    apply in_map_iff in Hx as (signalName & <- & Hin). cbn [signal_name].
    apply exec_all_from_matches in Hm as (p' & i' & text' & Hm).
    pose proof (reads_names_words _ (declaration_names _ signalRegex p' i' text' m eq_refl Hm))
      as H.
    rewrite Forall_forall in H. now apply H.
Qed.

End NameTheorems.


(* ================================================================== *)
(** ** The linter on every text: well-formed issues *)

Module LinterInvariantFacts.
Import JsString Regex JsArray VerilogSynthesisLinter StringDefs StringFacts
       LinterCases LinterInvariants LinterTactics LinterInvariantTactics LinterFacts.

(** The callback of a [forEach] is handed each element with its index. *)
Lemma forEach_from_indexed {A St : Type} (P : St -> Prop) (f : St -> A -> nat -> St)
      (all before l : list A) (s : St) :
  all = before ++ l ->
  (forall s x j, nth_error all j = Some x -> P s -> P (f s x j)) ->
  P s -> P (forEach_from f l (List.length before) s).
Proof.
  intros Hall Hf. revert before s Hall.
  induction l as [|x l IH]; intros before s Hall Hs; cbn [forEach_from].
  - exact Hs.
  - replace (S (List.length before)) with (List.length (before ++ [x]))
      by (rewrite length_app; cbn [List.length]; lia).
    apply IH.
    + rewrite Hall, <- app_assoc. reflexivity.
    + apply Hf; [|exact Hs]. rewrite Hall, nth_error_app2 by lia.
      now rewrite Nat.sub_diag.
Qed.

Lemma forEach_indexed {A St : Type} (P : St -> Prop) (f : St -> A -> nat -> St)
      (l : list A) (s : St) :
  (forall s x j, nth_error l j = Some x -> P s -> P (f s x j)) ->
  P s -> P (forEach f l s).
Proof.
  intros Hf Hs. unfold forEach.
  exact (forEach_from_indexed P f l [] l s eq_refl Hf Hs).
Qed.

Lemma cdc_well_formed lines :
  Forall (well_formed (List.length lines)) (checkClockDomainCrossing lines).
Proof.
  unfold checkClockDomainCrossing.
  apply (forEach_indexed (Forall (well_formed (List.length lines)))); [|constructor].
  intros s x j Hj Hs. issues_ok.
Qed.

Lemma comb_well_formed lines :
  Forall (well_formed (List.length lines)) (checkCombinationalLogic lines).
Proof.
  unfold checkCombinationalLogic.
  apply (forEach_indexed (fun st => Forall (well_formed (List.length lines)) (issues st)));
    [|constructor].
  intros s x j Hj Hs. unfold comb_step. issues_ok.
Qed.

Lemma style_well_formed lines :
  Forall (well_formed (List.length lines)) (checkCodingStyle lines).
Proof.
  unfold checkCodingStyle.
  apply (forEach_indexed
           (fun st => Forall (well_formed (List.length lines)) (style_issues st)));
    [|constructor].
  intros s x j Hj Hs. unfold style_step. issues_ok.
Qed.

Lemma resources_well_formed lines :
  Forall (well_formed (List.length lines)) (checkResourceOptimization lines).
Proof.
  unfold checkResourceOptimization.
  apply (forEach_indexed (Forall (well_formed (List.length lines)))); [|constructor].
  intros s x j Hj Hs. issues_ok.
Qed.

Lemma attributes_well_formed lines :
  Forall (well_formed (List.length lines)) (checkSynthesisAttributes lines).
Proof.
  unfold checkSynthesisAttributes.
  apply (forEach_indexed (Forall (well_formed (List.length lines)))); [|constructor].
  intros s x j Hj Hs. issues_ok.
Qed.

Lemma lint_well_formed code :
  Forall (well_formed (List.length (split LF code))) (lint_issues (lintVerilogCode code)).
Proof.
  unfold lintVerilogCode. cbn [lint_issues].
  repeat (apply Forall_app; split);
    auto using cdc_well_formed, comb_well_formed, style_well_formed,
      resources_well_formed, attributes_well_formed.
Qed.

End LinterInvariantFacts.


(* ================================================================== *)
(** ** The linter on every text: summary, rule table, silenced rules *)

Module LinterInvariantTheorems.
Import JsString Regex JsArray VerilogSynthesisLinter StringDefs StringFacts
       LinterCases LinterInvariants LinterTactics LinterInvariantTactics LinterFacts
       LinterInvariantFacts.

Lemma count_severity_cons s i l :
  count_severity s (i :: l) =
  (if String.eqb (severity i) s then 1 else 0) + count_severity s l.
Proof. unfold count_severity. cbn [filter]. now destruct (String.eqb (severity i) s). Qed.

Lemma count_severity_partition l :
  Forall (fun i => In (severity i) severities) l ->
  List.length l =
  count_severity "error" l + count_severity "warning" l + count_severity "info" l.
Proof.
  induction 1 as [|i l Hi _ IH]; [reflexivity|].
  rewrite !count_severity_cons. cbn [List.length]. rewrite IH.
  destruct Hi as [<-|[<-|[<-|[]]]]; cbn; lia.
Qed.

(** X12: every issue the linter returns lies on a line of the text and has
    one of the three severities the summary counts; so the three counts
    of the summary add up to its total, and the score is between 0 and
    100. *)
Theorem lint_summary_counts code :
  let result := lintVerilogCode code in
  let summary := lint_summary result in
  Forall (fun i => 1 <= line i <= List.length (split LF code) /\
                   In (severity i) severities) (lint_issues result) /\
  summary_total summary = List.length (lint_issues result) /\
  summary_total summary =
    summary_errors summary + summary_warnings summary + summary_info summary /\
  (0 <= summary_score summary <= 100)%Z.
Proof.
  intros result summary.
  assert (H : Forall (fun i => 1 <= line i <= List.length (split LF code) /\
                               In (severity i) severities) (lint_issues result)).
  { eapply Forall_impl; [|apply lint_well_formed].
    intros i (Hl & Hs & _). now split. }
  split; [exact H|]. split; [reflexivity|]. split.
  - unfold summary, result, lintVerilogCode, generateSummary.
    cbn [lint_summary lint_issues summary_total summary_errors summary_warnings summary_info].
    apply count_severity_partition.
    eapply Forall_impl; [|exact H]. now intros i [_ Hs].
  - unfold summary, result, lintVerilogCode, generateSummary.
    cbn [lint_summary summary_score]. lia.
Qed.

(** X13: the checks raise no rule "missing_synchronizer", which the table of
    the constructor lists as an error; and every issue whose rule the
    table lists has the severity the table gives it. *)
Theorem raised_rules_follow_table code :
  table_severity constructor "missing_synchronizer" = Some "error" /\
  Forall (fun i => rule i <> "missing_synchronizer" /\
                   forall s, table_severity constructor (rule i) = Some s ->
                             severity i = s)
         (lint_issues (lintVerilogCode code)).
Proof.
  split; [reflexivity|].
  eapply Forall_impl; [|apply lint_well_formed].
  intros i (_ & _ & Hr & Ht). now split.
Qed.

Lemma some_slice_false {A : Type} (p : A -> bool) (l : list A) (from to k : nat) (x : A) :
  some p (slice l from to) = false ->
  from <= k < to -> nth_error l k = Some x -> p x = false.
Proof.
  intros Hs Hk Hx. unfold some in Hs.
  destruct (p x) eqn:Hp; [|reflexivity].
  assert (Hex : existsb p (slice l from to) = true).
  { apply existsb_exists. exists x. split; [|exact Hp]. eapply slice_In; eassumption. }
  rewrite Hex in Hs. discriminate Hs.
Qed.

(** X14: an asynchronous reset is reported only where neither its line nor
    any of the nine lines after it holds "posedge". *)
Theorem async_reset_without_posedge lines i k l :
  In i (checkClockDomainCrossing lines) ->
  rule i = "async_reset_sync_deassert" ->
  line i - 1 <= k < line i + 9 ->
  nth_error lines k = Some l ->
  includes l "posedge" = false.
Proof.
  intros Hin Hrule Hk Hl.
  assert (H : Forall (fun i => rule i = "async_reset_sync_deassert" ->
                               forall k l, line i - 1 <= k < line i + 9 ->
                                           nth_error lines k = Some l ->
                                           includes l "posedge" = false)
                     (checkClockDomainCrossing lines)).
  { unfold checkClockDomainCrossing.
    apply (forEach_indexed
             (Forall (fun i => rule i = "async_reset_sync_deassert" ->
                               forall k l, line i - 1 <= k < line i + 9 ->
                                           nth_error lines k = Some l ->
                                           includes l "posedge" = false)));
      [|constructor].
    intros s x j Hj Hs.
    destruct (test asyncResetRegex x); destruct (test cdcRegex x);
      try destruct (includes x "negedge");
      try destruct (some _ (slice lines j (j + 10))) eqn:Hsome;
      cbn [andb negb];
      repeat first [ assumption
                   | apply Forall_app; split
                   | apply Forall_nil
                   | apply Forall_cons ];
      cbn [rule line]; intros Hr; try discriminate Hr;
      intros k' l' Hk' Hl';
      (apply (some_slice_false (fun l => includes l "posedge") lines j (j + 10) k' l' Hsome);
       [lia | exact Hl']). }
  rewrite Forall_forall in H. exact (H i Hin Hrule k l Hk Hl).
Qed.

Lemma async_reset_without_posedge_example :
  includes "always @(negedge rst_n)" "posedge" = false.
Proof.
  apply (async_reset_without_posedge ["always @(negedge rst_n)"]
           {| line := 0 + 1;
              severity := "warning";
              rule := "async_reset_sync_deassert";
              message := "Consider synchronous deassertion for reset";
              suggestion := "Use: always @(posedge clk or negedge rst_n)" |} 0).
  - vm_compute. left. reflexivity.
  - reflexivity.
  - cbn [line]. lia.
  - reflexivity.
Defined.

Lemma no_constraint_rule_from_cdc lines :
  of_rule "missing_timing_constraint" (checkClockDomainCrossing lines) = [].
Proof.
  unfold checkClockDomainCrossing, forEach.
  apply (forEach_from_invariant
           (fun s => of_rule "missing_timing_constraint" s = []) (fun _ => True));
    [|apply Forall_forall; trivial | reflexivity].
  intros s x i _ Hs. other_rule of_rule_app.
Qed.

Lemma no_constraint_rule_from_comb lines :
  of_rule "missing_timing_constraint" (checkCombinationalLogic lines) = [].
Proof.
  unfold checkCombinationalLogic, forEach.
  apply (forEach_from_invariant
           (fun s => of_rule "missing_timing_constraint" (issues s) = []) (fun _ => True));
    [|apply Forall_forall; trivial | reflexivity].
  intros s x i _ Hs. unfold comb_step. comb_cases;
    rewrite ?of_rule_app, ?Hs; reflexivity.
Qed.

Lemma no_constraint_rule_from_style lines :
  of_rule "missing_timing_constraint" (checkCodingStyle lines) = [].
Proof.
  unfold checkCodingStyle, forEach.
  apply (forEach_from_invariant
           (fun s => of_rule "missing_timing_constraint" (style_issues s) = [])
           (fun _ => True));
    [|apply Forall_forall; trivial | reflexivity].
  intros s x i _ Hs. unfold style_step. cbn [style_issues]. other_rule of_rule_app.
Qed.

Lemma no_constraint_rule_from_resources lines :
  of_rule "missing_timing_constraint" (checkResourceOptimization lines) = [].
Proof.
  unfold checkResourceOptimization, forEach.
  apply (forEach_from_invariant
           (fun s => of_rule "missing_timing_constraint" s = []) (fun _ => True));
    [|apply Forall_forall; trivial | reflexivity].
  intros s x i _ Hs. other_rule of_rule_app.
Qed.

(** X15: a timing constraint on any line of the text, a PERIOD attribute or
    [create_clock], keeps the linter from reporting a clock input
    anywhere. *)
Theorem constraint_silences_clock_rule code :
  some has_constraint (split LF code) = true ->
  of_rule "missing_timing_constraint" (lint_issues (lintVerilogCode code)) = [].
Proof.
  intros Hc. unfold lintVerilogCode. cbn [lint_issues]. rewrite !of_rule_app.
  rewrite no_constraint_rule_from_cdc, no_constraint_rule_from_comb,
    no_constraint_rule_from_style, no_constraint_rule_from_resources.
  cbn [app]. unfold checkSynthesisAttributes, forEach.
  apply (forEach_from_invariant
           (fun s => of_rule "missing_timing_constraint" s = []) (fun _ => True));
    [|apply Forall_forall; trivial | reflexivity].
  intros s x i _ Hs. fold has_constraint. rewrite Hc. cbn [negb].
  other_rule of_rule_app.
Qed.

Lemma constraint_silences_clock_rule_example :
  of_rule "missing_timing_constraint"
    (lint_issues (lintVerilogCode "input clk; // create_clock -period 10")) = [].
Proof. apply constraint_silences_clock_rule. vm_compute. reflexivity. Defined.

End LinterInvariantTheorems.


(* ================================================================== *)
(** ** The linter on every text: where a latch is reported *)

Module LatchSoundness.
Import JsString Regex JsArray VerilogSynthesisLinter StringDefs StringFacts
       LinterCases LinterInvariants LinterTactics LinterInvariantTactics LinterFacts
       LinterInvariantFacts.

Lemma some_slice_true {A : Type} (p : A -> bool) (l : list A) (from to : nat) :
  some p (slice l from to) = true ->
  exists k x, from <= k < to /\ nth_error l k = Some x /\ p x = true.
Proof.
  unfold some, slice. rewrite existsb_exists. intros (x & Hin & Hp).
  apply In_nth_error in Hin as (n & Hn).
  assert (Hlt : n < to - from).
  { destruct (Nat.ltb_spec n (to - from)) as [H|H]; [exact H|].
    rewrite nth_error_firstn in Hn.
    replace (n <? to - from) with false in Hn by (symmetry; apply Nat.ltb_ge; lia).
    discriminate Hn. }
  rewrite nth_error_firstn in Hn.
  replace (n <? to - from) with true in Hn by (symmetry; apply Nat.ltb_lt; lia).
  rewrite nth_error_skipn in Hn.
  exists (from + n), x. repeat split; [lia | lia | exact Hn | exact Hp].
Qed.

(** What holds of a latch finding on the lines [lines]: its line is
    [end] alone, and one of the twenty lines before it holds "if" or
    "case". *)
Lemma comb_step_latch lines st x j :
  nth_error lines j = Some x ->
  Forall (fun i => rule i = "inferred_latch" ->
                   exists l, nth_error lines (line i - 1) = Some l /\ trim l = "end" /\
                   exists k l', line i - 21 <= k < line i - 1 /\
                                nth_error lines k = Some l' /\
                                (includes l' "if" || includes l' "case") = true)
         (issues st) ->
  Forall (fun i => rule i = "inferred_latch" ->
                   exists l, nth_error lines (line i - 1) = Some l /\ trim l = "end" /\
                   exists k l', line i - 21 <= k < line i - 1 /\
                                nth_error lines k = Some l' /\
                                (includes l' "if" || includes l' "case") = true)
         (issues (comb_step lines st x j)).
Proof.
  intros Hj Hs. unfold comb_step.
  destruct (String.eqb (trim x) "end") eqn:Hend.
  - apply String.eqb_eq in Hend.
    destruct (test combAlwaysRegex (trim x));
      cbn [issues inAlwaysBlock hasElse hasDefault andb negb];
      destruct (inAlwaysBlock st); cbn [issues inAlwaysBlock hasElse hasDefault andb negb];
      try destruct (hasElse st); try destruct (hasDefault st); cbn [andb negb];
      try destruct (some (fun l => includes l "if") _) eqn:Hif;
      try destruct (some (fun l => includes l "case") _) eqn:Hcase;
      cbn [orb];
      repeat match goal with
             | |- context [match exec ?r ?s with _ => _ end] => destruct (exec r s)
             | |- context [if ?b then _ else _] => destruct b
             end;
      cbn [issues inAlwaysBlock hasElse hasDefault];
      repeat first [ assumption
                   | apply Forall_app; split
                   | apply Forall_nil
                   | apply Forall_cons ];
      try (cbn [rule combinational_loop]; intros Hr; discriminate Hr);
      intros _; exists x; cbn [line inferred_latch];
      replace (j + 1 - 1) with j by lia;
      (split; [exact Hj|]); (split; [exact Hend|]);
      first [ apply some_slice_true in Hif as (k & l' & Hk & Hl & Hp);
              exists k, l'; rewrite Hp;
              (split; [lia|]); split; [exact Hl | reflexivity]
            | apply some_slice_true in Hcase as (k & l' & Hk & Hl & Hp);
              exists k, l'; rewrite Hp, orb_true_r;
              (split; [lia|]); split; [exact Hl | reflexivity] ].
  - cbn [andb].
    repeat match goal with
           | |- context [match exec ?r ?s with _ => _ end] => destruct (exec r s)
           | |- context [if ?b then _ else _] => destruct b
           end;
      cbn [issues inAlwaysBlock hasElse hasDefault];
      repeat first [ assumption
                   | apply Forall_app; split
                   | apply Forall_nil
                   | apply Forall_cons ];
      cbn [rule combinational_loop]; intros Hr; discriminate Hr.
Qed.

(** X16: whatever the text, a latch finding of [checkCombinationalLogic] is
    on a line that is [end] alone, and one of the twenty lines before
    that line holds "if" or "case". *)
Theorem inferred_latch_sound lines i :
  In i (checkCombinationalLogic lines) -> rule i = "inferred_latch" ->
  exists l, nth_error lines (line i - 1) = Some l /\ trim l = "end" /\
  exists k l', line i - 21 <= k < line i - 1 /\
               nth_error lines k = Some l' /\
               (includes l' "if" || includes l' "case") = true.
Proof.
  intros Hin Hr.
  assert (H : Forall (fun i => rule i = "inferred_latch" ->
                   exists l, nth_error lines (line i - 1) = Some l /\ trim l = "end" /\
                   exists k l', line i - 21 <= k < line i - 1 /\
                                nth_error lines k = Some l' /\
                                (includes l' "if" || includes l' "case") = true)
                     (checkCombinationalLogic lines)).
  { unfold checkCombinationalLogic.
    apply (forEach_indexed
             (fun st => Forall (fun i => rule i = "inferred_latch" ->
                   exists l, nth_error lines (line i - 1) = Some l /\ trim l = "end" /\
                   exists k l', line i - 21 <= k < line i - 1 /\
                                nth_error lines k = Some l' /\
                                (includes l' "if" || includes l' "case") = true)
                               (issues st))); [|constructor].
    intros st x j Hj Hs. now apply comb_step_latch. }
  rewrite Forall_forall in H. exact (H i Hin Hr).
Qed.

Lemma inferred_latch_sound_example :
  exists l, nth_error (split LF latch_example) (3 - 1) = Some l /\ trim l = "end" /\
  exists k l', 3 - 21 <= k < 3 - 1 /\
               nth_error (split LF latch_example) k = Some l' /\
               (includes l' "if" || includes l' "case") = true.
Proof.
  apply (inferred_latch_sound (split LF latch_example) (inferred_latch 2)).
  - vm_compute. left. reflexivity.
  - reflexivity.
Defined.

End LatchSoundness.

(* ================================================================== *)
(** ** The estimators: unknown devices, capacities, monotone delays *)

Module EstimatorInvariantFacts.
Import JsString JsNumber FPGACalculations EstimatorCases EstimatorFacts EstimatorInvariants.
Local Open Scope float_scope.

Lemma get_found {A : Type} (table : list (string * A)) name :
  get table name = Undefined <->
  lookup table name = None /\ inherited name = false.
Proof.
  unfold get, inherited. destruct (lookup table name) as [v|].
  - split; [intros H; discriminate H | intros [H _]; discriminate H].
  - destruct (existsb (String.eqb name) prototype_names).
    + split; [intros H; discriminate H | intros [_ H]; discriminate H].
    + split; [now split | reflexivity].
Qed.

Lemma found_device_get this name :
  found_device this name = false <-> get (deviceSpecs this) name = Undefined.
Proof.
  rewrite get_found. unfold found_device, known_device.
  destruct (lookup (deviceSpecs this) name); cbn [orb].
  - split; [intros H; discriminate H | intros [H _]; discriminate H].
  - split; [now split | now intros [_ H]].
Qed.

Lemma truthy_spec_found this name :
  found_device this name = true ->
  exists deviceSpec, truthy_spec (get (deviceSpecs this) name) = Some deviceSpec.
Proof.
  intros H. destruct (get (deviceSpecs this) name) eqn:E.
  - eexists. reflexivity.
  - eexists. reflexivity.
  - apply found_device_get in E. rewrite E in H. discriminate H.
Qed.

(** X17: the timing and the power estimate raise the unsupported-device
    error exactly for a device name that is neither an own key of the
    catalog nor a member every object inherits, with a message that names
    it.  For any other name the power estimate returns, and the timing
    estimate returns unless the pattern found is an inherited member,
    when it fails on the call of its [delay_formula]. *)
Theorem estimates_fail_for_unknown_device Math_log2 host_pow inherited_has this cfg :
  let name := default (device cfg) "Artix-7" in
  let timing := calculateTiming Math_log2 host_pow inherited_has this cfg in
  let power := calculatePower host_pow this cfg in
  ((exists message, timing = Throw message) <-> found_device this name = false) /\
  ((exists message, power = Throw message) <-> found_device this name = false) /\
  (found_device this name = false ->
   timing = Throw ("Timing calculation failed: Unsupported device: " ++ name)%string /\
   power = Throw ("Power calculation failed: Unsupported device: " ++ name)%string) /\
  (found_device this name = true ->
   (exists r, power = Return r) /\
   match get_pattern inherited_has this (cfg_component cfg) (cfg_architecture cfg) with
   | Inherited => timing = Rethrow "Timing calculation failed: " "pattern.delay_formula"
   | _ => exists r, timing = Return r
   end).
Proof.
  intros name timing power.
  assert (Hf : found_device this name = true ->
               (exists r, power = Return r) /\
               match get_pattern inherited_has this (cfg_component cfg)
                       (cfg_architecture cfg) with
               | Inherited =>
                   timing = Rethrow "Timing calculation failed: " "pattern.delay_formula"
               | _ => exists r, timing = Return r
               end).
  { intros H. destruct (truthy_spec_found this name H) as [deviceSpec Hs]. split.
    - exact (calculatePower_returns host_pow this cfg deviceSpec Hs).
    - destruct (get_pattern inherited_has this (cfg_component cfg) (cfg_architecture cfg))
        as [profile| |] eqn:Ep.
      + destruct (calculateTiming_profile Math_log2 host_pow inherited_has this cfg
                    deviceSpec profile Hs Ep) as (r & Hr & _).
        exists r. exact Hr.
      + exact (calculateTiming_no_function Math_log2 host_pow inherited_has this cfg
                 deviceSpec Hs Ep).
      + destruct (calculateTiming_fallback Math_log2 host_pow inherited_has this cfg
                    deviceSpec Hs Ep) as (r & Hr & _).
        exists r. exact Hr. }
  assert (Hu : found_device this name = false ->
               timing = Throw ("Timing calculation failed: Unsupported device: "
                               ++ name)%string /\
               power = Throw ("Power calculation failed: Unsupported device: "
                              ++ name)%string).
  { intros H. apply found_device_get in H. split.
    - now apply calculateTiming_unknown_device.
    - now apply calculatePower_unknown_device. }
  split; [|split; [|split]].
  - split.
    + intros [message Hm].
      destruct (found_device this name) eqn:E; [|reflexivity].
      destruct (Hf eq_refl) as [_ Ht].
      destruct (get_pattern inherited_has this (cfg_component cfg) (cfg_architecture cfg)).
      * destruct Ht as [r Hr]. rewrite Hr in Hm. discriminate Hm.
      * rewrite Ht in Hm. discriminate Hm.
      * destruct Ht as [r Hr]. rewrite Hr in Hm. discriminate Hm.
    + intros H. eexists. exact (proj1 (Hu H)).
  - split.
    + intros [message Hm].
      destruct (found_device this name) eqn:E; [|reflexivity].
      destruct (Hf eq_refl) as [[r Hr] _]. rewrite Hr in Hm. discriminate Hm.
    + intros H. eexists. exact (proj2 (Hu H)).
  - exact Hu.
  - exact Hf.
Qed.

Lemma known_device_names name :
  known_device constructor name = true <-> In name device_names.
Proof.
  unfold known_device, device_names. cbn [constructor deviceSpecs lookup map fst In].
  repeat match goal with
         | |- context [String.eqb ?a name] =>
             destruct (String.eqb_spec a name)
         end; subst; split; intros H; try reflexivity; try discriminate H; auto 10.
  repeat destruct H as [H|H]; try contradiction; congruence.
Qed.

Lemma inherited_names name : inherited name = true -> In name prototype_names.
Proof.
  unfold inherited. rewrite existsb_exists. intros (x & Hx & He).
  apply String.eqb_eq in He. now subst.
Qed.

Lemma leb_undefined x : (x <=? nan) = false.
Proof.
  rewrite leb_spec. change (Prim2SF nan) with S754_nan.
  now destruct (Prim2SF x) as [[]| [] | |[]].
Qed.

Lemma ratio_undefined x y : (x / nan <? y) = false.
Proof.
  rewrite ltb_spec, div_spec. change (Prim2SF nan) with S754_nan.
  now destruct (Prim2SF x) as [[]| [] | |[]].
Qed.

(** X18: the capacity table that [checkResourceFeasibility] and
    [findResourceBottleneck] read holds the devices of the catalog and no
    other.  For a name that is none of them nothing fits; the bottleneck
    is "unknown", unless the name is that of a member every object
    inherits: the ratios then are all NaN and the last resource, "dsps",
    is named. *)
Theorem capacity_table_devices resources name :
  (lookup deviceCapacity name = None <-> known_device constructor name = false) /\
  (known_device constructor name = false ->
   checkResourceFeasibility resources name = false /\
   findResourceBottleneck resources name = if inherited name then "dsps" else "unknown") /\
  (inherited name = true -> known_device constructor name = false).
Proof.
  assert (H : lookup deviceCapacity name = None <-> known_device constructor name = false).
  { unfold known_device. cbn [constructor deviceSpecs deviceCapacity lookup].
    repeat match goal with
           | |- context [String.eqb ?a name] => destruct (String.eqb a name)
           end; split; intros H; first [reflexivity | discriminate H]. }
  split; [exact H|]. split.
  - intros Hk. apply H in Hk.
    unfold checkResourceFeasibility, findResourceBottleneck, get. rewrite Hk.
    fold (inherited name). destruct (inherited name); cbn [truthy_capacity]; [|now split].
    split.
    + cbn [undefined_capacity cap_luts]. now rewrite leb_undefined.
    + unfold reduce_keys. cbn [map fst fold_left lookup String.eqb Ascii.eqb Bool.eqb
                                 default undefined_capacity cap_luts cap_ffs cap_brams
                                 cap_dsps].
      now rewrite !ratio_undefined.
  - intros Hi. apply inherited_names in Hi.
    repeat (destruct Hi as [<-|Hi]; [reflexivity|]). destruct Hi.
Qed.

(** X19: for a device of the table, the bottleneck is one of the four
    resources, and it is "luts" only when the LUT ratio is strictly
    above the three others: of equal ratios the later one is named. *)
Theorem bottleneck_prefers_later resources name capacity :
  lookup deviceCapacity name = Some capacity ->
  In (findResourceBottleneck resources name) ["luts"; "ffs"; "brams"; "dsps"] /\
  (findResourceBottleneck resources name = "luts" <->
   (ff_ratio resources capacity <? lut_ratio resources capacity) = true /\
   (bram_ratio resources capacity <? lut_ratio resources capacity) = true /\
   (dsp_ratio resources capacity <? lut_ratio resources capacity) = true).
Proof.
  intros Hc. unfold findResourceBottleneck. rewrite (get_own _ _ _ Hc).
  cbn [truthy_capacity].
  unfold reduce_keys, ff_ratio, lut_ratio, bram_ratio, dsp_ratio.
  cbn [map fst fold_left].
  repeat (cbn [lookup String.eqb Ascii.eqb Bool.eqb default];
          match goal with
          | |- context [if (?a / ?b <? ?c / ?d) then _ else _] =>
              destruct (a / b <? c / d) eqn:?
          end);
    (split; [cbn; auto 6|]);
    (split;
     [ intros H; first [discriminate H | repeat split; reflexivity]
     | intros (H1 & H2 & H3);
       first [reflexivity | discriminate H1 | discriminate H2 | discriminate H3] ]).
Qed.

Lemma bottleneck_prefers_later_idle :
  In (findResourceBottleneck
        {| luts := 0; ffs := 0; brams := 0; dsps := 0; ios := 0;
           total_equivalent_luts := 0 |} "Artix-7")
     ["luts"; "ffs"; "brams"; "dsps"].
Proof.
  exact (proj1 (bottleneck_prefers_later
                  {| luts := 0; ffs := 0; brams := 0; dsps := 0; ios := 0;
                     total_equivalent_luts := 0 |} "Artix-7" _ eq_refl)).
Defined.

Lemma ripple_carry_range Math_log2 host_pow inherited_has :
  forallb (fun device =>
             forallb (fun n => ripple_carry_total Math_log2 host_pow inherited_has device n
                               <? ripple_carry_total Math_log2 host_pow inherited_has
                                    device (S n))
                     (seq 1 511))
          device_names = true.
Proof. vm_compute. reflexivity. Qed.

(** X20: on every device of the catalog and every host, the total delay of a
    ripple-carry adder grows strictly with each bit of width, from 1 to
    512 bits. *)
Theorem ripple_carry_delay_monotone Math_log2 host_pow inherited_has name n :
  known_device constructor name = true -> 1 <= n < 512 ->
  (ripple_carry_total Math_log2 host_pow inherited_has name n
   <? ripple_carry_total Math_log2 host_pow inherited_has name (S n)) = true.
Proof.
  intros Hk Hn. apply known_device_names in Hk.
  pose proof (ripple_carry_range Math_log2 host_pow inherited_has) as H.
  rewrite forallb_forall in H. specialize (H name Hk).
  rewrite forallb_forall in H. apply H. apply in_seq. lia.
Qed.

Lemma ripple_carry_delay_monotone_example :
  (ripple_carry_total (fun _ => 0) (fun _ _ => 1) (fun _ _ => false) "Stratix-10" 64
   <? ripple_carry_total (fun _ => 0) (fun _ _ => 1) (fun _ _ => false) "Stratix-10" 65) = true.
Proof.
  apply ripple_carry_delay_monotone; [reflexivity | lia].
Defined.

End EstimatorInvariantFacts.

